(** * agent-chat-ui: the session and streaming-chat controller

    A shallow embedding of the provider component of
    [src/providers/Stream.tsx] ([deriveSessionName], the effect that
    restores the tokens, [stop], [logout], [login], [register],
    [loadHistory], [refreshSessions], [renameSession], [createSession],
    [selectSession], [deleteSession], [sendMessage] and its read loop) and
    of [src/lib/auth.ts] (the token store, [loginUser], [registerUser],
    [createSession], [loginAndCreateSession] and
    [registerAndCreateSession]), together with the parts of the JavaScript
    runtime that this code relies on: strings of UTF-16 code units with
    [trim], [split] and [startsWith], the streaming [TextDecoder],
    [JSON.parse], truthiness and string concatenation.  The provider is
    taken in the revision that derives session labels and creates a
    session for the first message of a user who has none.

    Conventions of the model:
    - The React state (the [useState] cells), the two refs and the
      surrounding world are the fields of one record [state]; a [setX]
      call is the corresponding update of that record, applied in program
      order.
    - A function of the component reads the state cells from the render in
      which it was created.  Operations that do so take that render as a
      first argument [r], next to the current state [st]; refs are read
      from [st].
    - The answers of the backend are arguments of the operations.  An
      operation runs from its call to its end; what other operations do
      while it waits is not part of the model.
    - The field [trace] records what the component does to the outside, in
      order: each request with the message log as it stood when the request
      was sent, and each abort of a cancellation handle. *)

From Stdlib Require Import List NArith Lia Bool String Ascii Strings.Byte.
From stdpp Require Import gmap.
Import ListNotations.

(** ** JavaScript strings

    A JavaScript string is a sequence of UTF-16 code units; [length],
    [slice], [startsWith], [split] and [trim] all count and compare code
    units. *)

Abbreviation code_unit := N (only parsing).
Abbreviation jsstring := (list N) (only parsing).

Module Js.

(** An ASCII literal of the source, as code units. *)
Definition lit (s : string) : jsstring :=
  map N_of_ascii (list_ascii_of_string s).

Definition LF : code_unit := 10%N.
Definition SPACE : code_unit := 32%N.
Definition DQUOTE : code_unit := 34%N.

(** ECMAScript [WhiteSpace] and [LineTerminator] code points: the set that
    [String.prototype.trim] strips and that the regular expression class
    [\s] matches. *)
Definition is_white_space (c : code_unit) : bool :=
  ((c =? 0x09) || (c =? 0x0A) || (c =? 0x0B) || (c =? 0x0C) || (c =? 0x0D)
   || (c =? 0x20) || (c =? 0xA0) || (c =? 0x1680)
   || ((0x2000 <=? c) && (c <=? 0x200A))
   || (c =? 0x2028) || (c =? 0x2029) || (c =? 0x202F) || (c =? 0x205F)
   || (c =? 0x3000) || (c =? 0xFEFF))%N.

Fixpoint drop_while (p : code_unit -> bool) (s : jsstring) : jsstring :=
  match s with
  | [] => []
  | c :: r => if p c then drop_while p r else s
  end.

Definition trimStart (s : jsstring) : jsstring := drop_while is_white_space s.

Definition trimEnd (s : jsstring) : jsstring :=
  rev (drop_while is_white_space (rev s)).

Definition trim (s : jsstring) : jsstring := trimEnd (trimStart s).

(** [s.replace(/\s+/g, " ")]: every maximal run of white space is replaced
    by one space.  [in_run] records that the previous code unit belonged to
    the run whose replacement has already been written. *)
Fixpoint replace_ws_runs (in_run : bool) (s : jsstring) : jsstring :=
  match s with
  | [] => []
  | c :: r =>
      if is_white_space c
      then (if in_run then replace_ws_runs true r
            else SPACE :: replace_ws_runs true r)
      else c :: replace_ws_runs false r
  end.

Definition collapse_white_space (s : jsstring) : jsstring :=
  replace_ws_runs false s.

(** [s.startsWith(p)] *)
Fixpoint startsWith (p s : jsstring) : bool :=
  match p, s with
  | [], _ => true
  | _ :: _, [] => false
  | a :: p', b :: s' => (a =? b)%N && startsWith p' s'
  end.

(** [s.slice(n)] and [s.slice(0, n)] for a non-negative literal [n]. *)
Definition slice_from (n : nat) (s : jsstring) : jsstring := skipn n s.
Definition slice_to (n : nat) (s : jsstring) : jsstring := firstn n s.

(** The text after the prefix [p], when [s] starts with [p]. *)
Fixpoint strip_prefix (p s : jsstring) : option jsstring :=
  match p, s with
  | [], _ => Some s
  | _ :: _, [] => None
  | a :: p', b :: s' => if (a =? b)%N then strip_prefix p' s' else None
  end.

(** The first occurrence of [sep] in [s]: the text before it and the text
    after it. *)
Fixpoint cut_at (sep s : jsstring) : option (jsstring * jsstring) :=
  match strip_prefix sep s with
  | Some rest => Some ([], rest)
  | None =>
      match s with
      | [] => None
      | c :: r =>
          match cut_at sep r with
          | Some (before, after) => Some (c :: before, after)
          | None => None
          end
      end
  end.

Fixpoint split_fuel (fuel : nat) (sep s : jsstring) : list jsstring :=
  match fuel with
  | O => [s]
  | S fuel' =>
      match cut_at sep s with
      | None => [s]
      | Some (before, after) => before :: split_fuel fuel' sep after
      end
  end.

(** [s.split(sep)]: the pieces between the occurrences of [sep], found from
    left to right without overlap.  Every occurrence consumes at least one
    code unit, so [length s] rounds are enough.  An empty separator splits
    into single code units. *)
Definition split (sep s : jsstring) : list jsstring :=
  match sep with
  | [] => map (fun c => [c]) s
  | _ :: _ => split_fuel (length s) sep s
  end.

(** [parts.pop()]: the last element, if any, and the array without it. *)
Definition pop {A} (l : list A) : option A * list A :=
  match rev l with
  | [] => (None, [])
  | x :: r => (Some x, rev r)
  end.

(** [a.join(sep)] *)
Fixpoint join (sep : jsstring) (l : list jsstring) : jsstring :=
  match l with
  | [] => []
  | [x] => x
  | x :: r => x ++ sep ++ join sep r
  end.

(** A non-empty string is truthy. *)
Definition nonempty (s : jsstring) : bool :=
  match s with [] => false | _ :: _ => true end.

End Js.

(** ** Session labels *)

Definition SESSION_NAME_MAX_LENGTH : nat := 40.

(** The marker appended to a truncated label: the three code units of the
    string literal in the source file (U+00E2, U+20AC, U+00A6). *)
Definition ELLIPSIS_MARKER : jsstring := [0xE2; 0x20AC; 0xA6]%N.

Definition deriveSessionName (text : jsstring) : jsstring :=
  let trimmed := Js.collapse_white_space (Js.trim text) in
  if negb (Js.nonempty trimmed) then []
  else if length trimmed <=? SESSION_NAME_MAX_LENGTH then trimmed
  else Js.trimEnd (Js.slice_to SESSION_NAME_MAX_LENGTH trimmed) ++ ELLIPSIS_MARKER.

(** ** [TextDecoder]: streaming UTF-8 decoding

    [decoder.decode(value, { stream: true })] runs the UTF-8 decoder of the
    Encoding standard over the bytes of the chunk and keeps the state of an
    unfinished sequence for the next call.  Malformed input is replaced by
    U+FFFD, a leading byte order mark is dropped, and code points above
    U+FFFF become surrogate pairs. *)

Module Utf8.

Record decoder := {
  code_point : N;
  bytes_seen : N;
  bytes_needed : N;
  lower_boundary : N;
  upper_boundary : N;
  bom_seen : bool
}.

Definition fresh : decoder :=
  {| code_point := 0; bytes_seen := 0; bytes_needed := 0;
     lower_boundary := 0x80; upper_boundary := 0xBF; bom_seen := false |}.

Definition reset (d : decoder) : decoder :=
  {| code_point := 0; bytes_seen := 0; bytes_needed := 0;
     lower_boundary := 0x80; upper_boundary := 0xBF; bom_seen := bom_seen d |}.

Definition expect (d : decoder) (needed lo hi cp : N) : decoder :=
  {| code_point := cp; bytes_seen := 0; bytes_needed := needed;
     lower_boundary := lo; upper_boundary := hi; bom_seen := bom_seen d |}.

Definition REPLACEMENT : N := 0xFFFD.

(** A byte read when no sequence is pending. *)
Definition lead (d : decoder) (b : N) : decoder * list N :=
  (if b <=? 0x7F then (d, [b])
   else if (0xC2 <=? b) && (b <=? 0xDF) then
     (expect d 1 0x80 0xBF (N.land b 0x1F), [])
   else if (0xE0 <=? b) && (b <=? 0xEF) then
     (expect d 2 (if b =? 0xE0 then 0xA0 else 0x80)
                 (if b =? 0xED then 0x9F else 0xBF) (N.land b 0xF), [])
   else if (0xF0 <=? b) && (b <=? 0xF4) then
     (expect d 3 (if b =? 0xF0 then 0x90 else 0x80)
                 (if b =? 0xF4 then 0x8F else 0xBF) (N.land b 0x7), [])
   else (d, [REPLACEMENT]))%N.

(** One step of the decoder: the new state and the code points emitted.  A
    byte that cannot continue the pending sequence ends it with U+FFFD and
    is then read again as a leading byte. *)
Definition handler (d : decoder) (b : N) : decoder * list N :=
  (if bytes_needed d =? 0 then lead d b
   else if (b <? lower_boundary d) || (upper_boundary d <? b) then
     let '(d', out) := lead (reset d) b in (d', REPLACEMENT :: out)
   else
     let cp := N.lor (N.shiftl (code_point d) 6) (N.land b 0x3F) in
     if bytes_seen d + 1 =? bytes_needed d then (reset d, [cp])
     else ({| code_point := cp; bytes_seen := bytes_seen d + 1;
              bytes_needed := bytes_needed d;
              lower_boundary := 0x80; upper_boundary := 0xBF;
              bom_seen := bom_seen d |}, []))%N.

(** The UTF-16 code units of a code point. *)
Definition utf16 (cp : N) : jsstring :=
  (if cp <? 0x10000 then [cp]
   else [0xD800 + N.shiftr (cp - 0x10000) 10;
         0xDC00 + N.land (cp - 0x10000) 0x3FF])%N.

(** Output of one code point; the first code point of the stream is dropped
    when it is the byte order mark. *)
Definition emit (d : decoder) (cp : N) : decoder * jsstring :=
  if bom_seen d then (d, utf16 cp)
  else
    ({| code_point := code_point d; bytes_seen := bytes_seen d;
        bytes_needed := bytes_needed d;
        lower_boundary := lower_boundary d;
        upper_boundary := upper_boundary d; bom_seen := true |},
     if (cp =? 0xFEFF)%N then [] else utf16 cp).

Fixpoint emit_all (d : decoder) (cps : list N) : decoder * jsstring :=
  match cps with
  | [] => (d, [])
  | cp :: r =>
      let '(d1, o1) := emit d cp in
      let '(d2, o2) := emit_all d1 r in
      (d2, o1 ++ o2)
  end.

(** [decoder.decode(value, { stream: true })] *)
Fixpoint decode (d : decoder) (value : list byte) : decoder * jsstring :=
  match value with
  | [] => (d, [])
  | b :: r =>
      let '(d1, cps) := handler d (Byte.to_N b) in
      let '(d2, o1) := emit_all d1 cps in
      let '(d3, o2) := decode d2 r in
      (d3, o1 ++ o2)
  end.

(** The bytes of an ASCII literal. *)
Definition bytes (s : string) : list byte := list_byte_of_string s.

End Utf8.

(** ** [JSON.parse]

    A recursive-descent reader of the JSON grammar.  [None] stands for the
    [SyntaxError] that [JSON.parse] throws.  A number keeps its lexeme: its
    value as an IEEE double is not modelled here. *)

Module Json.

#[warnings="-register-all"]
Inductive value :=
| Null
| Bool (b : bool)
| Number (lexeme : jsstring)
| String (s : jsstring)
| Array (elements : list value)
| Object (members : list (jsstring * value)).

Definition is_json_space (c : code_unit) : bool :=
  ((c =? 0x20) || (c =? 0x09) || (c =? 0x0A) || (c =? 0x0D))%N.

Definition skip_ws (s : jsstring) : jsstring := Js.drop_while is_json_space s.

Definition is_digit (c : code_unit) : bool := ((48 <=? c) && (c <=? 57))%N.

Definition hex_digit (c : code_unit) : option N :=
  (if (48 <=? c) && (c <=? 57) then Some (c - 48)
   else if (65 <=? c) && (c <=? 70) then Some (c - 55)
   else if (97 <=? c) && (c <=? 102) then Some (c - 87)
   else None)%N.

Definition hex4 (a b c d : code_unit) : option code_unit :=
  match hex_digit a, hex_digit b, hex_digit c, hex_digit d with
  | Some x, Some y, Some z, Some w => Some (((x * 16 + y) * 16 + z) * 16 + w)%N
  | _, _, _, _ => None
  end.

Definition simple_escape (c : code_unit) : option code_unit :=
  (if c =? 34 then Some 34          (* quotation mark *)
   else if c =? 92 then Some 92     (* reverse solidus *)
   else if c =? 47 then Some 47     (* solidus *)
   else if c =? 98 then Some 8      (* b *)
   else if c =? 102 then Some 12    (* f *)
   else if c =? 110 then Some 10    (* n *)
   else if c =? 114 then Some 13    (* r *)
   else if c =? 116 then Some 9     (* t *)
   else None)%N.

(** The characters of a string after its opening quotation mark, up to the
    closing one. *)
Fixpoint string_body (acc s : jsstring) : option (jsstring * jsstring) :=
  match s with
  | [] => None
  | c :: r =>
      if (c =? 34)%N then Some (rev acc, r)
      else if (c =? 92)%N then
        match r with
        | [] => None
        | e :: r1 =>
            if (e =? 117)%N then
              match r1 with
              | h1 :: h2 :: h3 :: h4 :: r2 =>
                  match hex4 h1 h2 h3 h4 with
                  | Some u => string_body (u :: acc) r2
                  | None => None
                  end
              | _ => None
              end
            else
              match simple_escape e with
              | Some u => string_body (u :: acc) r1
              | None => None
              end
        end
      else if (c <? 0x20)%N then None
      else string_body (c :: acc) r
  end.

Fixpoint span_digits (s : jsstring) : jsstring * jsstring :=
  match s with
  | c :: r =>
      if is_digit c then let '(d, rest) := span_digits r in (c :: d, rest)
      else ([], s)
  | [] => ([], [])
  end.

(** The parts of a number: an optional minus sign; an integer part, which
    is a single zero or starts with another digit; an optional fraction of
    one or more digits after a point; an optional exponent of one or more
    digits after [e] or [E] and an optional sign.  Each gives the code
    units it reads and the rest of the text. *)
Definition sign_part (s : jsstring) : jsstring * jsstring :=
  match s with
  | c :: r => if (c =? 45)%N then ([c], r) else ([], s)
  | [] => ([], s)
  end.

Definition int_part (s : jsstring) : option (jsstring * jsstring) :=
  let '(digits, rest) := span_digits s in
  match digits with
  | [] => None
  | d :: more =>
      if (d =? 48)%N then Some ([d], more ++ rest) else Some (digits, rest)
  end.

Definition frac_part (s : jsstring) : option (jsstring * jsstring) :=
  match s with
  | c :: r =>
      if (c =? 46)%N then
        match span_digits r with
        | ([], _) => None
        | (digits, rest) => Some (c :: digits, rest)
        end
      else Some ([], s)
  | [] => Some ([], s)
  end.

Definition exp_part (s : jsstring) : option (jsstring * jsstring) :=
  match s with
  | c :: r =>
      if (c =? 101)%N || (c =? 69)%N then
        let '(sign, r1) :=
          match r with
          | g :: r' => if (g =? 43)%N || (g =? 45)%N then ([g], r') else ([], r)
          | [] => ([], r)
          end in
        match span_digits r1 with
        | ([], _) => None
        | (digits, rest) => Some (c :: sign ++ digits, rest)
        end
      else Some ([], s)
  | [] => Some ([], s)
  end.

(** A number: its lexeme and the rest of the text. *)
Definition number (s : jsstring) : option (jsstring * jsstring) :=
  let '(sign, s1) := sign_part s in
  match int_part s1 with
  | None => None
  | Some (int, s2) =>
      match frac_part s2 with
      | None => None
      | Some (frac, s3) =>
          match exp_part s3 with
          | None => None
          | Some (exp, s4) => Some (sign ++ int ++ frac ++ exp, s4)
          end
      end
  end.

Definition keyword (k : string) (v : value) (s : jsstring)
  : option (value * jsstring) :=
  match Js.strip_prefix (Js.lit k) s with
  | Some rest => Some (v, rest)
  | None => None
  end.

(** A value, the elements of an array after its opening bracket, and the
    members of an object after its opening brace.  Every two rounds read at
    least one code unit, so [2 * length s + 2] rounds are enough for [s]. *)
Fixpoint element (fuel : nat) (s : jsstring) : option (value * jsstring) :=
  match fuel with
  | O => None
  | S fuel' =>
      match skip_ws s with
      | [] => None
      | c :: r =>
          if (c =? 123)%N then
            match skip_ws r with
            | [] => None
            | c1 :: r1 =>
                if (c1 =? 125)%N then Some (Object [], r1)
                else members fuel' [] (c1 :: r1)
            end
          else if (c =? 91)%N then
            match skip_ws r with
            | [] => None
            | c1 :: r1 =>
                if (c1 =? 93)%N then Some (Array [], r1)
                else elements fuel' [] (c1 :: r1)
            end
          else if (c =? 34)%N then
            match string_body [] r with
            | Some (str, rest) => Some (String str, rest)
            | None => None
            end
          else if (c =? 116)%N then keyword "true" (Bool true) (c :: r)
          else if (c =? 102)%N then keyword "false" (Bool false) (c :: r)
          else if (c =? 110)%N then keyword "null" Null (c :: r)
          else
            match number (c :: r) with
            | Some (lexeme, rest) => Some (Number lexeme, rest)
            | None => None
            end
      end
  end
with elements (fuel : nat) (acc : list value) (s : jsstring)
  : option (value * jsstring) :=
  match fuel with
  | O => None
  | S fuel' =>
      match element fuel' s with
      | None => None
      | Some (v, r) =>
          match skip_ws r with
          | c :: r1 =>
              if (c =? 44)%N then elements fuel' (v :: acc) r1
              else if (c =? 93)%N then Some (Array (rev (v :: acc)), r1)
              else None
          | [] => None
          end
      end
  end
with members (fuel : nat) (acc : list (jsstring * value)) (s : jsstring)
  : option (value * jsstring) :=
  match fuel with
  | O => None
  | S fuel' =>
      match skip_ws s with
      | c :: r =>
          if (c =? 34)%N then
            match string_body [] r with
            | None => None
            | Some (key, r1) =>
                match skip_ws r1 with
                | c2 :: r2 =>
                    if (c2 =? 58)%N then
                      match element fuel' r2 with
                      | None => None
                      | Some (v, r3) =>
                          match skip_ws r3 with
                          | c4 :: r4 =>
                              if (c4 =? 44)%N
                              then members fuel' ((key, v) :: acc) r4
                              else if (c4 =? 125)%N
                              then Some (Object (rev ((key, v) :: acc)), r4)
                              else None
                          | [] => None
                          end
                      end
                    else None
                | [] => None
                end
            end
          else None
      | [] => None
      end
  end.

(** [JSON.parse(text)] *)
Definition parse (text : jsstring) : option value :=
  match element (2 * length text + 2) text with
  | Some (v, rest) =>
      match skip_ws rest with
      | [] => Some v
      | _ :: _ => None
      end
  | None => None
  end.

(** [o[key]] for an object built by [JSON.parse]: of several members with
    the same key the last one is kept.  [None] stands for [undefined]. *)
Fixpoint member (key : jsstring) (ms : list (jsstring * value)) : option value :=
  match ms with
  | [] => None
  | (k, v) :: r =>
      match member key r with
      | Some v' => Some v'
      | None => if decide (k = key) then Some v else None
      end
  end.

(** [v.key]: only objects made by [JSON.parse] carry the properties read by
    the stream consumer; on every other value the read gives [undefined]. *)
Definition get (v : value) (key : string) : option value :=
  match v with
  | Object ms => member (Js.lit key) ms
  | _ => None
  end.

End Json.

(** ** Data model *)

Abbreviation uuid := nat (only parsing).
Abbreviation controller := nat (only parsing).

Inductive Role := user | assistant | system.

Record ChatMessage := {
  id : uuid;
  role : Role;
  content : jsstring
}.

(** The [token_type] of a token is the constant ["bearer"]. *)
Record Token := {
  access_token : jsstring;
  expires_at : jsstring
}.

(** A session as the backend returns it; [name] is [None] when the backend
    sends no label ([null]). *)
Record SessionItem := {
  session_id : jsstring;
  name : option jsstring;
  token : Token
}.

(** A value that is thrown: whether it is an [Error], and its [name] and
    [message]. *)
Record thrown := {
  is_Error : bool;
  error_name : jsstring;
  error_message : jsstring
}.

(** [new Error(message)] *)
Definition Error (message : jsstring) : thrown :=
  {| is_Error := true; error_name := Js.lit "Error"; error_message := message |}.

(** What [fetch] resolves to: the status, the text that
    [detail?.detail] of the decoded error body gives when it is truthy, and
    the result of [res.json()], which may reject. *)
Record response (A : Type) := {
  status : N;
  detail : option jsstring;
  json : thrown + A
}.
Arguments status {A} _.
Arguments detail {A} _.
Arguments json {A} _.

Definition ok {A} (res : response A) : bool :=
  ((200 <=? status res) && (status res <=? 299))%N.

(** How the reads of a body end: the transport signals end-of-data, or a
    read rejects. *)
Inductive read_end :=
| end_of_data
| read_rejects (e : thrown).

(** The response to the chat request: [stream_body] is [res.body], the
    chunks that [reader.read()] delivers and the way the reads end. *)
Record stream_response := {
  stream_status : N;
  stream_detail : option jsstring;
  stream_body : option (list (list byte) * read_end)
}.

Definition stream_ok (res : stream_response) : bool :=
  ((200 <=? stream_status res) && (stream_status res <=? 299))%N.

(** One entry of the history the backend returns. *)
Record history_entry := {
  h_role : Role;
  h_content : jsstring
}.

(** The requests the controller sends: the endpoint, the bearer and what
    else identifies the request.  The body of the chat request is left out:
    it is built from [messagesRef], which an effect of the next render
    updates, and no statement below depends on it. *)
Inductive request :=
| GetMessages (bearer : jsstring)
| PostSession (bearer : jsstring)
| PatchSessionName (session : jsstring) (bearer : jsstring) (new_name : jsstring)
| PostChatStream (bearer : jsstring) (signal : controller).

(** What the controller does to the outside: a request, recorded with the
    message log as it stood when the request was sent, and the abort of a
    cancellation handle. *)
Inductive effect :=
| Fetch (req : request) (log : list ChatMessage)
| Abort (c : controller).

(** The answers of the backend to the requests of one operation. *)
Record network := {
  post_session : thrown + response SessionItem;
  patch_name : thrown + response SessionItem;
  post_stream : thrown + stream_response
}.

(** The state of the provider: the React state, the two refs, and the
    world around the component ([window.localStorage], which is absent
    outside a browser; the identifiers and cancellation handles handed out
    so far; the effects performed so far, oldest first). *)
Record state := {
  messages : list ChatMessage;
  isLoading : bool;
  error : option jsstring;
  sessions : list SessionItem;
  sessionsLoading : bool;
  currentSessionId : option jsstring;
  userToken : option jsstring;
  sessionToken : option jsstring;
  historyLoadedRef : bool;
  abortRef : option controller;
  localStorage : option (gmap jsstring jsstring);
  uuids : nat;
  controllers : nat;
  trace : list effect
}.

Definition setMessages (f : list ChatMessage -> list ChatMessage) (st : state) : state :=
  {| messages := f (messages st); isLoading := isLoading st;
     error := error st; sessions := sessions st;
     sessionsLoading := sessionsLoading st;
     currentSessionId := currentSessionId st; userToken := userToken st;
     sessionToken := sessionToken st;
     historyLoadedRef := historyLoadedRef st; abortRef := abortRef st;
     localStorage := localStorage st; uuids := uuids st;
     controllers := controllers st; trace := trace st |}.

Definition setIsLoading (b : bool) (st : state) : state :=
  {| messages := messages st; isLoading := b; error := error st;
     sessions := sessions st; sessionsLoading := sessionsLoading st;
     currentSessionId := currentSessionId st; userToken := userToken st;
     sessionToken := sessionToken st;
     historyLoadedRef := historyLoadedRef st; abortRef := abortRef st;
     localStorage := localStorage st; uuids := uuids st;
     controllers := controllers st; trace := trace st |}.

Definition setError (e : option jsstring) (st : state) : state :=
  {| messages := messages st; isLoading := isLoading st; error := e;
     sessions := sessions st; sessionsLoading := sessionsLoading st;
     currentSessionId := currentSessionId st; userToken := userToken st;
     sessionToken := sessionToken st;
     historyLoadedRef := historyLoadedRef st; abortRef := abortRef st;
     localStorage := localStorage st; uuids := uuids st;
     controllers := controllers st; trace := trace st |}.

Definition setSessions (f : list SessionItem -> list SessionItem) (st : state) : state :=
  {| messages := messages st; isLoading := isLoading st; error := error st;
     sessions := f (sessions st); sessionsLoading := sessionsLoading st;
     currentSessionId := currentSessionId st; userToken := userToken st;
     sessionToken := sessionToken st;
     historyLoadedRef := historyLoadedRef st; abortRef := abortRef st;
     localStorage := localStorage st; uuids := uuids st;
     controllers := controllers st; trace := trace st |}.

Definition setSessionsLoading (b : bool) (st : state) : state :=
  {| messages := messages st; isLoading := isLoading st; error := error st;
     sessions := sessions st; sessionsLoading := b;
     currentSessionId := currentSessionId st; userToken := userToken st;
     sessionToken := sessionToken st;
     historyLoadedRef := historyLoadedRef st; abortRef := abortRef st;
     localStorage := localStorage st; uuids := uuids st;
     controllers := controllers st; trace := trace st |}.

Definition setCurrentSessionId (i : option jsstring) (st : state) : state :=
  {| messages := messages st; isLoading := isLoading st; error := error st;
     sessions := sessions st; sessionsLoading := sessionsLoading st;
     currentSessionId := i; userToken := userToken st;
     sessionToken := sessionToken st;
     historyLoadedRef := historyLoadedRef st; abortRef := abortRef st;
     localStorage := localStorage st; uuids := uuids st;
     controllers := controllers st; trace := trace st |}.

Definition setUserToken (t : option jsstring) (st : state) : state :=
  {| messages := messages st; isLoading := isLoading st; error := error st;
     sessions := sessions st; sessionsLoading := sessionsLoading st;
     currentSessionId := currentSessionId st; userToken := t;
     sessionToken := sessionToken st;
     historyLoadedRef := historyLoadedRef st; abortRef := abortRef st;
     localStorage := localStorage st; uuids := uuids st;
     controllers := controllers st; trace := trace st |}.

Definition setSessionToken (t : option jsstring) (st : state) : state :=
  {| messages := messages st; isLoading := isLoading st; error := error st;
     sessions := sessions st; sessionsLoading := sessionsLoading st;
     currentSessionId := currentSessionId st; userToken := userToken st;
     sessionToken := t; historyLoadedRef := historyLoadedRef st;
     abortRef := abortRef st; localStorage := localStorage st;
     uuids := uuids st; controllers := controllers st; trace := trace st |}.

Definition set_historyLoadedRef (b : bool) (st : state) : state :=
  {| messages := messages st; isLoading := isLoading st; error := error st;
     sessions := sessions st; sessionsLoading := sessionsLoading st;
     currentSessionId := currentSessionId st; userToken := userToken st;
     sessionToken := sessionToken st; historyLoadedRef := b;
     abortRef := abortRef st; localStorage := localStorage st;
     uuids := uuids st; controllers := controllers st; trace := trace st |}.

Definition set_abortRef (c : option controller) (st : state) : state :=
  {| messages := messages st; isLoading := isLoading st; error := error st;
     sessions := sessions st; sessionsLoading := sessionsLoading st;
     currentSessionId := currentSessionId st; userToken := userToken st;
     sessionToken := sessionToken st;
     historyLoadedRef := historyLoadedRef st; abortRef := c;
     localStorage := localStorage st; uuids := uuids st;
     controllers := controllers st; trace := trace st |}.

Definition set_localStorage (m : option (gmap jsstring jsstring)) (st : state) : state :=
  {| messages := messages st; isLoading := isLoading st; error := error st;
     sessions := sessions st; sessionsLoading := sessionsLoading st;
     currentSessionId := currentSessionId st; userToken := userToken st;
     sessionToken := sessionToken st;
     historyLoadedRef := historyLoadedRef st; abortRef := abortRef st;
     localStorage := m; uuids := uuids st; controllers := controllers st;
     trace := trace st |}.

Definition perform (e : effect) (st : state) : state :=
  {| messages := messages st; isLoading := isLoading st; error := error st;
     sessions := sessions st; sessionsLoading := sessionsLoading st;
     currentSessionId := currentSessionId st; userToken := userToken st;
     sessionToken := sessionToken st;
     historyLoadedRef := historyLoadedRef st; abortRef := abortRef st;
     localStorage := localStorage st; uuids := uuids st;
     controllers := controllers st; trace := trace st ++ [e] |}.

(** [uuidv4()]: the n-th call returns the identifier n; the model builds in
    that the library never returns the same identifier twice. *)
Definition uuidv4 (st : state) : uuid * state :=
  (uuids st,
   {| messages := messages st; isLoading := isLoading st; error := error st;
      sessions := sessions st; sessionsLoading := sessionsLoading st;
      currentSessionId := currentSessionId st; userToken := userToken st;
      sessionToken := sessionToken st;
      historyLoadedRef := historyLoadedRef st; abortRef := abortRef st;
      localStorage := localStorage st; uuids := S (uuids st);
      controllers := controllers st; trace := trace st |}).

(** [new AbortController()] *)
Definition new_AbortController (st : state) : controller * state :=
  (controllers st,
   {| messages := messages st; isLoading := isLoading st; error := error st;
      sessions := sessions st; sessionsLoading := sessionsLoading st;
      currentSessionId := currentSessionId st; userToken := userToken st;
      sessionToken := sessionToken st;
      historyLoadedRef := historyLoadedRef st; abortRef := abortRef st;
      localStorage := localStorage st; uuids := uuids st;
      controllers := S (controllers st); trace := trace st |}).

Definition fetch (req : request) (st : state) : state :=
  perform (Fetch req (messages st)) st.

(** A token or identifier is truthy when it is a non-empty string. *)
Definition truthy (t : option jsstring) : bool :=
  match t with
  | Some s => Js.nonempty s
  | None => false
  end.

(** ** Token store ([src/lib/auth.ts]) *)

Definition USER_TOKEN_KEY : jsstring := Js.lit "chat:userToken".
Definition SESSION_TOKEN_KEY : jsstring := Js.lit "chat:sessionToken".
Definition SESSION_ID_KEY : jsstring := Js.lit "chat:sessionId".

Definition getItem (key : jsstring) (st : state) : option jsstring :=
  match localStorage st with
  | None => None
  | Some m => m !! key
  end.

Definition getStoredSessionToken (st : state) : option jsstring :=
  getItem SESSION_TOKEN_KEY st.

Definition getStoredUserToken (st : state) : option jsstring :=
  getItem USER_TOKEN_KEY st.

Definition storeSessionToken (tok : jsstring) (sessionId : option jsstring)
    (st : state) : state :=
  match localStorage st with
  | None => st
  | Some m =>
      let m := <[SESSION_TOKEN_KEY := tok]> m in
      match sessionId with
      | Some i => if Js.nonempty i then set_localStorage (Some (<[SESSION_ID_KEY := i]> m)) st
                  else set_localStorage (Some m) st
      | None => set_localStorage (Some m) st
      end
  end.

Definition storeUserToken (tok : jsstring) (st : state) : state :=
  match localStorage st with
  | None => st
  | Some m => set_localStorage (Some (<[USER_TOKEN_KEY := tok]> m)) st
  end.

Definition clearStoredTokens (st : state) : state :=
  match localStorage st with
  | None => st
  | Some m =>
      set_localStorage
        (Some (delete SESSION_ID_KEY
                 (delete SESSION_TOKEN_KEY (delete USER_TOKEN_KEY m)))) st
  end.

(** ** The provider ([src/providers/Stream.tsx]) *)

Definition stop (st : state) : state :=
  let st :=
    match abortRef st with
    | Some c => set_abortRef None (perform (Abort c) st)
    | None => st
    end in
  setIsLoading false st.

Definition logout (st : state) : state :=
  let st := stop st in
  let st := clearStoredTokens st in
  let st := setSessionToken None st in
  let st := setUserToken None st in
  let st := setSessions (fun _ => []) st in
  let st := setCurrentSessionId None st in
  let st := setMessages (fun _ => []) st in
  let st := setError None st in
  set_historyLoadedRef false st.

Definition SESSION_EXPIRED : jsstring :=
  Js.lit "Session expired. Please log in again.".

(** [err instanceof Error ? err.message : fallback] *)
Definition message_or (fallback : string) (err : thrown) : jsstring :=
  if is_Error err then error_message err else Js.lit fallback.

(** [detail?.detail || fallback] *)
Definition detail_or (fallback : string) (d : option jsstring) : jsstring :=
  match d with
  | Some m => if Js.nonempty m then m else Js.lit fallback
  | None => Js.lit fallback
  end.

Definition selectSession (session : SessionItem) (preserveMessages : bool)
    (st : state) : state :=
  let st := stop st in
  let st := setCurrentSessionId (Some (session_id session)) st in
  let st := setSessionToken (Some (access_token (token session))) st in
  let st := storeSessionToken (access_token (token session))
              (Some (session_id session)) st in
  let st := if negb preserveMessages then setMessages (fun _ => []) st else st in
  set_historyLoadedRef false st.

(** [renameSession(session, name, { updateList })]; the result [None] is
    [null]. *)
Definition renameSession (session : SessionItem) (new_name : jsstring)
    (updateList : bool) (net : network) (st : state)
  : option SessionItem * state :=
  let trimmed := Js.trim new_name in
  if negb (Js.nonempty trimmed) then (Some session, st)
  else
    let st := fetch (PatchSessionName (session_id session)
                       (access_token (token session)) trimmed) st in
    let failed (err : thrown) :=
      (None, setError (Some (message_or "Failed to rename session." err)) st) in
    match patch_name net with
    | inl err => failed err
    | inr res =>
        if negb (ok res)
        then failed (Error (detail_or "Failed to rename session." (detail res)))
        else
          match json res with
          | inl err => failed err
          | inr updated =>
              let st :=
                if updateList then
                  setSessions
                    (map (fun item =>
                            if decide (session_id item = session_id updated)
                            then updated else item)) st
                else st in
              (Some updated, st)
          end
    end.

(** [createSession(name, { preserveMessages })], called from a render [r];
    the result [None] is [undefined]. *)
Definition createSession (r : state) (new_name : option jsstring)
    (preserveMessages : bool) (net : network) (st : state)
  : option SessionItem * state :=
  match userToken r with
  | Some bearer =>
      if negb (Js.nonempty bearer)
      then (None, setError (Some (Js.lit "Please log in to create a session.")) st)
      else
        let st := setIsLoading true st in
        let st := setError None st in
        let st := fetch (PostSession bearer) st in
        let failed (err : thrown) (st : state) :=
          (None,
           setIsLoading false
             (setError (Some (message_or "Failed to create session." err)) st)) in
        match post_session net with
        | inl err => failed err st
        | inr res =>
            if negb (ok res)
            then failed (Error (detail_or "Failed to create session." (detail res))) st
            else
              match json res with
              | inl err => failed err st
              | inr session =>
                  let '(renamed, st) :=
                    if truthy new_name
                    then renameSession session (default [] new_name) false net st
                    else (None, st) in
                  let finalSession := default session renamed in
                  let st := setSessions (fun prev => finalSession :: prev) st in
                  let st := selectSession finalSession preserveMessages st in
                  (Some finalSession, setIsLoading false st)
              end
        end
  | None => (None, setError (Some (Js.lit "Please log in to create a session.")) st)
  end.

(** The identifiers given to the entries of a loaded history, in order. *)
Fixpoint with_fresh_ids (entries : list history_entry) (st : state)
  : list ChatMessage * state :=
  match entries with
  | [] => ([], st)
  | msg :: rest =>
      let '(i, st) := uuidv4 st in
      let '(ms, st) := with_fresh_ids rest st in
      ({| id := i; role := h_role msg; content := h_content msg |} :: ms, st)
  end.

(** [loadHistory()], run by the effect of a render [r] against the answer
    [res] of the backend.  The decoded body is [None] when it has no
    [messages] field. *)
Definition loadHistory (r : state)
    (res : thrown + response (option (list history_entry))) (st : state)
  : state :=
  match sessionToken r with
  | None => st
  | Some bearer =>
      if negb (Js.nonempty bearer) || historyLoadedRef st then st
      else
        let st := set_historyLoadedRef true st in
        let st := fetch (GetMessages bearer) st in
        let failed (err : thrown) :=
          setError (Some (message_or "Failed to load history." err)) st in
        match res with
        | inl err => failed err
        | inr res =>
            if ((status res =? 401) || (status res =? 403))%N then
              let st := logout st in
              setError (Some SESSION_EXPIRED) st
            else if negb (ok res) then
              failed (Error (detail_or "Failed to load chat history." (detail res)))
            else
              match json res with
              | inl err => failed err
              | inr data =>
                  match data with
                  | Some (m :: ms) =>
                      let '(loaded, st) := with_fresh_ids (m :: ms) st in
                      setMessages (fun _ => loaded) st
                  | _ => st
                  end
              end
        end
  end.

(** ** The stream consumer *)

Section StreamConsumer.

(** The value of a JSON number is an IEEE double, which is not modelled:
    whether the number with a given lexeme is zero, and the text that
    string concatenation makes of it, are left open. *)
Variable number_is_zero : jsstring -> bool.
Variable number_to_string : jsstring -> jsstring.

(** Truthiness of the result of a property read ([None] is [undefined]). *)
Definition to_boolean (v : option Json.value) : bool :=
  match v with
  | None => false
  | Some Json.Null => false
  | Some (Json.Bool b) => b
  | Some (Json.Number lexeme) => negb (number_is_zero lexeme)
  | Some (Json.String s) => Js.nonempty s
  | Some (Json.Array _) => true
  | Some (Json.Object _) => true
  end.

(** The text that [msg.content + v] appends for a value [v]: a string is
    appended as it is; an array is joined with commas, [null] elements
    giving the empty text. *)
Fixpoint to_string (v : Json.value) : jsstring :=
  match v with
  | Json.Null => Js.lit "null"
  | Json.Bool true => Js.lit "true"
  | Json.Bool false => Js.lit "false"
  | Json.Number lexeme => number_to_string lexeme
  | Json.String s => s
  | Json.Array elements =>
      Js.join (Js.lit ",")
        (map (fun e => match e with
                       | Json.Null => []
                       | _ => to_string e
                       end) elements)
  | Json.Object _ => Js.lit "[object Object]"
  end.

(** The update of the log for a payload with content:
    [prev.map(msg => msg.id === assistantId ? { ...msg, content: msg.content + data.content } : msg)] *)
Definition append_content (assistantId : uuid) (text : jsstring)
    (prev : list ChatMessage) : list ChatMessage :=
  map (fun msg =>
         if decide (id msg = assistantId)
         then {| id := id msg; role := role msg; content := content msg ++ text |}
         else msg) prev.

(** The body of the loop over the lines of one event, after the payload has
    been read by [JSON.parse]. *)
Definition handle_data (assistantId : uuid) (data : Json.value) (st : state)
  : state :=
  if negb (to_boolean (Some data)) then st
  else if to_boolean (Json.get data "done") then setIsLoading false st
  else
    match Json.get data "content" with
    | Some c =>
        if to_boolean (Some c)
        then setMessages (append_content assistantId (to_string c)) st
        else st
    | None => st
    end.

Definition handle_line (assistantId : uuid) (st : state) (line : jsstring)
  : state :=
  if negb (Js.startsWith (Js.lit "data:") line) then st
  else
    let payload := Js.trim (Js.slice_from 5 line) in
    if negb (Js.nonempty payload) then st
    else
      match Json.parse payload with
      | None => st
      | Some data => handle_data assistantId data st
      end.

Definition handle_part (assistantId : uuid) (st : state) (part : jsstring)
  : state :=
  fold_left (handle_line assistantId) (Js.split [Js.LF] part) st.

(** The variables of the read loop. *)
Record reading := {
  decoder : Utf8.decoder;
  buffer : jsstring;
  now : state
}.

(** One round of the loop for a chunk [value] that [reader.read()]
    delivers. *)
Definition read_chunk (assistantId : uuid) (rd : reading) (value : list byte)
  : reading :=
  let '(dec, text) := Utf8.decode (decoder rd) value in
  let buffer := buffer rd ++ text in
  let '(last, parts) := Js.pop (Js.split [Js.LF; Js.LF] buffer) in
  {| decoder := dec;
     buffer := default [] last;
     now := fold_left (handle_part assistantId) parts (now rd) |}.

(** The loop over all chunks, up to the read that ends it. *)
Definition read_loop (assistantId : uuid) (chunks : list (list byte))
    (st : state) : reading :=
  fold_left (read_chunk assistantId) chunks
    {| decoder := Utf8.fresh; buffer := []; now := st |}.

(** The [catch] and [finally] blocks of [sendMessage]. *)
Definition catch_stream (err : thrown) (st : state) : state :=
  if decide (error_name err = Js.lit "AbortError") then st
  else setError (Some (message_or "Streaming failed." err)) st.

Definition finally_stream (st : state) : state :=
  set_abortRef None (setIsLoading false st).

(** [sendMessage], from the creation of the cancellation handle on. *)
Definition stream_reply (bearer : jsstring) (assistantId : uuid)
    (net : network) (st : state) : state :=
  let '(ctl, st) := new_AbortController st in
  let st := set_abortRef (Some ctl) st in
  let st := fetch (PostChatStream bearer ctl) st in
  match post_stream net with
  | inl err => finally_stream (catch_stream err st)
  | inr res =>
      if ((stream_status res =? 401) || (stream_status res =? 403))%N then
        let st := logout st in
        let st := setError (Some SESSION_EXPIRED) st in
        finally_stream st
      else
        match stream_body res with
        | Some (chunks, last_read) =>
            if stream_ok res then
              let st := now (read_loop assistantId chunks st) in
              match last_read with
              | end_of_data => finally_stream st
              | read_rejects err => finally_stream (catch_stream err st)
              end
            else
              finally_stream
                (catch_stream
                   (Error (detail_or "Failed to start stream." (stream_detail res)))
                   st)
        | None =>
            finally_stream
              (catch_stream
                 (Error (detail_or "Failed to start stream." (stream_detail res)))
                 st)
        end
  end.

(** [name?.trim()] is falsy *)
Definition unnamed (s : SessionItem) : bool :=
  match name s with
  | Some n => negb (Js.nonempty (Js.trim n))
  | None => true
  end.

(** [sendMessage(text)], called from a render [r] (whose [userToken],
    [sessionToken], [currentSessionId] and [sessions] the closure reads)
    while the state is [st]. *)
Definition sendMessage (r : state) (text : jsstring) (net : network)
    (st : state) : state :=
  if negb (truthy (userToken r))
  then setError (Some (Js.lit "Please log in to start chatting.")) st
  else
    let trimmed := Js.trim text in
    if negb (Js.nonempty trimmed) then st
    else if 3000 <? length trimmed
    then setError (Some (Js.lit "Message too long (max 3000 characters).")) st
    else
      let st := setError None st in
      let st := setIsLoading true st in
      let '(userId, st) := uuidv4 st in
      let userMessage := {| id := userId; role := user; content := trimmed |} in
      let '(assistantId, st) := uuidv4 st in
      let assistantMessage :=
        {| id := assistantId; role := assistant; content := [] |} in
      let st := setMessages (fun prev => prev ++ [userMessage; assistantMessage]) st in
      if negb (truthy (sessionToken r)) then
        let sessionName := deriveSessionName trimmed in
        let '(session, st) := createSession r (Some sessionName) true net st in
        match session with
        | Some s =>
            if Js.nonempty (access_token (token s))
            then stream_reply (access_token (token s)) assistantId net st
            else setError (Some (Js.lit "Unable to create a session."))
                   (setIsLoading false st)
        | None =>
            setError (Some (Js.lit "Unable to create a session."))
              (setIsLoading false st)
        end
      else
        let st :=
          if truthy (currentSessionId r) then
            match find (fun s => bool_decide (Some (session_id s) = currentSessionId r))
                    (sessions r) with
            | Some currentSession =>
                if unnamed currentSession
                then snd (renameSession currentSession
                            (deriveSessionName trimmed) true net st)
                else st
            | None => st
            end
          else st in
        stream_reply (default [] (sessionToken r)) assistantId net st.

(** ** Session labels, as the description words them

    The words of a text are its maximal runs of code units that are not
    white space; trimming a text and collapsing its runs of white space
    leaves its words, with one space between two of them. *)

Fixpoint words (s : jsstring) : list jsstring :=
  match s with
  | [] => []
  | c :: r =>
      if Js.is_white_space c then words r
      else
        match r with
        | [] => [[c]]
        | c' :: _ =>
            if Js.is_white_space c' then [c] :: words r
            else
              match words r with
              | w :: ws => (c :: w) :: ws
              | [] => [[c]]
              end
        end
  end.

(** The label as the description words it: the words with single spaces,
    as they are up to 40 code units, else the first 40 code units, trimmed
    at the end, and the marker. *)
Definition described_label (text : jsstring) : jsstring :=
  let t := Js.join [Js.SPACE] (words text) in
  if length t <=? 40 then t
  else Js.trimEnd (firstn 40 t) ++ ELLIPSIS_MARKER.

(** A text that does not end with white space. *)
Fixpoint ends_clean (s : jsstring) : bool :=
  match s with
  | [] => true
  | c :: r =>
      match r with
      | [] => negb (Js.is_white_space c)
      | _ :: _ => ends_clean r
      end
  end.

Definition starts_with_space (s : jsstring) : bool :=
  match s with
  | [] => false
  | c :: _ => Js.is_white_space c
  end.

(** ** Streams used in the statements below *)

(** The text of a body decoded in one piece. *)
Definition text_of (body : list byte) : jsstring :=
  snd (Utf8.decode Utf8.fresh body).

(** The bytes of an ASCII text between quotation marks. *)
Definition quoted (s : string) : list byte := [x22] ++ Utf8.bytes s ++ [x22].

(** The bytes of one event: a [data:] line and a blank line. *)
Definition sse_event (payload : list byte) : list byte :=
  Utf8.bytes "data: " ++ payload ++ [x0a; x0a].

(** The payload with the single member [content]. *)
Definition content_payload (text : string) : list byte :=
  Utf8.bytes "{" ++ quoted "content" ++ Utf8.bytes ":" ++ quoted text
  ++ Utf8.bytes "}".

(** The payload with the single member [done], set to [true]. *)
Definition done_payload : list byte :=
  Utf8.bytes "{" ++ quoted "done" ++ Utf8.bytes ":true}".

(** The two events of contents [ab] and [cd]. *)
Definition two_events : list byte :=
  sse_event (content_payload "ab") ++ sse_event (content_payload "cd").

(** A payload with both members: a content and [done] set to [true]. *)
Definition done_with_content_payload : list byte :=
  Utf8.bytes "{" ++ quoted "content" ++ Utf8.bytes ":" ++ quoted "x"
  ++ Utf8.bytes "," ++ quoted "done" ++ Utf8.bytes ":true}".

(** A body whose first event has a line that is not JSON before a line with
    the content [ab]. *)
Definition noisy_body : list byte :=
  Utf8.bytes "data: not-json" ++ [x0a] ++ Utf8.bytes "data: "
  ++ content_payload "ab" ++ [x0a; x0a].

(** A body whose second event is not closed by a blank line. *)
Definition unfinished_body : list byte :=
  sse_event (content_payload "ab") ++ Utf8.bytes "data: "
  ++ content_payload "cd".

(** A reading of numbers for the closed statements below, none of which
    has a number in its payloads: a number is zero when its lexeme is [0],
    and is written as its lexeme. *)
Definition lexeme_is_zero (lexeme : jsstring) : bool :=
  bool_decide (lexeme = Js.lit "0").

Definition lexeme_text (lexeme : jsstring) : jsstring := lexeme.

Definition is_chat_request (req : request) : bool :=
  match req with
  | PostChatStream _ _ => true
  | _ => false
  end.

(** A request about sessions (not the chat request), sent while the log is
    [log]. *)
Definition session_request (log : list ChatMessage) (e : effect) : Prop :=
  exists req, e = Fetch req log /\ is_chat_request req = false.

(** An effect that is not a request, or a request sent while the log is
    [log]. *)
Definition log_at_request (log : list ChatMessage) (e : effect) : Prop :=
  match e with
  | Fetch _ l => l = log
  | Abort _ => True
  end.

(** The abort that [stop] performs on the handle kept in [abortRef]. *)
Definition aborts_of (handle : option controller) : list effect :=
  match handle with
  | Some c => [Abort c]
  | None => []
  end.

(** ** The rest of the provider and of [src/lib/auth.ts]

    The operations about accounts and about the list of sessions send
    requests of their own.  They are not chat or history requests and are
    not written to [trace]: each of these operations returns the requests
    it sends, in order, next to the state. *)

Inductive account_request :=
| PostLogin (username password : jsstring)
| PostRegister (email password : jsstring)
| GetSessions (bearer : jsstring)
| DeleteSession (session bearer : jsstring).

(** The body of a successful registration. *)
Record UserResponse := {
  user_id : N;
  user_email : jsstring;
  user_token : Token
}.

(** The first effect of the provider: the tokens kept in the store are put
    back into the state. *)
Definition mount (st : state) : state :=
  let st :=
    match getStoredSessionToken st with
    | Some stored => if Js.nonempty stored then setSessionToken (Some stored) st else st
    | None => st
    end in
  match getStoredUserToken st with
  | Some storedUser =>
      if Js.nonempty storedUser then setUserToken (Some storedUser) st else st
  | None => st
  end.

(** The provider before its first render, over the store that [st] leaves
    behind: the initial values of its [useState] and [useRef] cells. *)
Definition reloaded (st : state) : state :=
  {| messages := []; isLoading := false; error := None; sessions := [];
     sessionsLoading := false; currentSessionId := None; userToken := None;
     sessionToken := None; historyLoadedRef := false; abortRef := None;
     localStorage := localStorage st; uuids := uuids st;
     controllers := controllers st; trace := trace st |}.

(** [refreshSessions()], called from a render [r]. *)
Definition refreshSessions (r : state)
    (res : thrown + response (list SessionItem)) (st : state)
  : state * list account_request :=
  match userToken r with
  | None => (st, [])
  | Some bearer =>
      if negb (Js.nonempty bearer) then (st, [])
      else
        let st := setSessionsLoading true st in
        let failed (err : thrown) :=
          setError (Some (message_or "Failed to load sessions." err)) st in
        let st :=
          match res with
          | inl err => failed err
          | inr res =>
              if ((status res =? 401) || (status res =? 403))%N then
                setError (Some SESSION_EXPIRED) (logout st)
              else if negb (ok res) then
                failed (Error (detail_or "Failed to load sessions." (detail res)))
              else
                match json res with
                | inl err => failed err
                | inr data => setSessions (fun _ => data) st
                end
          end in
        (setSessionsLoading false st, [GetSessions bearer])
  end.

(** [deleteSession(session)], called from a render [r].  On success the
    body of the answer is not read. *)
Definition deleteSession (r : state) (session : SessionItem)
    (res : thrown + response unit) (st : state)
  : state * list account_request :=
  let st := setIsLoading true st in
  let st := setError None st in
  let failed (err : thrown) :=
    setError (Some (message_or "Failed to delete session." err)) st in
  let st :=
    match res with
    | inl err => failed err
    | inr res =>
        if negb (ok res) then
          failed (Error (detail_or "Failed to delete session." (detail res)))
        else
          let st :=
            setSessions
              (filter (fun item =>
                         negb (bool_decide (session_id item = session_id session))))
              st in
          if bool_decide (currentSessionId r = Some (session_id session)) then
            let st := stop st in
            let st := setCurrentSessionId None st in
            let st := setSessionToken None st in
            let st := setMessages (fun _ => []) st in
            set_historyLoadedRef false st
          else st
    end in
  (setIsLoading false st,
   [DeleteSession (session_id session) (access_token (token session))]).

(** [loginUser], [registerUser] and [createSession] of [src/lib/auth.ts]:
    the value they resolve to, or what they throw, for an answer of the
    backend. *)
Definition loginUser (res : thrown + response Token) : thrown + Token :=
  match res with
  | inl err => inl err
  | inr res =>
      if negb (ok res) then inl (Error (detail_or "Login failed." (detail res)))
      else json res
  end.

Definition registerUser (res : thrown + response UserResponse)
  : thrown + UserResponse :=
  match res with
  | inl err => inl err
  | inr res =>
      if negb (ok res)
      then inl (Error (detail_or "Registration failed." (detail res)))
      else json res
  end.

Definition auth_createSession (res : thrown + response SessionItem)
  : thrown + SessionItem :=
  match res with
  | inl err => inl err
  | inr res =>
      if negb (ok res)
      then inl (Error (detail_or "Failed to create session." (detail res)))
      else json res
  end.

(** What a [catch] clause may receive: a thrown value as above, or a
    string. *)
Inductive caught :=
| CaughtValue (err : thrown)
| CaughtString (s : jsstring).

(** [getErrorMessage(error, fallback)] *)
Definition getErrorMessage (error : caught) (fallback : string) : jsstring :=
  match error with
  | CaughtValue err => if is_Error err then error_message err else Js.lit fallback
  | CaughtString s => s
  end.

(** [loginAndCreateSession(baseUrl, email, password)]: the session or the
    error it throws, the state (of which it touches the store only), and
    the login request.  The request that creates the session is written to
    [trace]. *)
Definition loginAndCreateSession (email password : jsstring)
    (login_res : thrown + response Token)
    (session_res : thrown + response SessionItem) (st : state)
  : (thrown + SessionItem) * state * list account_request :=
  let failed (err : thrown) (st : state) :=
    (inl (Error (getErrorMessage (CaughtValue err) "Authentication failed.")),
     clearStoredTokens st, [PostLogin email password]) in
  match loginUser login_res with
  | inl err => failed err st
  | inr login =>
      let st := storeUserToken (access_token login) st in
      let st := fetch (PostSession (access_token login)) st in
      match auth_createSession session_res with
      | inl err => failed err st
      | inr session =>
          let st := storeSessionToken (access_token (token session))
                      (Some (session_id session)) st in
          (inr session, st, [PostLogin email password])
      end
  end.

(** [registerAndCreateSession(baseUrl, email, password)] *)
Definition registerAndCreateSession (email password : jsstring)
    (register_res : thrown + response UserResponse)
    (session_res : thrown + response SessionItem) (st : state)
  : (thrown + SessionItem) * state * list account_request :=
  let failed (err : thrown) (st : state) :=
    (inl (Error (getErrorMessage (CaughtValue err) "Registration failed.")),
     clearStoredTokens st, [PostRegister email password]) in
  match registerUser register_res with
  | inl err => failed err st
  | inr registration =>
      let st := storeUserToken (access_token (user_token registration)) st in
      let st := fetch (PostSession (access_token (user_token registration))) st in
      match auth_createSession session_res with
      | inl err => failed err st
      | inr session =>
          let st := storeSessionToken (access_token (token session))
                      (Some (session_id session)) st in
          (inr session, st, [PostRegister email password])
      end
  end.

(** The steps that [login] and [register] of the provider share once the
    user token [tok] is known, up to the refresh of the list of sessions. *)
Definition signed_in (r : state) (tok : jsstring)
    (sessions_res : thrown + response (list SessionItem)) (st : state)
  : state * list account_request :=
  let st := storeUserToken tok st in
  let st := setUserToken (Some tok) st in
  let st := setSessionToken None st in
  let st := setCurrentSessionId None st in
  let st := setSessions (fun _ => []) st in
  refreshSessions r sessions_res st.

(** [login(email, password)] of the provider, called from a render [r]:
    the error it throws again, if any, the state and the requests. *)
Definition login (r : state) (email password : jsstring)
    (login_res : thrown + response Token)
    (sessions_res : thrown + response (list SessionItem)) (st : state)
  : option thrown * state * list account_request :=
  let st := setIsLoading true st in
  let st := setError None st in
  let st := setMessages (fun _ => []) st in
  let st := set_historyLoadedRef false st in
  match loginUser login_res with
  | inl err =>
      (Some err,
       setIsLoading false (setError (Some (message_or "Login failed." err)) st),
       [PostLogin email password])
  | inr loginResponse =>
      let '(st, sent) := signed_in r (access_token loginResponse) sessions_res st in
      (None, setIsLoading false st, PostLogin email password :: sent)
  end.

(** [register(email, password)] of the provider. *)
Definition register (r : state) (email password : jsstring)
    (register_res : thrown + response UserResponse)
    (sessions_res : thrown + response (list SessionItem)) (st : state)
  : option thrown * state * list account_request :=
  let st := setIsLoading true st in
  let st := setError None st in
  let st := setMessages (fun _ => []) st in
  let st := set_historyLoadedRef false st in
  match registerUser register_res with
  | inl err =>
      (Some err,
       setIsLoading false
         (setError (Some (message_or "Registration failed." err)) st),
       [PostRegister email password])
  | inr registration =>
      let '(st, sent) :=
        signed_in r (access_token (user_token registration)) sessions_res st in
      (None, setIsLoading false st, PostRegister email password :: sent)
  end.

(** ** States used in the statements below *)

Definition greeting_session : SessionItem :=
  {| session_id := Js.lit "s1"; name := Some (Js.lit "greeting");
     token := {| access_token := Js.lit "session-token";
                 expires_at := Js.lit "2030-01-01" |} |}.

Definition greeting_log : list ChatMessage :=
  [ {| id := 0; role := user; content := Js.lit "hi" |};
    {| id := 1; role := assistant; content := [] |} ].

(** A user with one session, while the reply to a first message is being
    streamed under the cancellation handle 0. *)
Definition streaming_state : state :=
  {| messages := greeting_log; isLoading := true; error := None;
     sessions := [greeting_session]; sessionsLoading := false;
     currentSessionId := Some (Js.lit "s1");
     userToken := Some (Js.lit "user-token");
     sessionToken := Some (Js.lit "session-token");
     historyLoadedRef := true; abortRef := Some 0;
     localStorage :=
       Some (<[SESSION_ID_KEY := Js.lit "s1"]>
               (<[SESSION_TOKEN_KEY := Js.lit "session-token"]>
                  (<[USER_TOKEN_KEY := Js.lit "user-token"]> ∅)));
     uuids := 2; controllers := 1;
     trace := [Fetch (PostChatStream (Js.lit "session-token") 0) greeting_log] |}.

(** A render of a user who is logged in and has no session yet, while a
    request of an earlier send is still in flight under the handle 0. *)
Definition sessionless_state : state :=
  {| messages := greeting_log; isLoading := true; error := None;
     sessions := []; sessionsLoading := false; currentSessionId := None;
     userToken := Some (Js.lit "user-token"); sessionToken := None;
     historyLoadedRef := false; abortRef := Some 0;
     localStorage := Some (<[USER_TOKEN_KEY := Js.lit "user-token"]> ∅);
     uuids := 2; controllers := 1;
     trace := [Fetch (PostChatStream (Js.lit "old-token") 0) greeting_log] |}.

(** A backend that answers every request with success: a new session, the
    same session renamed, and a reply streamed in the given chunks. *)
Definition friendly (chunks : list (list byte)) : network :=
  {| post_session :=
       inr {| status := 200; detail := None;
              json := inr {| session_id := Js.lit "s2"; name := None;
                             token := {| access_token := Js.lit "fresh-token";
                                         expires_at := Js.lit "2030-01-01" |} |} |};
     patch_name :=
       inr {| status := 200; detail := None;
              json := inr {| session_id := Js.lit "s2";
                             name := Some (Js.lit "again");
                             token := {| access_token := Js.lit "fresh-token";
                                         expires_at := Js.lit "2030-01-01" |} |} |};
     post_stream :=
       inr {| stream_status := 200; stream_detail := None;
              stream_body := Some (chunks, end_of_data) |} |}.

(** The answer of the history endpoint with a given status and list. *)
Definition history_answer (code : N) (entries : list history_entry)
  : thrown + response (option (list history_entry)) :=
  inr {| status := code; detail := None; json := inr (Some entries) |}.

(** The session that [friendly] creates, and that session as the rename
    returns it. *)
Definition created_session : SessionItem :=
  {| session_id := Js.lit "s2"; name := None;
     token := {| access_token := Js.lit "fresh-token";
                 expires_at := Js.lit "2030-01-01" |} |}.

Definition renamed_session : SessionItem :=
  {| session_id := Js.lit "s2"; name := Some (Js.lit "again");
     token := {| access_token := Js.lit "fresh-token";
                 expires_at := Js.lit "2030-01-01" |} |}.

(** A backend that creates the session and cannot be reached for the
    rename. *)
Definition rename_fails : network :=
  {| post_session := post_session (friendly []);
     patch_name := inl (Error (Js.lit "offline"));
     post_stream := post_stream (friendly []) |}.

(** A backend whose chat endpoint cannot be reached, and one whose chat
    endpoint answers 401. *)
Definition chat_unreachable : network :=
  {| post_session := post_session (friendly []);
     patch_name := patch_name (friendly []);
     post_stream := inl (Error (Js.lit "offline")) |}.

Definition chat_expired : network :=
  {| post_session := post_session (friendly []);
     patch_name := patch_name (friendly []);
     post_stream :=
       inr {| stream_status := 401; stream_detail := None;
              stream_body := None |} |}.

(** The answer of the endpoint that lists the sessions, with a given
    status. *)
Definition sessions_answer (code : N) (items : list SessionItem)
  : thrown + response (list SessionItem) :=
  inr {| status := code; detail := None; json := inr items |}.

(** * Properties *)

(** ** The runtime on small inputs *)

Example split_on_two_dashes :
  Js.split (Js.lit "--") (Js.lit "a--b---c--")
  = [Js.lit "a"; Js.lit "b"; Js.lit "-c"; []].
Proof. reflexivity. Qed.

Example trim_both_ends :
  Js.trim (Js.lit "  a b  ") = Js.lit "a b".
Proof. reflexivity. Qed.

(** A byte order mark, a letter, U+20AC, U+1F600 and the first byte of a
    sequence that is still pending. *)
Example decode_mixed :
  snd (Utf8.decode Utf8.fresh
         [xef; xbb; xbf; x61; xe2; x82; xac; xf0; x9f; x98; x80; xc3])
  = [0x61; 0x20AC; 0xD83D; 0xDE00]%N.
Proof. reflexivity. Qed.

Example decode_malformed :
  snd (Utf8.decode Utf8.fresh [xe2; x61; xff]) = [0xFFFD; 0x61; 0xFFFD]%N.
Proof. reflexivity. Qed.

Example parse_content :
  Json.parse (text_of (content_payload "ab"))
  = Some (Json.Object [(Js.lit "content", Json.String (Js.lit "ab"))]).
Proof. reflexivity. Qed.

Example parse_done :
  Json.parse (text_of done_payload)
  = Some (Json.Object [(Js.lit "done", Json.Bool true)]).
Proof. reflexivity. Qed.

Example parse_nested :
  Json.parse (Js.lit " [1, -2.5e+3, null, {}, [true, false]] ")
  = Some (Json.Array [Json.Number (Js.lit "1"); Json.Number (Js.lit "-2.5e+3");
                      Json.Null; Json.Object [];
                      Json.Array [Json.Bool true; Json.Bool false]]).
Proof. reflexivity. Qed.

Example parse_escapes :
  Json.parse (text_of ([x22] ++ Utf8.bytes "a" ++ [x5c] ++ Utf8.bytes "n"
                       ++ [x5c] ++ Utf8.bytes "u0041" ++ [x22]))
  = Some (Json.String [97; 10; 65]%N).
Proof. reflexivity. Qed.

Example parse_rejects :
  map Json.parse
    [Js.lit "not-json"; Js.lit ""; Js.lit "01"; Js.lit "1."; Js.lit "-";
     Js.lit "[1,]"; Js.lit "{,}"; Js.lit "tru"; Js.lit "[[]] x"; Js.lit "{"]
  = repeat None 10.
Proof. reflexivity. Qed.

(** ** Splitting *)

Lemma strip_prefix_app p s r t :
  Js.strip_prefix p s = Some r -> Js.strip_prefix p (s ++ t) = Some (r ++ t).
Proof.
  revert s; induction p as [|a p IH]; intros s H; simpl in *.
  - now inversion H.
  - destruct s as [|b s]; [discriminate|]. simpl.
    destruct (a =? b)%N; [now apply IH | discriminate].
Qed.

Lemma strip_prefix_length p s r :
  Js.strip_prefix p s = Some r -> length s = length p + length r.
Proof.
  revert s; induction p as [|a p IH]; intros s H; simpl in *.
  - now inversion H.
  - destruct s as [|b s]; [discriminate|].
    destruct (a =? b)%N; [|discriminate].
    simpl. now rewrite (IH _ H).
Qed.

Lemma strip_prefix_none_app p s t :
  Js.strip_prefix p s = None -> length p <= length s ->
  Js.strip_prefix p (s ++ t) = None.
Proof.
  revert s; induction p as [|a p IH]; intros s H L; simpl in *.
  - discriminate.
  - destruct s as [|b s]; simpl in *; [lia|].
    destruct (a =? b)%N; [apply IH; [assumption | lia] | reflexivity].
Qed.

Lemma cut_at_length sep s b a :
  Js.cut_at sep s = Some (b, a) ->
  length s = length b + length sep + length a.
Proof.
  revert b a; induction s as [|c s IH]; intros b a H.
  - simpl in H. destruct (Js.strip_prefix sep []) eqn:E; [|discriminate].
    inversion H; subst. apply strip_prefix_length in E. simpl in *. lia.
  - simpl in H. destruct (Js.strip_prefix sep (c :: s)) eqn:E.
    + inversion H; subst. apply strip_prefix_length in E. simpl in *. lia.
    + destruct (Js.cut_at sep s) as [[b' a']|] eqn:E'; [|discriminate].
      inversion H; subst. specialize (IH _ _ eq_refl). simpl. lia.
Qed.

Lemma cut_at_app sep s t b a :
  Js.cut_at sep s = Some (b, a) ->
  Js.cut_at sep (s ++ t) = Some (b, a ++ t).
Proof.
  revert b a; induction s as [|c s IH]; intros b a H.
  - simpl in H. destruct (Js.strip_prefix sep []) eqn:E; [|discriminate].
    inversion H; subst. destruct sep; [|discriminate].
    simpl in E. inversion E; subst. simpl. destruct t; reflexivity.
  - simpl in H. destruct (Js.strip_prefix sep (c :: s)) eqn:E.
    + inversion H; subst.
      change ((c :: s) ++ t) with (c :: s ++ t).
      pose proof (strip_prefix_app _ _ _ t E) as E'.
      change ((c :: s) ++ t) with (c :: s ++ t) in E'.
      simpl. now rewrite E'.
    + destruct (Js.cut_at sep s) as [[b' a']|] eqn:E'; [|discriminate].
      inversion H; subst.
      pose proof (cut_at_length _ _ _ _ E') as L.
      assert (N : Js.strip_prefix sep ((c :: s) ++ t) = None)
        by (apply strip_prefix_none_app; [assumption | simpl; lia]).
      change ((c :: s) ++ t) with (c :: s ++ t) in *.
      simpl. rewrite N. now rewrite (IH _ _ eq_refl).
Qed.

Lemma cut_at_nil sep : sep <> [] -> Js.cut_at sep [] = None.
Proof.
  intros Hsep. destruct (Js.cut_at sep []) as [[b a]|] eqn:E; [|reflexivity].
  apply cut_at_length in E. destruct sep; [congruence | simpl in E; lia].
Qed.

Lemma split_fuel_enough sep n m s :
  sep <> [] -> length s <= n -> length s <= m ->
  Js.split_fuel n sep s = Js.split_fuel m sep s.
Proof.
  intros Hsep. revert m s; induction n as [|n IH]; intros m s Hn Hm.
  - destruct s; [|simpl in Hn; lia].
    destruct m; cbn [Js.split_fuel]; [reflexivity|].
    now rewrite cut_at_nil.
  - destruct m.
    + destruct s; [|simpl in Hm; lia]. cbn [Js.split_fuel].
      now rewrite cut_at_nil.
    + cbn [Js.split_fuel].
      destruct (Js.cut_at sep s) as [[b a]|] eqn:E; [|reflexivity].
      f_equal. pose proof (cut_at_length _ _ _ _ E) as L.
      destruct sep; [congruence|]. simpl in L. apply IH; lia.
Qed.

Lemma split_unfold sep s :
  sep <> [] ->
  Js.split sep s =
  match Js.cut_at sep s with
  | None => [s]
  | Some (b, a) => b :: Js.split sep a
  end.
Proof.
  intros Hsep. destruct sep as [|x sep]; [congruence|].
  unfold Js.split. destruct s as [|c s].
  - cbn [length Js.split_fuel]. now rewrite cut_at_nil.
  - cbn [length Js.split_fuel].
    destruct (Js.cut_at (x :: sep) (c :: s)) as [[b a]|] eqn:E.
    + f_equal. pose proof (cut_at_length _ _ _ _ E) as L. simpl in L.
      apply split_fuel_enough; [congruence | lia | lia].
    + reflexivity.
Qed.

Lemma split_not_nil sep s : sep <> [] -> Js.split sep s <> [].
Proof.
  intros Hsep. rewrite split_unfold by assumption.
  destruct (Js.cut_at sep s) as [[b a]|]; discriminate.
Qed.

Lemma split_app sep s t :
  sep <> [] ->
  Js.split sep (s ++ t) =
  removelast (Js.split sep s) ++ Js.split sep (List.last (Js.split sep s) [] ++ t).
Proof.
  intros Hsep. remember (length s) as n eqn:Hn.
  revert s Hn. induction n as [n IH] using lt_wf_ind. intros s Hn.
  rewrite (split_unfold sep s) by assumption.
  destruct (Js.cut_at sep s) as [[b a]|] eqn:E.
  - rewrite (split_unfold sep (s ++ t)) by assumption.
    rewrite (cut_at_app _ _ t _ _ E).
    pose proof (cut_at_length _ _ _ _ E) as L.
    assert (La : length a < n).
    { destruct sep; [congruence|]. simpl in L. lia. }
    rewrite (IH _ La a eq_refl).
    pose proof (split_not_nil sep a Hsep) as NE.
    destruct (Js.split sep a) as [|p ps] eqn:Ea; [congruence|].
    reflexivity.
  - reflexivity.
Qed.

Lemma split_last_whole sep s :
  sep <> [] ->
  Js.split sep (List.last (Js.split sep s) []) = [List.last (Js.split sep s) []].
Proof.
  intros Hsep. remember (length s) as n eqn:Hn.
  revert s Hn. induction n as [n IH] using lt_wf_ind. intros s Hn.
  rewrite (split_unfold sep s) by assumption.
  destruct (Js.cut_at sep s) as [[b a]|] eqn:E.
  - pose proof (cut_at_length _ _ _ _ E) as L.
    assert (La : length a < n).
    { destruct sep; [congruence|]. simpl in L. lia. }
    pose proof (split_not_nil sep a Hsep) as NE.
    pose proof (IH _ La a eq_refl) as IHa.
    destruct (Js.split sep a) as [|p ps] eqn:Ea; [congruence|].
    exact IHa.
  - simpl. rewrite split_unfold by assumption. now rewrite E.
Qed.

Lemma pop_last {A} (l : list A) (d : A) :
  l <> [] -> Js.pop l = (Some (List.last l d), removelast l).
Proof.
  intros NE. destruct (exists_last NE) as [l' [x ->]].
  unfold Js.pop. rewrite rev_app_distr. simpl.
  rewrite rev_involutive, last_last, removelast_last. reflexivity.
Qed.

(** ** The rounds of the JSON reader *)

Lemma skip_ws_length s : length (Json.skip_ws s) <= length s.
Proof.
  unfold Json.skip_ws. induction s as [|c s IH]; cbn; [lia|].
  destruct (Json.is_json_space c); cbn; lia.
Qed.

Lemma string_body_consumes acc s key rest :
  Json.string_body acc s = Some (key, rest) -> length rest < length s.
Proof.
  remember (length s) as n eqn:Hn. revert acc s Hn.
  induction n as [n IH] using lt_wf_ind. intros acc s Hn H.
  destruct s as [|c r]; [discriminate|]. cbn in H, Hn.
  destruct (c =? 34)%N.
  { inversion H; subst. lia. }
  destruct (c =? 92)%N.
  - destruct r as [|e r1]; [discriminate|].
    destruct (e =? 117)%N.
    + destruct r1 as [|h1 [|h2 [|h3 [|h4 r2]]]]; try discriminate.
      destruct (Json.hex4 h1 h2 h3 h4); [|discriminate].
      apply (IH (length r2)) in H; cbn in *; lia.
    + destruct (Json.simple_escape e); [|discriminate].
      apply (IH (length r1)) in H; cbn in *; lia.
  - destruct (c <? 32)%N; [discriminate|].
    apply (IH (length r)) in H; cbn in *; lia.
Qed.

Lemma span_digits_length s d r :
  Json.span_digits s = (d, r) -> length s = length d + length r.
Proof.
  revert d r; induction s as [|c s IH]; intros d r H; cbn in H.
  - inversion H. reflexivity.
  - destruct (Json.is_digit c).
    + destruct (Json.span_digits s) as [d' r'] eqn:E. inversion H; subst.
      cbn. rewrite (IH _ _ eq_refl). reflexivity.
    + inversion H. reflexivity.
Qed.

Lemma int_part_length s l r :
  Json.int_part s = Some (l, r) -> length s = length l + length r /\ l <> [].
Proof.
  unfold Json.int_part. destruct (Json.span_digits s) as [d rest] eqn:E.
  apply span_digits_length in E. destruct d as [|z more]; [discriminate|].
  destruct (z =? 48)%N; intros H; inversion H; subst;
    (split; [|discriminate]); cbn in *; rewrite ?length_app; lia.
Qed.

Lemma frac_part_length s l r :
  Json.frac_part s = Some (l, r) -> length s = length l + length r.
Proof.
  unfold Json.frac_part. destruct s as [|c s']; [intros H; now inversion H|].
  destruct (c =? 46)%N; [|intros H; now inversion H].
  destruct (Json.span_digits s') as [d rest] eqn:E.
  apply span_digits_length in E. destruct d; [discriminate|].
  intros H; inversion H; subst. cbn in *. lia.
Qed.

Lemma exp_part_length s l r :
  Json.exp_part s = Some (l, r) -> length s = length l + length r.
Proof.
  unfold Json.exp_part. destruct s as [|c s']; [intros H; now inversion H|].
  destruct ((c =? 101)%N || (c =? 69)%N); [|intros H; now inversion H].
  assert (S : forall sign r1,
             length s' = length sign + length r1 ->
             match Json.span_digits r1 with
             | ([], _) => None
             | (digits, rest) => Some (c :: sign ++ digits, rest)
             end = Some (l, r) ->
             length (c :: s') = length l + length r).
  { intros sign r1 L H.
    destruct (Json.span_digits r1) as [d rest] eqn:E.
    apply span_digits_length in E. destruct d; [discriminate|].
    inversion H; subst. cbn in *. rewrite length_app. cbn. lia. }
  destruct s' as [|g r']; [apply (S [] []); reflexivity|].
  destruct ((g =? 43)%N || (g =? 45)%N).
  - apply (S [g] r'). reflexivity.
  - apply (S [] (g :: r')). reflexivity.
Qed.

Lemma number_consumes s lexeme rest :
  Json.number s = Some (lexeme, rest) -> length rest < length s.
Proof.
  unfold Json.number.
  assert (Hsign : length s = length (fst (Json.sign_part s))
                             + length (snd (Json.sign_part s))).
  { unfold Json.sign_part. destruct s as [|c r]; [reflexivity|].
    destruct (c =? 45)%N; cbn; lia. }
  destruct (Json.sign_part s) as [sign s1]. cbn [fst snd] in Hsign.
  destruct (Json.int_part s1) as [[int s2]|] eqn:Ei; [|discriminate].
  apply int_part_length in Ei as [Li NE].
  destruct (Json.frac_part s2) as [[frac s3]|] eqn:Ef; [|discriminate].
  apply frac_part_length in Ef.
  destruct (Json.exp_part s3) as [[exp s4]|] eqn:Ee; [|discriminate].
  apply exp_part_length in Ee.
  intros H; inversion H; subst.
  destruct int; [congruence|]. cbn in *. lia.
Qed.

Lemma keyword_consumes k v s v' rest :
  k <> EmptyString ->
  Json.keyword k v s = Some (v', rest) -> length rest < length s.
Proof.
  unfold Json.keyword. intros Hk H.
  destruct (Js.strip_prefix (Js.lit k) s) as [r|] eqn:E; [|discriminate].
  inversion H; subst. apply strip_prefix_length in E.
  destruct k; [congruence|]. cbn in E. lia.
Qed.

(** Whatever a round of the reader returns, it has read at least one code
    unit. *)
Lemma element_consumes n :
  (forall s v r, Json.element n s = Some (v, r) -> length r < length s) /\
  (forall acc s v r, Json.elements n acc s = Some (v, r) -> length r < length s) /\
  (forall acc s v r, Json.members n acc s = Some (v, r) -> length r < length s).
Proof.
  induction n as [|n (IHe & IHl & IHm)]; [repeat split; discriminate|].
  split; [|split].
  - intros s v r H. cbn [Json.element] in H.
    pose proof (skip_ws_length s) as Ls.
    destruct (Json.skip_ws s) as [|c s1]; [discriminate|]. cbn [length] in Ls.
    destruct (c =? 123)%N.
    { pose proof (skip_ws_length s1) as L1.
      destruct (Json.skip_ws s1) as [|c1 s2]; [discriminate|]. cbn [length] in L1.
      destruct (c1 =? 125)%N.
      - inversion H; subst. lia.
      - apply IHm in H. cbn [length] in H. lia. }
    destruct (c =? 91)%N.
    { pose proof (skip_ws_length s1) as L1.
      destruct (Json.skip_ws s1) as [|c1 s2]; [discriminate|]. cbn [length] in L1.
      destruct (c1 =? 93)%N.
      - inversion H; subst. lia.
      - apply IHl in H. cbn [length] in H. lia. }
    destruct (c =? 34)%N.
    { destruct (Json.string_body [] s1) as [[str rest]|] eqn:E; [|discriminate].
      apply string_body_consumes in E. inversion H; subst. lia. }
    destruct (c =? 116)%N.
    { apply keyword_consumes in H; [cbn [length] in H; lia | discriminate]. }
    destruct (c =? 102)%N.
    { apply keyword_consumes in H; [cbn [length] in H; lia | discriminate]. }
    destruct (c =? 110)%N.
    { apply keyword_consumes in H; [cbn [length] in H; lia | discriminate]. }
    destruct (Json.number (c :: s1)) as [[lexeme rest]|] eqn:E; [|discriminate].
    apply number_consumes in E. inversion H; subst. cbn [length] in E. lia.
  - intros acc s v r H. cbn [Json.elements] in H.
    destruct (Json.element n s) as [[v1 r1]|] eqn:E; [|discriminate].
    apply IHe in E. pose proof (skip_ws_length r1) as L1.
    destruct (Json.skip_ws r1) as [|c r2]; [discriminate|]. cbn [length] in L1.
    destruct (c =? 44)%N.
    { apply IHl in H. lia. }
    destruct (c =? 93)%N; [|discriminate]. inversion H; subst. lia.
  - intros acc s v r H. cbn [Json.members] in H.
    pose proof (skip_ws_length s) as Ls.
    destruct (Json.skip_ws s) as [|c s1]; [discriminate|]. cbn [length] in Ls.
    destruct (c =? 34)%N; [|discriminate].
    destruct (Json.string_body [] s1) as [[key r1]|] eqn:Ek; [|discriminate].
    apply string_body_consumes in Ek. pose proof (skip_ws_length r1) as L1.
    destruct (Json.skip_ws r1) as [|c2 r2]; [discriminate|]. cbn [length] in L1.
    destruct (c2 =? 58)%N; [|discriminate].
    destruct (Json.element n r2) as [[v3 r3]|] eqn:E; [|discriminate].
    apply IHe in E. pose proof (skip_ws_length r3) as L3.
    destruct (Json.skip_ws r3) as [|c4 r4]; [discriminate|]. cbn [length] in L3.
    destruct (c4 =? 44)%N.
    { apply IHm in H. lia. }
    destruct (c4 =? 125)%N; [|discriminate]. inversion H; subst. lia.
Qed.

(** Two rounds for each code unit of the text are enough: with more, the
    reader returns the same. *)
Lemma element_fuel n :
  (forall s m, 2 * length s + 1 <= n -> 2 * length s + 1 <= m ->
               Json.element n s = Json.element m s) /\
  (forall acc s m, 2 * length s + 2 <= n -> 2 * length s + 2 <= m ->
                   Json.elements n acc s = Json.elements m acc s) /\
  (forall acc s m, 2 * length s + 2 <= n -> 2 * length s + 2 <= m ->
                   Json.members n acc s = Json.members m acc s).
Proof.
  induction n as [|n (IHe & IHl & IHm)]; [repeat split; intros; lia|].
  split; [|split].
  - intros s [|m] Hn Hm; [lia|]. cbn [Json.element].
    pose proof (skip_ws_length s) as Ls.
    destruct (Json.skip_ws s) as [|c s1]; [reflexivity|]. cbn [length] in Ls.
    pose proof (skip_ws_length s1) as L1.
    destruct (c =? 123)%N.
    { destruct (Json.skip_ws s1) as [|c1 s2]; [reflexivity|]. cbn [length] in L1.
      destruct (c1 =? 125)%N; [reflexivity|]. apply IHm; cbn [length]; lia. }
    destruct (c =? 91)%N; [|reflexivity].
    destruct (Json.skip_ws s1) as [|c1 s2]; [reflexivity|]. cbn [length] in L1.
    destruct (c1 =? 93)%N; [reflexivity|]. apply IHl; cbn [length]; lia.
  - intros acc s [|m] Hn Hm; [lia|]. cbn [Json.elements].
    rewrite <- (IHe s m) by lia.
    destruct (Json.element n s) as [[v1 r1]|] eqn:E; [|reflexivity].
    apply (proj1 (element_consumes n)) in E.
    pose proof (skip_ws_length r1) as L1.
    destruct (Json.skip_ws r1) as [|c r2]; [reflexivity|]. cbn [length] in L1.
    destruct (c =? 44)%N; [|reflexivity]. apply IHl; lia.
  - intros acc s [|m] Hn Hm; [lia|]. cbn [Json.members].
    pose proof (skip_ws_length s) as Ls.
    destruct (Json.skip_ws s) as [|c s1]; [reflexivity|]. cbn [length] in Ls.
    destruct (c =? 34)%N; [|reflexivity].
    destruct (Json.string_body [] s1) as [[key r1]|] eqn:Ek; [|reflexivity].
    apply string_body_consumes in Ek. pose proof (skip_ws_length r1) as L1.
    destruct (Json.skip_ws r1) as [|c2 r2]; [reflexivity|]. cbn [length] in L1.
    destruct (c2 =? 58)%N; [|reflexivity].
    rewrite <- (IHe r2 m) by lia.
    destruct (Json.element n r2) as [[v3 r3]|] eqn:E; [|reflexivity].
    apply (proj1 (element_consumes n)) in E.
    pose proof (skip_ws_length r3) as L3.
    destruct (Json.skip_ws r3) as [|c4 r4]; [reflexivity|]. cbn [length] in L3.
    destruct (c4 =? 44)%N; [|reflexivity]. apply IHm; lia.
Qed.

(** [Json.parse] does not depend on the number of rounds it allows itself:
    a [None] is a text that is not JSON, never a reader that gave up. *)
Lemma parse_fuel text m :
  2 * length text + 2 <= m ->
  Json.parse text =
  match Json.element m text with
  | Some (v, rest) =>
      match Json.skip_ws rest with
      | [] => Some v
      | _ :: _ => None
      end
  | None => None
  end.
Proof.
  intros Hm. unfold Json.parse.
  rewrite (proj1 (element_fuel (2 * length text + 2)) text m) by lia.
  reflexivity.
Qed.

(** ** Chunk boundaries *)

Lemma list_last_app {A} (l1 l2 : list A) (d : A) :
  l2 <> [] -> List.last (l1 ++ l2) d = List.last l2 d.
Proof.
  intros NE. destruct (exists_last NE) as [l' [x ->]].
  now rewrite app_assoc, !last_last.
Qed.

Lemma decode_app d a b :
  Utf8.decode d (a ++ b) =
  let '(d1, o1) := Utf8.decode d a in
  let '(d2, o2) := Utf8.decode d1 b in
  (d2, o1 ++ o2).
Proof.
  revert d; induction a as [|x a IH]; intros d; simpl.
  - destruct (Utf8.decode d b); reflexivity.
  - destruct (Utf8.handler d (to_N x)) as [d1 cps].
    destruct (Utf8.emit_all d1 cps) as [d2 o1].
    rewrite IH.
    destruct (Utf8.decode d2 a) as [d3 o2].
    destruct (Utf8.decode d3 b) as [d4 o3].
    now rewrite app_assoc.
Qed.

Lemma read_chunk_eq aid rd value :
  read_chunk aid rd value =
  let '(dec, text) := Utf8.decode (decoder rd) value in
  let parts := Js.split [Js.LF; Js.LF] (buffer rd ++ text) in
  {| decoder := dec;
     buffer := List.last parts [];
     now := fold_left (handle_part aid) (removelast parts) (now rd) |}.
Proof.
  unfold read_chunk. destruct (Utf8.decode (decoder rd) value) as [dec text].
  cbv zeta. rewrite (pop_last _ []) by (apply split_not_nil; discriminate).
  reflexivity.
Qed.

(** The loop gives the same result for every way of cutting the body into
    chunks: the events applied are the pieces of the whole decoded text,
    except the last piece, which stays in the buffer. *)
Lemma fold_read_chunk aid chunks rd :
  Js.split [Js.LF; Js.LF] (buffer rd) = [buffer rd] ->
  fold_left (read_chunk aid) chunks rd =
  let '(dec, text) := Utf8.decode (decoder rd) (concat chunks) in
  let parts := Js.split [Js.LF; Js.LF] (buffer rd ++ text) in
  {| decoder := dec;
     buffer := List.last parts [];
     now := fold_left (handle_part aid) (removelast parts) (now rd) |}.
Proof.
  revert rd; induction chunks as [|c cs IH]; intros rd Hbuf.
  - cbn [fold_left concat Utf8.decode]. rewrite app_nil_r, Hbuf.
    destruct rd; reflexivity.
  - cbn [fold_left concat]. rewrite IH.
    + rewrite read_chunk_eq, decode_app.
      destruct (Utf8.decode (decoder rd) c) as [d1 t1].
      cbn [decoder buffer now].
      destruct (Utf8.decode d1 (concat cs)) as [d2 t2].
      cbv zeta. rewrite app_assoc.
      rewrite (split_app [Js.LF; Js.LF] (buffer rd ++ t1) t2) by discriminate.
      set (p1 := Js.split [Js.LF; Js.LF] (buffer rd ++ t1)).
      set (p2 := Js.split [Js.LF; Js.LF] (List.last p1 [] ++ t2)).
      assert (NE : p2 <> []) by (apply split_not_nil; discriminate).
      rewrite list_last_app by assumption.
      rewrite removelast_app by assumption.
      rewrite fold_left_app. reflexivity.
    + rewrite read_chunk_eq.
      destruct (Utf8.decode (decoder rd) c) as [d1 t1].
      cbn [buffer]. apply split_last_whole. discriminate.
Qed.

Lemma read_loop_whole aid chunks st :
  read_loop aid chunks st =
  let '(dec, text) := Utf8.decode Utf8.fresh (concat chunks) in
  let parts := Js.split [Js.LF; Js.LF] text in
  {| decoder := dec;
     buffer := List.last parts [];
     now := fold_left (handle_part aid) (removelast parts) st |}.
Proof.
  unfold read_loop. rewrite fold_read_chunk by reflexivity. reflexivity.
Qed.

(** ** The read loop *)

Lemma setMessages_twice f g st :
  setMessages f (setMessages g st) = setMessages (fun l => f (g l)) st.
Proof. reflexivity. Qed.

Lemma append_content_twice aid a b l :
  append_content aid b (append_content aid a l) = append_content aid (a ++ b) l.
Proof.
  unfold append_content. rewrite map_map. apply map_ext. intros m.
  destruct (decide (id m = aid)) as [E|NE]; cbn [id].
  - rewrite decide_True by assumption. cbn. now rewrite app_assoc.
  - now rewrite decide_False by assumption.
Qed.



Lemma removelast_snoc_cons {A} (l1 : list A) x l2 y :
  removelast (l1 ++ x :: l2 ++ [y]) = l1 ++ x :: l2.
Proof.
  change (l1 ++ x :: l2 ++ [y]) with (l1 ++ (x :: l2) ++ [y]).
  rewrite app_assoc. apply removelast_last.
Qed.

Lemma read_loop_events aid chunks st :
  now (read_loop aid chunks st) =
  fold_left (handle_part aid)
    (removelast (Js.split [Js.LF; Js.LF] (text_of (concat chunks)))) st.
Proof.
  rewrite read_loop_whole. unfold text_of.
  destruct (Utf8.decode Utf8.fresh (concat chunks)); reflexivity.
Qed.

Lemma handle_line_data aid st line data :
  Js.startsWith (Js.lit "data:") line = true ->
  Json.parse (Js.trim (Js.slice_from 5 line)) = Some data ->
  handle_line aid st line = handle_data aid data st.
Proof.
  intros Hstart Hparse. unfold handle_line. rewrite Hstart. cbn [negb].
  destruct (Js.trim (Js.slice_from 5 line)) as [|c payload] eqn:E.
  - discriminate Hparse.
  - cbn [Js.nonempty negb]. now rewrite Hparse.
Qed.

Lemma get_is_object data key v :
  Json.get data key = Some v -> to_boolean (Some data) = true.
Proof. destruct data; cbn; congruence. Qed.

Lemma truthy_member_is_object data key :
  to_boolean (Json.get data key) = true -> to_boolean (Some data) = true.
Proof. destruct data; cbn; congruence. Qed.

(** C5.  A line whose payload has [done] set to [true] (or to any truthy
    value) clears the loading flag and changes nothing else, and the loop
    goes on: the lines and the events that follow it in the body are
    applied as well, up to the last complete event before the end of the
    data. *)
Theorem done_payload_keeps_reading aid st chunks before part after fragment
    lines1 line lines2 data :
  Js.split [Js.LF; Js.LF] (text_of (concat chunks))
    = before ++ part :: after ++ [fragment] ->
  Js.split [Js.LF] part = lines1 ++ line :: lines2 ->
  Js.startsWith (Js.lit "data:") line = true ->
  Json.parse (Js.trim (Js.slice_from 5 line)) = Some data ->
  to_boolean (Json.get data "done") = true ->
  (forall s, handle_line aid s line = setIsLoading false s) /\
  now (read_loop aid chunks st) =
  fold_left (handle_part aid) after
    (fold_left (handle_line aid) lines2
       (setIsLoading false
          (fold_left (handle_line aid) lines1
             (fold_left (handle_part aid) before st)))).
Proof.
  intros Hparts Hlines Hstart Hparse Hdone.
  assert (Hline : forall s, handle_line aid s line = setIsLoading false s).
  { intros s. rewrite (handle_line_data _ _ _ _ Hstart Hparse).
    unfold handle_data.
    rewrite (truthy_member_is_object _ _ Hdone), Hdone. reflexivity. }
  split; [exact Hline|].
  rewrite read_loop_events, Hparts, removelast_snoc_cons, fold_left_app.
  cbn [fold_left]. f_equal.
  unfold handle_part at 1. rewrite Hlines, fold_left_app.
  cbn [fold_left]. now rewrite Hline.
Qed.

(** C7.  A [data:] line whose remainder is not JSON leaves the whole state
    as it is (the log and the error slot included), and the loop goes on
    with the lines and events that follow: the result is that of the body
    without that line. *)
Theorem unparseable_line_is_skipped aid st chunks before part after fragment
    lines1 line lines2 :
  Js.split [Js.LF; Js.LF] (text_of (concat chunks))
    = before ++ part :: after ++ [fragment] ->
  Js.split [Js.LF] part = lines1 ++ line :: lines2 ->
  Js.startsWith (Js.lit "data:") line = true ->
  Json.parse (Js.trim (Js.slice_from 5 line)) = None ->
  (forall s, handle_line aid s line = s) /\
  now (read_loop aid chunks st) =
  fold_left (handle_part aid) after
    (fold_left (handle_line aid) lines2
       (fold_left (handle_line aid) lines1
          (fold_left (handle_part aid) before st))).
Proof.
  intros Hparts Hlines Hstart Hparse.
  assert (Hskip : forall s, handle_line aid s line = s).
  { intros s. unfold handle_line. rewrite Hstart, Hparse.
    cbn [negb]. destruct (negb _); reflexivity. }
  split; [exact Hskip|].
  rewrite read_loop_events, Hparts, removelast_snoc_cons, fold_left_app.
  cbn [fold_left]. f_equal.
  unfold handle_part at 1. rewrite Hlines, fold_left_app.
  cbn [fold_left]. now rewrite Hskip.
Qed.

Lemma append_content_lookup aid text (l : list ChatMessage) (i : nat) :
  append_content aid text l !! i =
  (fun m => if decide (id m = aid)
            then {| id := id m; role := role m; content := content m ++ text |}
            else m) <$> (l !! i).
Proof. unfold append_content. apply list_lookup_fmap. Qed.

(** C6 (amended).  A payload with a non-empty text as [content] and without
    a truthy [done] changes the log and nothing else; in the log, every
    message whose identifier is the one of the assistant message of the
    stream keeps its identifier and its role and has the text appended to
    its content, and every other message stays as it is, at its place. *)
Theorem content_payload_frame aid data text st :
  Json.get data "content" = Some (Json.String text) ->
  text <> [] ->
  to_boolean (Json.get data "done") = false ->
  handle_data aid data st = setMessages (append_content aid text) st /\
  length (messages (handle_data aid data st)) = length (messages st) /\
  forall (i : nat) (m : ChatMessage),
    messages st !! i = Some m ->
    (id m <> aid -> messages (handle_data aid data st) !! i = Some m) /\
    (id m = aid ->
     messages (handle_data aid data st) !! i =
     Some {| id := id m; role := role m; content := content m ++ text |}).
Proof.
  intros Hcontent Htext Hdone.
  assert (E : handle_data aid data st = setMessages (append_content aid text) st).
  { unfold handle_data.
    rewrite (get_is_object _ _ _ Hcontent), Hdone, Hcontent.
    destruct text; [congruence | reflexivity]. }
  rewrite E. split; [reflexivity|]. cbn [messages setMessages]. split.
  - unfold append_content. apply length_map.
  - intros i m Hm. rewrite append_content_lookup, Hm. cbn.
    split; intros H.
    + now rewrite decide_False.
    + now rewrite decide_True.
Qed.

(** C10.  When the reads end with end-of-data, the piece of the body after
    the last blank line is dropped: the state is the one that the complete
    events before it give, whatever that last piece holds. *)
Theorem trailing_fragment_is_dropped bearer aid net res chunks events fragment st :
  post_stream net = inr res ->
  stream_ok res = true ->
  stream_body res = Some (chunks, end_of_data) ->
  Js.split [Js.LF; Js.LF] (text_of (concat chunks)) = events ++ [fragment] ->
  stream_reply bearer aid net st =
  finally_stream
    (fold_left (handle_part aid) events
       (fetch (PostChatStream bearer (controllers st))
          (set_abortRef (Some (controllers st)) (snd (new_AbortController st))))).
Proof.
  intros Hnet Hok Hbody Hparts. unfold stream_reply.
  cbn [new_AbortController snd]. rewrite Hnet.
  assert (Hstatus : ((stream_status res =? 401) || (stream_status res =? 403))%N = false).
  { unfold stream_ok in Hok. apply andb_prop in Hok as [_ Hle].
    apply N.leb_le in Hle. apply orb_false_intro; apply N.eqb_neq; lia. }
  rewrite Hstatus, Hbody, Hok, read_loop_events, Hparts, removelast_last.
  reflexivity.
Qed.


(** ** Session labels *)

Lemma drop_while_snoc p l c :
  Js.drop_while p (l ++ [c]) =
  match Js.drop_while p l with
  | [] => if p c then [] else [c]
  | x :: xs => (x :: xs) ++ [c]
  end.
Proof.
  induction l as [|a l IH]; cbn.
  - reflexivity.
  - destruct (p a); [exact IH | reflexivity].
Qed.

Lemma trimEnd_cons c r :
  Js.trimEnd (c :: r) =
  match Js.trimEnd r with
  | [] => if Js.is_white_space c then [] else [c]
  | x :: xs => c :: x :: xs
  end.
Proof.
  unfold Js.trimEnd. cbn [rev]. rewrite drop_while_snoc.
  destruct (Js.drop_while Js.is_white_space (rev r)) as [|y ys] eqn:E.
  - cbn. destruct (Js.is_white_space c); reflexivity.
  - rewrite rev_app_distr. cbn [rev app].
    destruct (rev ys ++ [y]) as [|x xs] eqn:E'.
    + destruct (rev ys); discriminate.
    + reflexivity.
Qed.

Lemma trimEnd_ends_clean s : ends_clean (Js.trimEnd s) = true.
Proof.
  induction s as [|c r IH].
  - reflexivity.
  - rewrite trimEnd_cons. destruct (Js.trimEnd r) as [|x xs].
    + destruct (Js.is_white_space c) eqn:E; cbn; [reflexivity | now rewrite E].
    + exact IH.
Qed.

Lemma trimEnd_tail s :
  exists tail, s = Js.trimEnd s ++ tail /\ forallb Js.is_white_space tail = true.
Proof.
  induction s as [|c r [tail [E W]]].
  - exists []. split; reflexivity.
  - rewrite trimEnd_cons. destruct (Js.trimEnd r) as [|x xs].
    + destruct (Js.is_white_space c) eqn:Ec.
      * exists (c :: tail). cbn in E. subst r. cbn. now rewrite Ec.
      * exists tail. cbn in E. now subst r.
    + exists tail. split; [|assumption]. cbn [app] in *. now f_equal.
Qed.

Lemma trimStart_head s :
  exists head, s = head ++ Js.trimStart s /\ forallb Js.is_white_space head = true.
Proof.
  induction s as [|c r [head [E W]]].
  - exists []. split; reflexivity.
  - unfold Js.trimStart. cbn. destruct (Js.is_white_space c) eqn:Ec.
    + exists (c :: head). cbn. rewrite Ec. split; [now f_equal | assumption].
    + exists []. split; reflexivity.
Qed.

Lemma trimStart_clean s : starts_with_space (Js.trimStart s) = false.
Proof.
  induction s as [|c r IH]; [reflexivity|].
  unfold Js.trimStart. cbn. destruct (Js.is_white_space c) eqn:Ec.
  - exact IH.
  - cbn. exact Ec.
Qed.

Lemma trimEnd_keeps_start s :
  starts_with_space s = false -> starts_with_space (Js.trimEnd s) = false.
Proof.
  destruct s as [|c r]; [reflexivity|]. cbn [starts_with_space]. intros Hc.
  rewrite trimEnd_cons.
  destruct (Js.trimEnd r); [rewrite Hc|]; cbn [starts_with_space]; exact Hc.
Qed.

Lemma words_white head s :
  forallb Js.is_white_space head = true -> words (head ++ s) = words s.
Proof.
  induction head as [|c head IH]; [reflexivity|].
  cbn. intros H. apply andb_prop in H as [Hc H]. rewrite Hc. now apply IH.
Qed.

Lemma words_all_white s : forallb Js.is_white_space s = true -> words s = [].
Proof. intros H. rewrite <- (app_nil_r s). now rewrite words_white. Qed.

Lemma words_white_tail s tail :
  forallb Js.is_white_space tail = true -> words (s ++ tail) = words s.
Proof.
  intros H. induction s as [|c r IH].
  - now apply words_all_white.
  - destruct r as [|c' r'].
    + cbn [app words]. destruct (Js.is_white_space c); [now apply words_all_white|].
      destruct tail as [|t tail']; [reflexivity|].
      cbn in H. apply andb_prop in H as [Ht H]. rewrite Ht.
      rewrite (words_all_white (t :: tail')); [reflexivity|].
      cbn. now rewrite Ht.
    + change ((c :: c' :: r') ++ tail) with (c :: c' :: (r' ++ tail)).
      change (c' :: (r' ++ tail)) with ((c' :: r') ++ tail) in *.
      cbn [words] in *. cbn [app] in IH |- *.
      destruct (Js.is_white_space c); [exact IH|].
      destruct (Js.is_white_space c'); now rewrite IH.
Qed.

Lemma words_trim s : words (Js.trim s) = words s.
Proof.
  unfold Js.trim.
  destruct (trimStart_head s) as [head [E1 W1]].
  destruct (trimEnd_tail (Js.trimStart s)) as [tail [E2 W2]].
  rewrite E1 at 2. rewrite words_white by assumption.
  rewrite E2 at 2. now rewrite words_white_tail.
Qed.

Lemma words_not_nil s : ends_clean s = true -> s <> [] -> words s <> [].
Proof.
  induction s as [|c r IH]; [congruence|]. intros Hc _.
  cbn [words]. destruct (Js.is_white_space c) eqn:Ec.
  - destruct r as [|c' r']; [cbn in Hc; now rewrite Ec in Hc|].
    apply IH; [exact Hc | discriminate].
  - destruct r as [|c' r']; [discriminate|].
    destruct (Js.is_white_space c'); [discriminate|].
    destruct (words (c' :: r')); discriminate.
Qed.

Lemma join_cons_word c w ws :
  Js.join [Js.SPACE] ((c :: w) :: ws) = c :: Js.join [Js.SPACE] (w :: ws).
Proof. destruct ws; reflexivity. Qed.

Lemma ends_clean_tail c r : ends_clean (c :: r) = true -> ends_clean r = true.
Proof. destruct r; [reflexivity | now cbn]. Qed.

Lemma replace_ws_runs_words s :
  ends_clean s = true ->
  Js.replace_ws_runs true s = Js.join [Js.SPACE] (words s) /\
  Js.replace_ws_runs false s =
  (if starts_with_space s then [Js.SPACE] else []) ++ Js.join [Js.SPACE] (words s).
Proof.
  induction s as [|c r IH]; [split; reflexivity|]. intros Hc.
  destruct (IH (ends_clean_tail _ _ Hc)) as [IHt IHf].
  cbn [Js.replace_ws_runs words starts_with_space].
  destruct (Js.is_white_space c) eqn:Ec.
  - split; [exact IHt | now rewrite IHt].
  - assert (E : c :: Js.replace_ws_runs false r =
                Js.join [Js.SPACE]
                  match r with
                  | [] => [[c]]
                  | c' :: _ =>
                      if Js.is_white_space c' then [c] :: words r
                      else match words r with
                           | w :: ws => (c :: w) :: ws
                           | [] => [[c]]
                           end
                  end).
    { destruct r as [|c' r']; [reflexivity|].
      rewrite IHf. cbn [starts_with_space].
      destruct (Js.is_white_space c') eqn:Ec'.
      - pose proof (words_not_nil (c' :: r') (ends_clean_tail _ _ Hc)) as NE.
        destruct (words (c' :: r')) as [|w ws]; [now contradiction NE|].
        reflexivity.
      - destruct (words (c' :: r')) as [|w ws]; [reflexivity|].
        now rewrite join_cons_word. }
    split; exact E.
Qed.

Lemma collapse_trim_words s :
  Js.collapse_white_space (Js.trim s) = Js.join [Js.SPACE] (words s).
Proof.
  unfold Js.collapse_white_space.
  destruct (replace_ws_runs_words (Js.trim s)) as [_ E].
  - apply trimEnd_ends_clean.
  - rewrite E, words_trim.
    unfold Js.trim. rewrite trimEnd_keeps_start by apply trimStart_clean.
    reflexivity.
Qed.

Lemma words_solid s :
  forallb (fun c => negb (Js.is_white_space c)) s = true ->
  words s = match s with [] => [] | _ :: _ => [s] end.
Proof.
  induction s as [|c r IH]; [reflexivity|].
  cbn [forallb words]. intros H. apply andb_prop in H as [Hc H].
  apply negb_true_iff in Hc. rewrite Hc, (IH H).
  destruct r as [|c' r']; [reflexivity|].
  cbn in H. apply andb_prop in H as [Hc' _].
  apply negb_true_iff in Hc'. now rewrite Hc'.
Qed.

Lemma trimEnd_solid s :
  forallb (fun c => negb (Js.is_white_space c)) s = true -> Js.trimEnd s = s.
Proof.
  induction s as [|c r IH]; [reflexivity|].
  cbn [forallb]. intros H. apply andb_prop in H as [Hc H].
  apply negb_true_iff in Hc. rewrite trimEnd_cons, (IH H), Hc.
  destruct r; reflexivity.
Qed.

Lemma forallb_firstn {A} (p : A -> bool) n (l : list A) :
  forallb p l = true -> forallb p (firstn n l) = true.
Proof.
  revert l; induction n as [|n IH]; intros [|x l]; cbn; try reflexivity.
  intros H. apply andb_prop in H as [Hx H]. now rewrite Hx, IH.
Qed.



(** ** The fields that the setters leave alone *)

Lemma trace_setMessages f st : trace (setMessages f st) = trace st.
Proof. reflexivity. Qed.

Lemma messages_setMessages f st : messages (setMessages f st) = f (messages st).
Proof. reflexivity. Qed.

Lemma abortRef_setMessages f st : abortRef (setMessages f st) = abortRef st.
Proof. reflexivity. Qed.

Lemma controllers_setMessages f st : controllers (setMessages f st) = controllers st.
Proof. reflexivity. Qed.

Lemma trace_setIsLoading b st : trace (setIsLoading b st) = trace st.
Proof. reflexivity. Qed.

Lemma messages_setIsLoading b st : messages (setIsLoading b st) = messages st.
Proof. reflexivity. Qed.

Lemma abortRef_setIsLoading b st : abortRef (setIsLoading b st) = abortRef st.
Proof. reflexivity. Qed.

Lemma controllers_setIsLoading b st : controllers (setIsLoading b st) = controllers st.
Proof. reflexivity. Qed.

Lemma messages_setError e st : messages (setError e st) = messages st.
Proof. reflexivity. Qed.

Lemma abortRef_setError e st : abortRef (setError e st) = abortRef st.
Proof. reflexivity. Qed.

Lemma controllers_setError e st : controllers (setError e st) = controllers st.
Proof. reflexivity. Qed.

Lemma trace_setSessions f st : trace (setSessions f st) = trace st.
Proof. reflexivity. Qed.

Lemma messages_setSessions f st : messages (setSessions f st) = messages st.
Proof. reflexivity. Qed.

Lemma abortRef_setSessions f st : abortRef (setSessions f st) = abortRef st.
Proof. reflexivity. Qed.

Lemma controllers_setSessions f st : controllers (setSessions f st) = controllers st.
Proof. reflexivity. Qed.

Lemma trace_setSessionsLoading b st : trace (setSessionsLoading b st) = trace st.
Proof. reflexivity. Qed.

Lemma messages_setSessionsLoading b st : messages (setSessionsLoading b st) = messages st.
Proof. reflexivity. Qed.

Lemma abortRef_setSessionsLoading b st : abortRef (setSessionsLoading b st) = abortRef st.
Proof. reflexivity. Qed.

Lemma controllers_setSessionsLoading b st : controllers (setSessionsLoading b st) = controllers st.
Proof. reflexivity. Qed.

Lemma trace_setCurrentSessionId i st : trace (setCurrentSessionId i st) = trace st.
Proof. reflexivity. Qed.

Lemma messages_setCurrentSessionId i st : messages (setCurrentSessionId i st) = messages st.
Proof. reflexivity. Qed.

Lemma abortRef_setCurrentSessionId i st : abortRef (setCurrentSessionId i st) = abortRef st.
Proof. reflexivity. Qed.

Lemma controllers_setCurrentSessionId i st : controllers (setCurrentSessionId i st) = controllers st.
Proof. reflexivity. Qed.

Lemma trace_setUserToken t st : trace (setUserToken t st) = trace st.
Proof. reflexivity. Qed.

Lemma messages_setUserToken t st : messages (setUserToken t st) = messages st.
Proof. reflexivity. Qed.

Lemma abortRef_setUserToken t st : abortRef (setUserToken t st) = abortRef st.
Proof. reflexivity. Qed.

Lemma controllers_setUserToken t st : controllers (setUserToken t st) = controllers st.
Proof. reflexivity. Qed.

Lemma trace_setSessionToken t st : trace (setSessionToken t st) = trace st.
Proof. reflexivity. Qed.

Lemma messages_setSessionToken t st : messages (setSessionToken t st) = messages st.
Proof. reflexivity. Qed.

Lemma abortRef_setSessionToken t st : abortRef (setSessionToken t st) = abortRef st.
Proof. reflexivity. Qed.

Lemma controllers_setSessionToken t st : controllers (setSessionToken t st) = controllers st.
Proof. reflexivity. Qed.

Lemma trace_set_historyLoadedRef b st : trace (set_historyLoadedRef b st) = trace st.
Proof. reflexivity. Qed.

Lemma messages_set_historyLoadedRef b st : messages (set_historyLoadedRef b st) = messages st.
Proof. reflexivity. Qed.

Lemma abortRef_set_historyLoadedRef b st : abortRef (set_historyLoadedRef b st) = abortRef st.
Proof. reflexivity. Qed.

Lemma controllers_set_historyLoadedRef b st : controllers (set_historyLoadedRef b st) = controllers st.
Proof. reflexivity. Qed.

Lemma trace_set_abortRef c st : trace (set_abortRef c st) = trace st.
Proof. reflexivity. Qed.

Lemma messages_set_abortRef c st : messages (set_abortRef c st) = messages st.
Proof. reflexivity. Qed.

Lemma abortRef_set_abortRef c st : abortRef (set_abortRef c st) = c.
Proof. reflexivity. Qed.

Lemma controllers_set_abortRef c st : controllers (set_abortRef c st) = controllers st.
Proof. reflexivity. Qed.

Lemma trace_set_localStorage m st : trace (set_localStorage m st) = trace st.
Proof. reflexivity. Qed.

Lemma messages_set_localStorage m st : messages (set_localStorage m st) = messages st.
Proof. reflexivity. Qed.

Lemma abortRef_set_localStorage m st : abortRef (set_localStorage m st) = abortRef st.
Proof. reflexivity. Qed.

Lemma controllers_set_localStorage m st : controllers (set_localStorage m st) = controllers st.
Proof. reflexivity. Qed.

Lemma trace_perform e st : trace (perform e st) = trace st ++ [e].
Proof. reflexivity. Qed.

Lemma messages_perform e st : messages (perform e st) = messages st.
Proof. reflexivity. Qed.

Lemma abortRef_perform e st : abortRef (perform e st) = abortRef st.
Proof. reflexivity. Qed.

Lemma controllers_perform e st : controllers (perform e st) = controllers st.
Proof. reflexivity. Qed.

Lemma trace_setError e st : trace (setError e st) = trace st.
Proof. reflexivity. Qed.

Create Rewrite HintDb frame.

#[local] Hint Rewrite
  trace_setMessages messages_setMessages abortRef_setMessages
  controllers_setMessages trace_setIsLoading messages_setIsLoading
  abortRef_setIsLoading controllers_setIsLoading messages_setError
  abortRef_setError controllers_setError trace_setSessions
  messages_setSessions abortRef_setSessions controllers_setSessions
  trace_setSessionsLoading messages_setSessionsLoading abortRef_setSessionsLoading
  controllers_setSessionsLoading trace_setCurrentSessionId messages_setCurrentSessionId
  abortRef_setCurrentSessionId controllers_setCurrentSessionId trace_setUserToken
  messages_setUserToken abortRef_setUserToken controllers_setUserToken
  trace_setSessionToken messages_setSessionToken abortRef_setSessionToken
  controllers_setSessionToken trace_set_historyLoadedRef messages_set_historyLoadedRef
  abortRef_set_historyLoadedRef controllers_set_historyLoadedRef trace_set_abortRef
  messages_set_abortRef abortRef_set_abortRef controllers_set_abortRef
  trace_set_localStorage messages_set_localStorage abortRef_set_localStorage
  controllers_set_localStorage trace_perform messages_perform
  abortRef_perform controllers_perform trace_setError
  : frame.

(** ** History *)

Lemma with_fresh_ids_fst entries st :
  fst (with_fresh_ids entries st) =
  imap (fun i e => {| id := uuids st + i; role := h_role e;
                       content := h_content e |}) entries.
Proof.
  revert st; induction entries as [|e es IH]; intros st; [reflexivity|].
  cbn [with_fresh_ids uuidv4].
  match goal with
  | |- context [with_fresh_ids es ?s] =>
      specialize (IH s); destruct (with_fresh_ids es s) as [ms st2]
  end.
  cbn [fst] in *. rewrite IH. cbn [imap uuids]. f_equal.
  - now rewrite Nat.add_0_r.
  - apply imap_ext. intros i x _. cbn. f_equal. lia.
Qed.

Lemma keys_distinct :
  USER_TOKEN_KEY <> SESSION_TOKEN_KEY /\ USER_TOKEN_KEY <> SESSION_ID_KEY /\
  SESSION_TOKEN_KEY <> SESSION_ID_KEY.
Proof. repeat split; intros H; vm_compute in H; discriminate H. Qed.

Lemma stop_localStorage st : localStorage (stop st) = localStorage st.
Proof. unfold stop. destruct (abortRef st); reflexivity. Qed.

Lemma clearStoredTokens_getItem st key :
  key = USER_TOKEN_KEY \/ key = SESSION_TOKEN_KEY \/ key = SESSION_ID_KEY ->
  getItem key (clearStoredTokens st) = None.
Proof.
  destruct keys_distinct as (N1 & N2 & N3).
  intros Hkey. unfold getItem, clearStoredTokens.
  destruct (localStorage st) as [m|] eqn:E.
  - cbn [localStorage set_localStorage].
    destruct Hkey as [-> | [-> | ->]].
    + rewrite lookup_delete_ne, lookup_delete_ne by congruence.
      apply lookup_delete_eq.
    + rewrite lookup_delete_ne by congruence. apply lookup_delete_eq.
    + apply lookup_delete_eq.
  - now rewrite E.
Qed.

Lemma logout_getItem st key :
  key = USER_TOKEN_KEY \/ key = SESSION_TOKEN_KEY \/ key = SESSION_ID_KEY ->
  getItem key (logout st) = None.
Proof.
  intros Hkey. rewrite <- (clearStoredTokens_getItem (stop st) key Hkey).
  reflexivity.
Qed.

Lemma getItem_setError key e st : getItem key (setError e st) = getItem key st.
Proof. reflexivity. Qed.


Lemma with_fresh_ids_uuids entries st :
  uuids (snd (with_fresh_ids entries st)) = uuids st + length entries.
Proof.
  revert st; induction entries as [|e es IH]; intros st; cbn [with_fresh_ids].
  - cbn. lia.
  - cbn [uuidv4].
    match goal with
    | |- context [with_fresh_ids es ?s] =>
        specialize (IH s); destruct (with_fresh_ids es s) as [ms st2]
    end.
    cbn [snd uuids length] in *. lia.
Qed.

(** C3 (amended).  When the history request is answered with success and
    the list of the answer is not empty, the log becomes that list, in the
    order of the answer, each entry under the next identifier drawn from
    the generator, and nothing of the former log is kept; when the list is
    empty or missing, the log stays as it was. *)
Theorem loaded_history_replaces_log r resp data st :
  truthy (sessionToken r) = true ->
  historyLoadedRef st = false ->
  ok resp = true ->
  json resp = inr data ->
  let st' := loadHistory r (inr resp) st in
  match data with
  | Some (e :: es) =>
      messages st' =
      imap (fun i x => {| id := uuids st + i; role := h_role x;
                           content := h_content x |}) (e :: es) /\
      uuids st' = uuids st + length (e :: es)
  | _ => messages st' = messages st
  end.
Proof.
  intros Htok Hloaded Hok Hjson st'. subst st'. unfold loadHistory.
  destruct (sessionToken r) as [bearer|]; [|discriminate].
  cbn [truthy] in Htok. rewrite Htok, Hloaded. cbn [negb orb].
  assert (Hstatus : ((status resp =? 401) || (status resp =? 403))%N = false).
  { unfold ok in Hok. apply andb_prop in Hok as [_ Hle].
    apply N.leb_le in Hle. apply orb_false_intro; apply N.eqb_neq; lia. }
  rewrite Hstatus, Hok, Hjson. cbn [negb].
  destruct data as [[|e es]|]; try reflexivity.
  match goal with
  | |- context [with_fresh_ids (e :: es) ?s] =>
      pose proof (with_fresh_ids_fst (e :: es) s) as Hfst;
      pose proof (with_fresh_ids_uuids (e :: es) s) as Hsnd;
      destruct (with_fresh_ids (e :: es) s) as [loaded st2]
  end.
  cbn [fst snd] in Hfst, Hsnd. split; [exact Hfst | exact Hsnd].
Qed.

(** ** Effects *)

Lemma handle_data_trace aid data st : trace (handle_data aid data st) = trace st.
Proof.
  unfold handle_data.
  destruct (to_boolean (Some data)); [|reflexivity]. cbn [negb].
  destruct (to_boolean (Json.get data "done")); [reflexivity|].
  destruct (Json.get data "content") as [c|]; [|reflexivity].
  destruct (to_boolean (Some c)); reflexivity.
Qed.

Lemma handle_line_trace aid st line : trace (handle_line aid st line) = trace st.
Proof.
  unfold handle_line.
  destruct (negb _); [reflexivity|].
  destruct (negb _); [reflexivity|].
  destruct (Json.parse _); [apply handle_data_trace | reflexivity].
Qed.

Lemma fold_left_trace {A} (f : state -> A -> state) (l : list A) st :
  (forall s x, trace (f s x) = trace s) ->
  trace (fold_left f l st) = trace st.
Proof.
  intros Hf. revert st; induction l as [|x l IH]; intros st; [reflexivity|].
  cbn [fold_left]. now rewrite IH, Hf.
Qed.

Lemma read_loop_trace aid chunks st :
  trace (now (read_loop aid chunks st)) = trace st.
Proof.
  rewrite read_loop_events. apply fold_left_trace. intros s part.
  apply fold_left_trace. apply handle_line_trace.
Qed.

Lemma stop_trace st :
  trace (stop st) =
  trace st ++ match abortRef st with Some c => [Abort c] | None => [] end.
Proof.
  unfold stop. destruct (abortRef st); cbn; [reflexivity | now rewrite app_nil_r].
Qed.

Lemma clearStoredTokens_trace st : trace (clearStoredTokens st) = trace st.
Proof. unfold clearStoredTokens. destruct (localStorage st); reflexivity. Qed.

Lemma logout_trace st : trace (logout st) = trace (stop st).
Proof.
  unfold logout.
  cbn [set_historyLoadedRef setError setMessages setCurrentSessionId
       setSessions setUserToken setSessionToken trace].
  apply clearStoredTokens_trace.
Qed.

Lemma storeSessionToken_frame tok i st :
  trace (storeSessionToken tok i st) = trace st /\
  messages (storeSessionToken tok i st) = messages st /\
  controllers (storeSessionToken tok i st) = controllers st /\
  abortRef (storeSessionToken tok i st) = abortRef st.
Proof.
  unfold storeSessionToken. destruct (localStorage st); [|auto].
  destruct i as [i|]; [destruct (Js.nonempty i)|]; auto.
Qed.

Lemma catch_stream_trace err st : trace (catch_stream err st) = trace st.
Proof. unfold catch_stream. destruct (decide _); reflexivity. Qed.

Lemma finally_stream_trace st : trace (finally_stream st) = trace st.
Proof. reflexivity. Qed.

Lemma fetch_trace req st :
  trace (fetch req st) = trace st ++ [Fetch req (messages st)].
Proof. reflexivity. Qed.

Lemma fetch_abortRef req st : abortRef (fetch req st) = abortRef st.
Proof. reflexivity. Qed.

(** The requests and aborts of the reply to one message: the chat request
    under a new handle, and the abort of that handle when the answer is
    401 or 403. *)
Lemma stream_reply_trace bearer aid net st :
  exists tail,
    trace (stream_reply bearer aid net st) =
    trace st ++ Fetch (PostChatStream bearer (controllers st)) (messages st) :: tail /\
    (tail = [] \/ tail = [Abort (controllers st)]).
Proof.
  unfold stream_reply.
  destruct (new_AbortController st) as [ctl st1] eqn:Enew.
  assert (Hctl : ctl = controllers st) by (inversion Enew; reflexivity).
  assert (Htrace : trace st1 = trace st) by (inversion Enew; reflexivity).
  assert (Hlog : messages st1 = messages st) by (inversion Enew; reflexivity).
  clear Enew. subst ctl.
  set (st2 := fetch _ _).
  assert (H2 : trace st2 =
               trace st ++ [Fetch (PostChatStream bearer (controllers st)) (messages st)]).
  { subst st2. rewrite fetch_trace. cbn [set_abortRef trace messages].
    now rewrite Htrace, Hlog. }
  assert (A2 : abortRef st2 = Some (controllers st)) by reflexivity.
  clearbody st2.
  destruct (post_stream net) as [err|res].
  - exists []. split; [|now left].
    now rewrite finally_stream_trace, catch_stream_trace.
  - destruct ((stream_status res =? 401) || (stream_status res =? 403))%N.
    + exists [Abort (controllers st)]. split; [|now right].
      rewrite finally_stream_trace, trace_setError, logout_trace, stop_trace.
      rewrite A2, H2, <- app_assoc. reflexivity.
    + destruct (stream_body res) as [[chunks last_read]|].
      * destruct (stream_ok res).
        -- exists []. split; [|now left].
           destruct last_read as [|err];
             now rewrite finally_stream_trace, ?catch_stream_trace,
               read_loop_trace.
        -- exists []. split; [|now left].
           now rewrite finally_stream_trace, catch_stream_trace.
      * exists []. split; [|now left].
        now rewrite finally_stream_trace, catch_stream_trace.
Qed.

(** [renameSession] sends at most one request and leaves the log and the
    cancellation handle alone. *)
Lemma renameSession_frame session new_name updateList net st :
  let st' := snd (renameSession session new_name updateList net st) in
  messages st' = messages st /\ abortRef st' = abortRef st /\
  controllers st' = controllers st /\
  exists evs, trace st' = trace st ++ evs /\
              Forall (session_request (messages st)) evs.
Proof.
  unfold renameSession.
  destruct (negb (Js.nonempty (Js.trim new_name))).
  - cbn [snd]. repeat (split; [reflexivity|]).
    exists []. split; [now rewrite app_nil_r | constructor].
  - set (req := PatchSessionName _ _ _).
    assert (S : Forall (session_request (messages st)) [Fetch req (messages st)]).
    { constructor; [|constructor]. exists req. now split. }
    assert (F : forall e,
               let st' := setError e (fetch req st) in
               messages st' = messages st /\ abortRef st' = abortRef st /\
               controllers st' = controllers st /\
               exists evs, trace st' = trace st ++ evs /\
                           Forall (session_request (messages st)) evs).
    { intros e. cbv zeta. repeat (split; [reflexivity|]).
      eexists. split; [reflexivity | exact S]. }
    destruct (patch_name net) as [err|res]; [apply F|].
    destruct (negb (ok res)); [apply F|].
    destruct (json res) as [err|updated]; [apply F|].
    destruct updateList; cbn [snd]; repeat (split; [reflexivity|]);
      (eexists; split; [reflexivity | exact S]).
Qed.

Lemma selectSession_frame session st :
  let st' := selectSession session true st in
  messages st' = messages st /\ controllers st' = controllers st /\
  trace st' = trace st ++ aborts_of (abortRef st).
Proof.
  unfold selectSession. cbn [negb].
  autorewrite with frame.
  match goal with
  | |- context [storeSessionToken ?t ?i ?s] =>
      destruct (storeSessionToken_frame t i s) as (Ht & Hm & Hc & _)
  end.
  rewrite Ht, Hm, Hc. autorewrite with frame.
  unfold stop. destruct (abortRef st); autorewrite with frame.
  - repeat split; reflexivity.
  - repeat split; try reflexivity. now rewrite app_nil_r.
Qed.

Lemma createSession_trace r new_name net st :
  let res := createSession r new_name true net st in
  messages (snd res) = messages st /\
  controllers (snd res) = controllers st /\
  (truthy (userToken r) = true ->
   exists pre,
     pre <> [] /\ Forall (session_request (messages st)) pre /\
     trace (snd res) =
     trace st ++ pre ++
     match fst res with
     | Some _ => aborts_of (abortRef st)
     | None => []
     end).
Proof.
  unfold createSession. destruct (userToken r) as [bearer|].
  2:{ cbn [fst snd truthy]. repeat (split; [reflexivity|]). discriminate. }
  cbn [truthy]. destruct (Js.nonempty bearer).
  2:{ cbn [fst snd negb]. repeat (split; [reflexivity|]). discriminate. }
  cbn [negb].
  set (st0 := fetch (PostSession bearer) (setError None (setIsLoading true st))).
  assert (S : Forall (session_request (messages st))
                [Fetch (PostSession bearer) (messages st)]).
  { constructor; [|constructor]. eexists. now split. }
  assert (F : forall err,
             let res := (@None SessionItem,
                         setIsLoading false (setError err st0)) in
             messages (snd res) = messages st /\
             controllers (snd res) = controllers st /\
             (true = true ->
              exists pre,
                pre <> [] /\ Forall (session_request (messages st)) pre /\
                trace (snd res) = trace st ++ pre ++ [])).
  { intros err. cbv zeta. cbn [fst snd]. repeat (split; [reflexivity|]).
    intros _. eexists. split; [|split; [exact S | reflexivity]]. discriminate. }
  destruct (post_session net) as [err|res]; [apply F|].
  destruct (negb (ok res)); [apply F|].
  destruct (json res) as [err|session]; [apply F|].
  clear F.
  assert (R : exists renamed st1,
             (if truthy new_name
              then renameSession session (default [] new_name) false net st0
              else (None, st0)) = (renamed, st1) /\
             messages st1 = messages st /\ abortRef st1 = abortRef st /\
             controllers st1 = controllers st /\
             exists evs, trace st1 = trace st0 ++ evs /\
                         Forall (session_request (messages st)) evs).
  { destruct (truthy new_name).
    - pose proof (renameSession_frame session (default [] new_name) false net st0)
        as (Hm & Ha & Hc & Hevs).
      destruct (renameSession session (default [] new_name) false net st0)
        as [renamed st1].
      exists renamed, st1. cbn [snd] in *. repeat split; assumption.
    - exists None, st0. repeat (split; [reflexivity|]).
      exists []. split; [now rewrite app_nil_r | constructor]. }
  destruct R as (renamed & st1 & -> & Hm & Ha & Hc & evs & Ht & Hevs).
  cbn [fst snd].
  pose proof (selectSession_frame (default session renamed)
                (setSessions (fun prev => default session renamed :: prev) st1))
    as (Sm & Sc & St).
  autorewrite with frame in Sm, Sc, St |- *.
  rewrite Sm, Sc, St, Hm, Hc, Ha, Ht.
  repeat (split; [reflexivity|]). intros _.
  exists (Fetch (PostSession bearer) (messages st) :: evs).
  split; [discriminate|]. split.
  - constructor; [|exact Hevs]. eexists. now split.
  - unfold st0. rewrite fetch_trace. autorewrite with frame.
    now rewrite <- !app_assoc.
Qed.

(** The effects of a message that passes the checks of [sendMessage]:
    requests about sessions, all sent with the two new messages in the log,
    then the chat request under a new handle. *)
Lemma sendMessage_events r text net st :
  truthy (userToken r) = true ->
  Js.trim text <> [] ->
  length (Js.trim text) <= 3000 ->
  let log :=
    messages st ++
    [ {| id := uuids st; role := user; content := Js.trim text |};
      {| id := S (uuids st); role := assistant; content := [] |} ] in
  let final := sendMessage r text net st in
  (truthy (sessionToken r) = true /\
   exists pre tail,
     Forall (session_request log) pre /\
     trace final =
     trace st ++ pre ++
     Fetch (PostChatStream (default [] (sessionToken r)) (controllers st)) log
     :: tail /\
     (tail = [] \/ tail = [Abort (controllers st)]))
  \/
  (truthy (sessionToken r) = false /\
   exists pre,
     pre <> [] /\ Forall (session_request log) pre /\
     ((exists aborts,
         trace final = trace st ++ pre ++ aborts /\
         (aborts = [] \/ aborts = aborts_of (abortRef st)))
      \/
      (exists bearer tail,
         trace final =
         trace st ++ pre ++ aborts_of (abortRef st) ++
         Fetch (PostChatStream bearer (controllers st)) log :: tail /\
         (tail = [] \/ tail = [Abort (controllers st)])))).
Proof.
  intros Huser Htext Hlen log final. subst final. unfold sendMessage.
  rewrite Huser. cbn [negb].
  destruct (Js.trim text) as [|c0 trimmed0] eqn:Etrim; [congruence|].
  cbn [Js.nonempty negb]. set (trimmed := c0 :: trimmed0) in *.
  replace (3000 <? length trimmed) with false
    by (symmetry; apply Nat.ltb_ge; exact Hlen).
  cbn [uuidv4].
  set (st1 := setMessages _ _).
  assert (M1 : messages st1 = log) by reflexivity.
  assert (T1 : trace st1 = trace st) by reflexivity.
  assert (A1 : abortRef st1 = abortRef st) by reflexivity.
  assert (C1 : controllers st1 = controllers st) by reflexivity.
  clearbody st1.
  destruct (truthy (sessionToken r)) eqn:Hsession; cbn [negb].
  - left. split; [reflexivity|].
    match goal with
    | |- context [stream_reply _ _ _ ?s] => set (st2 := s)
    end.
    assert (R : messages st2 = log /\ controllers st2 = controllers st /\
                exists evs, trace st2 = trace st ++ evs /\
                            Forall (session_request log) evs).
    { assert (Same : messages st1 = log /\ controllers st1 = controllers st /\
                     exists evs, trace st1 = trace st ++ evs /\
                                 Forall (session_request log) evs).
      { repeat (split; [assumption|]). exists [].
        split; [now rewrite app_nil_r | constructor]. }
      subst st2. destruct (truthy (currentSessionId r)); [|exact Same].
      destruct (find _ (sessions r)) as [currentSession|]; [|exact Same].
      destruct (unnamed currentSession); [|exact Same].
      pose proof (renameSession_frame currentSession
                    (deriveSessionName trimmed) true net st1)
        as (Hm & _ & Hc & evs & Ht & Hevs).
      cbv zeta in *. rewrite Hm, Hc, Ht, M1, T1, C1.
      repeat (split; [reflexivity|]). exists evs. split; [reflexivity|].
      now rewrite <- M1. }
    clearbody st2. destruct R as (M2 & C2 & pre & T2 & Hpre).
    match goal with
    | |- context [stream_reply ?b ?a net st2] =>
        destruct (stream_reply_trace b a net st2) as (tail & Ht & Htail)
    end.
    rewrite C2 in Htail.
    exists pre, tail. split; [exact Hpre|]. rewrite Ht, T2, M2, C2.
    split; [now rewrite <- app_assoc | exact Htail].
  - right. split; [reflexivity|].
    pose proof (createSession_trace r (Some (deriveSessionName trimmed)) net st1)
      as (Hm & Hc & Hpre).
    destruct (createSession r (Some (deriveSessionName trimmed)) true net st1)
      as [session st2].
    cbv zeta in *. cbn [fst snd] in *.
    destruct (Hpre Huser) as (pre & NE & Spre & Ht). clear Hpre.
    rewrite M1 in *. exists pre. split; [exact NE|]. split; [exact Spre|].
    destruct session as [s|].
    + destruct (Js.nonempty (access_token (token s))).
      * right.
        match goal with
        | |- context [stream_reply ?b ?a net st2] =>
            destruct (stream_reply_trace b a net st2) as (tail & Hs & Htail)
        end.
        rewrite Hc, C1 in Htail.
        exists (access_token (token s)), tail. split; [|exact Htail].
        rewrite Hs, Ht, Hm, Hc, T1, A1, C1. now rewrite <- !app_assoc.
      * left. exists (aborts_of (abortRef st)).
        autorewrite with frame. rewrite Ht, T1, A1. now (split; [|right]).
    + left. exists []. autorewrite with frame. rewrite Ht, T1.
      now (split; [|left]).
Qed.

Lemma session_requests_log log pre :
  Forall (session_request log) pre -> Forall (log_at_request log) pre.
Proof.
  intros H. eapply List.Forall_impl; [|exact H].
  intros e (req & -> & _). reflexivity.
Qed.

Lemma session_requests_no_abort log pre c :
  Forall (session_request log) pre -> ~ In (Abort c) pre.
Proof.
  intros H Hin. rewrite List.Forall_forall in H.
  destruct (H _ Hin) as (req & E & _). discriminate E.
Qed.

Lemma session_requests_no_chat log pre bearer ctl l :
  Forall (session_request log) pre ->
  ~ In (Fetch (PostChatStream bearer ctl) l) pre.
Proof.
  intros H Hin. rewrite List.Forall_forall in H.
  destruct (H _ Hin) as (req & E & Hreq). inversion E; subst. discriminate Hreq.
Qed.

Lemma aborts_log log aborts c :
  aborts = [] \/ aborts = [Abort c] -> Forall (log_at_request log) aborts.
Proof. intros [-> | ->]; repeat constructor. Qed.



(** * Further properties *)

(** ** The other fields that the setters leave alone *)

Lemma isLoading_setMessages f st : isLoading (setMessages f st) = isLoading st.
Proof. reflexivity. Qed.

Lemma error_setMessages f st : error (setMessages f st) = error st.
Proof. reflexivity. Qed.

Lemma sessions_setMessages f st : sessions (setMessages f st) = sessions st.
Proof. reflexivity. Qed.

Lemma sessionsLoading_setMessages f st : sessionsLoading (setMessages f st) = sessionsLoading st.
Proof. reflexivity. Qed.

Lemma currentSessionId_setMessages f st : currentSessionId (setMessages f st) = currentSessionId st.
Proof. reflexivity. Qed.

Lemma userToken_setMessages f st : userToken (setMessages f st) = userToken st.
Proof. reflexivity. Qed.

Lemma sessionToken_setMessages f st : sessionToken (setMessages f st) = sessionToken st.
Proof. reflexivity. Qed.

Lemma historyLoadedRef_setMessages f st : historyLoadedRef (setMessages f st) = historyLoadedRef st.
Proof. reflexivity. Qed.

Lemma localStorage_setMessages f st : localStorage (setMessages f st) = localStorage st.
Proof. reflexivity. Qed.

Lemma uuids_setMessages f st : uuids (setMessages f st) = uuids st.
Proof. reflexivity. Qed.

Lemma isLoading_setIsLoading b st : isLoading (setIsLoading b st) = b.
Proof. reflexivity. Qed.

Lemma error_setIsLoading b st : error (setIsLoading b st) = error st.
Proof. reflexivity. Qed.

Lemma sessions_setIsLoading b st : sessions (setIsLoading b st) = sessions st.
Proof. reflexivity. Qed.

Lemma sessionsLoading_setIsLoading b st : sessionsLoading (setIsLoading b st) = sessionsLoading st.
Proof. reflexivity. Qed.

Lemma currentSessionId_setIsLoading b st : currentSessionId (setIsLoading b st) = currentSessionId st.
Proof. reflexivity. Qed.

Lemma userToken_setIsLoading b st : userToken (setIsLoading b st) = userToken st.
Proof. reflexivity. Qed.

Lemma sessionToken_setIsLoading b st : sessionToken (setIsLoading b st) = sessionToken st.
Proof. reflexivity. Qed.

Lemma historyLoadedRef_setIsLoading b st : historyLoadedRef (setIsLoading b st) = historyLoadedRef st.
Proof. reflexivity. Qed.

Lemma localStorage_setIsLoading b st : localStorage (setIsLoading b st) = localStorage st.
Proof. reflexivity. Qed.

Lemma uuids_setIsLoading b st : uuids (setIsLoading b st) = uuids st.
Proof. reflexivity. Qed.

Lemma isLoading_setError e st : isLoading (setError e st) = isLoading st.
Proof. reflexivity. Qed.

Lemma error_setError e st : error (setError e st) = e.
Proof. reflexivity. Qed.

Lemma sessions_setError e st : sessions (setError e st) = sessions st.
Proof. reflexivity. Qed.

Lemma sessionsLoading_setError e st : sessionsLoading (setError e st) = sessionsLoading st.
Proof. reflexivity. Qed.

Lemma currentSessionId_setError e st : currentSessionId (setError e st) = currentSessionId st.
Proof. reflexivity. Qed.

Lemma userToken_setError e st : userToken (setError e st) = userToken st.
Proof. reflexivity. Qed.

Lemma sessionToken_setError e st : sessionToken (setError e st) = sessionToken st.
Proof. reflexivity. Qed.

Lemma historyLoadedRef_setError e st : historyLoadedRef (setError e st) = historyLoadedRef st.
Proof. reflexivity. Qed.

Lemma localStorage_setError e st : localStorage (setError e st) = localStorage st.
Proof. reflexivity. Qed.

Lemma uuids_setError e st : uuids (setError e st) = uuids st.
Proof. reflexivity. Qed.

Lemma isLoading_setSessions f st : isLoading (setSessions f st) = isLoading st.
Proof. reflexivity. Qed.

Lemma error_setSessions f st : error (setSessions f st) = error st.
Proof. reflexivity. Qed.

Lemma sessions_setSessions f st : sessions (setSessions f st) = f (sessions st).
Proof. reflexivity. Qed.

Lemma sessionsLoading_setSessions f st : sessionsLoading (setSessions f st) = sessionsLoading st.
Proof. reflexivity. Qed.

Lemma currentSessionId_setSessions f st : currentSessionId (setSessions f st) = currentSessionId st.
Proof. reflexivity. Qed.

Lemma userToken_setSessions f st : userToken (setSessions f st) = userToken st.
Proof. reflexivity. Qed.

Lemma sessionToken_setSessions f st : sessionToken (setSessions f st) = sessionToken st.
Proof. reflexivity. Qed.

Lemma historyLoadedRef_setSessions f st : historyLoadedRef (setSessions f st) = historyLoadedRef st.
Proof. reflexivity. Qed.

Lemma localStorage_setSessions f st : localStorage (setSessions f st) = localStorage st.
Proof. reflexivity. Qed.

Lemma uuids_setSessions f st : uuids (setSessions f st) = uuids st.
Proof. reflexivity. Qed.

Lemma isLoading_setSessionsLoading b st : isLoading (setSessionsLoading b st) = isLoading st.
Proof. reflexivity. Qed.

Lemma error_setSessionsLoading b st : error (setSessionsLoading b st) = error st.
Proof. reflexivity. Qed.

Lemma sessions_setSessionsLoading b st : sessions (setSessionsLoading b st) = sessions st.
Proof. reflexivity. Qed.

Lemma sessionsLoading_setSessionsLoading b st : sessionsLoading (setSessionsLoading b st) = b.
Proof. reflexivity. Qed.

Lemma currentSessionId_setSessionsLoading b st : currentSessionId (setSessionsLoading b st) = currentSessionId st.
Proof. reflexivity. Qed.

Lemma userToken_setSessionsLoading b st : userToken (setSessionsLoading b st) = userToken st.
Proof. reflexivity. Qed.

Lemma sessionToken_setSessionsLoading b st : sessionToken (setSessionsLoading b st) = sessionToken st.
Proof. reflexivity. Qed.

Lemma historyLoadedRef_setSessionsLoading b st : historyLoadedRef (setSessionsLoading b st) = historyLoadedRef st.
Proof. reflexivity. Qed.

Lemma localStorage_setSessionsLoading b st : localStorage (setSessionsLoading b st) = localStorage st.
Proof. reflexivity. Qed.

Lemma uuids_setSessionsLoading b st : uuids (setSessionsLoading b st) = uuids st.
Proof. reflexivity. Qed.

Lemma isLoading_setCurrentSessionId i st : isLoading (setCurrentSessionId i st) = isLoading st.
Proof. reflexivity. Qed.

Lemma error_setCurrentSessionId i st : error (setCurrentSessionId i st) = error st.
Proof. reflexivity. Qed.

Lemma sessions_setCurrentSessionId i st : sessions (setCurrentSessionId i st) = sessions st.
Proof. reflexivity. Qed.

Lemma sessionsLoading_setCurrentSessionId i st : sessionsLoading (setCurrentSessionId i st) = sessionsLoading st.
Proof. reflexivity. Qed.

Lemma currentSessionId_setCurrentSessionId i st : currentSessionId (setCurrentSessionId i st) = i.
Proof. reflexivity. Qed.

Lemma userToken_setCurrentSessionId i st : userToken (setCurrentSessionId i st) = userToken st.
Proof. reflexivity. Qed.

Lemma sessionToken_setCurrentSessionId i st : sessionToken (setCurrentSessionId i st) = sessionToken st.
Proof. reflexivity. Qed.

Lemma historyLoadedRef_setCurrentSessionId i st : historyLoadedRef (setCurrentSessionId i st) = historyLoadedRef st.
Proof. reflexivity. Qed.

Lemma localStorage_setCurrentSessionId i st : localStorage (setCurrentSessionId i st) = localStorage st.
Proof. reflexivity. Qed.

Lemma uuids_setCurrentSessionId i st : uuids (setCurrentSessionId i st) = uuids st.
Proof. reflexivity. Qed.

Lemma isLoading_setUserToken t st : isLoading (setUserToken t st) = isLoading st.
Proof. reflexivity. Qed.

Lemma error_setUserToken t st : error (setUserToken t st) = error st.
Proof. reflexivity. Qed.

Lemma sessions_setUserToken t st : sessions (setUserToken t st) = sessions st.
Proof. reflexivity. Qed.

Lemma sessionsLoading_setUserToken t st : sessionsLoading (setUserToken t st) = sessionsLoading st.
Proof. reflexivity. Qed.

Lemma currentSessionId_setUserToken t st : currentSessionId (setUserToken t st) = currentSessionId st.
Proof. reflexivity. Qed.

Lemma userToken_setUserToken t st : userToken (setUserToken t st) = t.
Proof. reflexivity. Qed.

Lemma sessionToken_setUserToken t st : sessionToken (setUserToken t st) = sessionToken st.
Proof. reflexivity. Qed.

Lemma historyLoadedRef_setUserToken t st : historyLoadedRef (setUserToken t st) = historyLoadedRef st.
Proof. reflexivity. Qed.

Lemma localStorage_setUserToken t st : localStorage (setUserToken t st) = localStorage st.
Proof. reflexivity. Qed.

Lemma uuids_setUserToken t st : uuids (setUserToken t st) = uuids st.
Proof. reflexivity. Qed.

Lemma isLoading_setSessionToken t st : isLoading (setSessionToken t st) = isLoading st.
Proof. reflexivity. Qed.

Lemma error_setSessionToken t st : error (setSessionToken t st) = error st.
Proof. reflexivity. Qed.

Lemma sessions_setSessionToken t st : sessions (setSessionToken t st) = sessions st.
Proof. reflexivity. Qed.

Lemma sessionsLoading_setSessionToken t st : sessionsLoading (setSessionToken t st) = sessionsLoading st.
Proof. reflexivity. Qed.

Lemma currentSessionId_setSessionToken t st : currentSessionId (setSessionToken t st) = currentSessionId st.
Proof. reflexivity. Qed.

Lemma userToken_setSessionToken t st : userToken (setSessionToken t st) = userToken st.
Proof. reflexivity. Qed.

Lemma sessionToken_setSessionToken t st : sessionToken (setSessionToken t st) = t.
Proof. reflexivity. Qed.

Lemma historyLoadedRef_setSessionToken t st : historyLoadedRef (setSessionToken t st) = historyLoadedRef st.
Proof. reflexivity. Qed.

Lemma localStorage_setSessionToken t st : localStorage (setSessionToken t st) = localStorage st.
Proof. reflexivity. Qed.

Lemma uuids_setSessionToken t st : uuids (setSessionToken t st) = uuids st.
Proof. reflexivity. Qed.

Lemma isLoading_set_historyLoadedRef b st : isLoading (set_historyLoadedRef b st) = isLoading st.
Proof. reflexivity. Qed.

Lemma error_set_historyLoadedRef b st : error (set_historyLoadedRef b st) = error st.
Proof. reflexivity. Qed.

Lemma sessions_set_historyLoadedRef b st : sessions (set_historyLoadedRef b st) = sessions st.
Proof. reflexivity. Qed.

Lemma sessionsLoading_set_historyLoadedRef b st : sessionsLoading (set_historyLoadedRef b st) = sessionsLoading st.
Proof. reflexivity. Qed.

Lemma currentSessionId_set_historyLoadedRef b st : currentSessionId (set_historyLoadedRef b st) = currentSessionId st.
Proof. reflexivity. Qed.

Lemma userToken_set_historyLoadedRef b st : userToken (set_historyLoadedRef b st) = userToken st.
Proof. reflexivity. Qed.

Lemma sessionToken_set_historyLoadedRef b st : sessionToken (set_historyLoadedRef b st) = sessionToken st.
Proof. reflexivity. Qed.

Lemma historyLoadedRef_set_historyLoadedRef b st : historyLoadedRef (set_historyLoadedRef b st) = b.
Proof. reflexivity. Qed.

Lemma localStorage_set_historyLoadedRef b st : localStorage (set_historyLoadedRef b st) = localStorage st.
Proof. reflexivity. Qed.

Lemma uuids_set_historyLoadedRef b st : uuids (set_historyLoadedRef b st) = uuids st.
Proof. reflexivity. Qed.

Lemma isLoading_set_abortRef c st : isLoading (set_abortRef c st) = isLoading st.
Proof. reflexivity. Qed.

Lemma error_set_abortRef c st : error (set_abortRef c st) = error st.
Proof. reflexivity. Qed.

Lemma sessions_set_abortRef c st : sessions (set_abortRef c st) = sessions st.
Proof. reflexivity. Qed.

Lemma sessionsLoading_set_abortRef c st : sessionsLoading (set_abortRef c st) = sessionsLoading st.
Proof. reflexivity. Qed.

Lemma currentSessionId_set_abortRef c st : currentSessionId (set_abortRef c st) = currentSessionId st.
Proof. reflexivity. Qed.

Lemma userToken_set_abortRef c st : userToken (set_abortRef c st) = userToken st.
Proof. reflexivity. Qed.

Lemma sessionToken_set_abortRef c st : sessionToken (set_abortRef c st) = sessionToken st.
Proof. reflexivity. Qed.

Lemma historyLoadedRef_set_abortRef c st : historyLoadedRef (set_abortRef c st) = historyLoadedRef st.
Proof. reflexivity. Qed.

Lemma localStorage_set_abortRef c st : localStorage (set_abortRef c st) = localStorage st.
Proof. reflexivity. Qed.

Lemma uuids_set_abortRef c st : uuids (set_abortRef c st) = uuids st.
Proof. reflexivity. Qed.

Lemma isLoading_set_localStorage m st : isLoading (set_localStorage m st) = isLoading st.
Proof. reflexivity. Qed.

Lemma error_set_localStorage m st : error (set_localStorage m st) = error st.
Proof. reflexivity. Qed.

Lemma sessions_set_localStorage m st : sessions (set_localStorage m st) = sessions st.
Proof. reflexivity. Qed.

Lemma sessionsLoading_set_localStorage m st : sessionsLoading (set_localStorage m st) = sessionsLoading st.
Proof. reflexivity. Qed.

Lemma currentSessionId_set_localStorage m st : currentSessionId (set_localStorage m st) = currentSessionId st.
Proof. reflexivity. Qed.

Lemma userToken_set_localStorage m st : userToken (set_localStorage m st) = userToken st.
Proof. reflexivity. Qed.

Lemma sessionToken_set_localStorage m st : sessionToken (set_localStorage m st) = sessionToken st.
Proof. reflexivity. Qed.

Lemma historyLoadedRef_set_localStorage m st : historyLoadedRef (set_localStorage m st) = historyLoadedRef st.
Proof. reflexivity. Qed.

Lemma localStorage_set_localStorage m st : localStorage (set_localStorage m st) = m.
Proof. reflexivity. Qed.

Lemma uuids_set_localStorage m st : uuids (set_localStorage m st) = uuids st.
Proof. reflexivity. Qed.

Lemma isLoading_perform e st : isLoading (perform e st) = isLoading st.
Proof. reflexivity. Qed.

Lemma error_perform e st : error (perform e st) = error st.
Proof. reflexivity. Qed.

Lemma sessions_perform e st : sessions (perform e st) = sessions st.
Proof. reflexivity. Qed.

Lemma sessionsLoading_perform e st : sessionsLoading (perform e st) = sessionsLoading st.
Proof. reflexivity. Qed.

Lemma currentSessionId_perform e st : currentSessionId (perform e st) = currentSessionId st.
Proof. reflexivity. Qed.

Lemma userToken_perform e st : userToken (perform e st) = userToken st.
Proof. reflexivity. Qed.

Lemma sessionToken_perform e st : sessionToken (perform e st) = sessionToken st.
Proof. reflexivity. Qed.

Lemma historyLoadedRef_perform e st : historyLoadedRef (perform e st) = historyLoadedRef st.
Proof. reflexivity. Qed.

Lemma localStorage_perform e st : localStorage (perform e st) = localStorage st.
Proof. reflexivity. Qed.

Lemma uuids_perform e st : uuids (perform e st) = uuids st.
Proof. reflexivity. Qed.

Create Rewrite HintDb fields.

#[local] Hint Rewrite
  isLoading_setMessages error_setMessages sessions_setMessages
  sessionsLoading_setMessages currentSessionId_setMessages userToken_setMessages
  sessionToken_setMessages historyLoadedRef_setMessages localStorage_setMessages
  uuids_setMessages isLoading_setIsLoading error_setIsLoading
  sessions_setIsLoading sessionsLoading_setIsLoading currentSessionId_setIsLoading
  userToken_setIsLoading sessionToken_setIsLoading historyLoadedRef_setIsLoading
  localStorage_setIsLoading uuids_setIsLoading isLoading_setError
  error_setError sessions_setError sessionsLoading_setError
  currentSessionId_setError userToken_setError sessionToken_setError
  historyLoadedRef_setError localStorage_setError uuids_setError
  isLoading_setSessions error_setSessions sessions_setSessions
  sessionsLoading_setSessions currentSessionId_setSessions userToken_setSessions
  sessionToken_setSessions historyLoadedRef_setSessions localStorage_setSessions
  uuids_setSessions isLoading_setSessionsLoading error_setSessionsLoading
  sessions_setSessionsLoading sessionsLoading_setSessionsLoading currentSessionId_setSessionsLoading
  userToken_setSessionsLoading sessionToken_setSessionsLoading historyLoadedRef_setSessionsLoading
  localStorage_setSessionsLoading uuids_setSessionsLoading isLoading_setCurrentSessionId
  error_setCurrentSessionId sessions_setCurrentSessionId sessionsLoading_setCurrentSessionId
  currentSessionId_setCurrentSessionId userToken_setCurrentSessionId sessionToken_setCurrentSessionId
  historyLoadedRef_setCurrentSessionId localStorage_setCurrentSessionId uuids_setCurrentSessionId
  isLoading_setUserToken error_setUserToken sessions_setUserToken
  sessionsLoading_setUserToken currentSessionId_setUserToken userToken_setUserToken
  sessionToken_setUserToken historyLoadedRef_setUserToken localStorage_setUserToken
  uuids_setUserToken isLoading_setSessionToken error_setSessionToken
  sessions_setSessionToken sessionsLoading_setSessionToken currentSessionId_setSessionToken
  userToken_setSessionToken sessionToken_setSessionToken historyLoadedRef_setSessionToken
  localStorage_setSessionToken uuids_setSessionToken isLoading_set_historyLoadedRef
  error_set_historyLoadedRef sessions_set_historyLoadedRef sessionsLoading_set_historyLoadedRef
  currentSessionId_set_historyLoadedRef userToken_set_historyLoadedRef sessionToken_set_historyLoadedRef
  historyLoadedRef_set_historyLoadedRef localStorage_set_historyLoadedRef uuids_set_historyLoadedRef
  isLoading_set_abortRef error_set_abortRef sessions_set_abortRef
  sessionsLoading_set_abortRef currentSessionId_set_abortRef userToken_set_abortRef
  sessionToken_set_abortRef historyLoadedRef_set_abortRef localStorage_set_abortRef
  uuids_set_abortRef isLoading_set_localStorage error_set_localStorage
  sessions_set_localStorage sessionsLoading_set_localStorage currentSessionId_set_localStorage
  userToken_set_localStorage sessionToken_set_localStorage historyLoadedRef_set_localStorage
  localStorage_set_localStorage uuids_set_localStorage isLoading_perform
  error_perform sessions_perform sessionsLoading_perform
  currentSessionId_perform userToken_perform sessionToken_perform
  historyLoadedRef_perform localStorage_perform uuids_perform
  : fields.

(** ** The token store *)

Lemma getItem_insert_eq key v m st :
  getItem key (set_localStorage (Some (<[key := v]> m)) st) = Some v.
Proof. unfold getItem. cbn [localStorage set_localStorage]. apply lookup_insert_eq. Qed.

Lemma getItem_insert_ne key key' v m st :
  key' <> key ->
  getItem key (set_localStorage (Some (<[key' := v]> m)) st) = m !! key.
Proof.
  intros NE. unfold getItem. cbn [localStorage set_localStorage].
  now apply lookup_insert_ne.
Qed.

Lemma stored_tokens tok sid st :
  match localStorage st with
  | Some _ =>
      getStoredSessionToken (storeSessionToken tok sid st) = Some tok /\
      getStoredUserToken (storeSessionToken tok sid st) = getStoredUserToken st /\
      getItem SESSION_ID_KEY (storeSessionToken tok sid st)
      = (if truthy sid then sid else getItem SESSION_ID_KEY st) /\
      getStoredUserToken (storeUserToken tok st) = Some tok /\
      getStoredSessionToken (storeUserToken tok st) = getStoredSessionToken st
  | None =>
      storeSessionToken tok sid st = st /\ storeUserToken tok st = st /\
      getStoredSessionToken st = None /\ getStoredUserToken st = None
  end.
Proof.
  destruct keys_distinct as (N1 & N2 & N3).
  unfold getStoredSessionToken, getStoredUserToken, storeSessionToken,
    storeUserToken.
  destruct (localStorage st) as [m|] eqn:E.
  2:{ unfold getItem. rewrite E. repeat split. }
  assert (G : forall key, getItem key st = m !! key).
  { intros key. unfold getItem. now rewrite E. }
  split; [|split; [|split; [|split]]].
  - destruct sid as [i|]; [destruct (Js.nonempty i)|].
    + rewrite getItem_insert_ne by congruence. apply lookup_insert_eq.
    + apply getItem_insert_eq.
    + apply getItem_insert_eq.
  - rewrite G. destruct sid as [i|]; [destruct (Js.nonempty i)|].
    + rewrite getItem_insert_ne by congruence. now apply lookup_insert_ne.
    + rewrite getItem_insert_ne by congruence. reflexivity.
    + rewrite getItem_insert_ne by congruence. reflexivity.
  - rewrite G. destruct sid as [i|]; cbn [truthy]; [destruct (Js.nonempty i)|].
    + apply getItem_insert_eq.
    + rewrite getItem_insert_ne by congruence. reflexivity.
    + rewrite getItem_insert_ne by congruence. reflexivity.
  - apply getItem_insert_eq.
  - rewrite G. rewrite getItem_insert_ne by congruence. reflexivity.
Qed.

(** X1.  With a store, the session token and the user token that are
    stored are the ones read back, storing one leaves the other alone, and
    the session identifier is stored when it is given and not empty;
    without a store, storing changes nothing and every read gives nothing. *)
Theorem token_store_round_trip tok sid st :
  match localStorage st with
  | Some _ =>
      getStoredSessionToken (storeSessionToken tok sid st) = Some tok /\
      getStoredUserToken (storeSessionToken tok sid st) = getStoredUserToken st /\
      getItem SESSION_ID_KEY (storeSessionToken tok sid st)
      = (if truthy sid then sid else getItem SESSION_ID_KEY st) /\
      getStoredUserToken (storeUserToken tok st) = Some tok /\
      getStoredSessionToken (storeUserToken tok st) = getStoredSessionToken st
  | None =>
      storeSessionToken tok sid st = st /\ storeUserToken tok st = st /\
      getStoredSessionToken st = None /\ getStoredUserToken st = None
  end.
Proof. exact (stored_tokens tok sid st). Qed.

Lemma clear_clear (k1 k2 k3 : list N) (m : gmap (list N) (list N)) :
  delete k3 (delete k2 (delete k1 (delete k3 (delete k2 (delete k1 m)))))
  = delete k3 (delete k2 (delete k1 m)).
Proof.
  apply map_eq. intros i. rewrite !lookup_delete.
  repeat case_decide; reflexivity.
Qed.

(** X2.  Clearing the stored tokens removes the three keys of the token
    store and leaves every other key of the store as it was. *)
Theorem clearStoredTokens_only_its_keys key st :
  getItem key (clearStoredTokens st) =
  if decide (key = USER_TOKEN_KEY \/ key = SESSION_TOKEN_KEY \/ key = SESSION_ID_KEY)
  then None else getItem key st.
Proof.
  destruct (decide _) as [Hkey | Hkey].
  - now apply clearStoredTokens_getItem.
  - unfold getItem, clearStoredTokens.
    destruct (localStorage st) as [m|] eqn:E; [|now rewrite E].
    cbn [localStorage set_localStorage].
    rewrite !lookup_delete_ne; [reflexivity | | |]; intros Heq; subst key; tauto.
Qed.

(** ** Stopping and logging out *)

Lemma stop_cleared st : abortRef (stop st) = None /\ isLoading (stop st) = false.
Proof.
  unfold stop. destruct (abortRef st) as [c|] eqn:E; [split; reflexivity|].
  rewrite abortRef_setIsLoading, E. split; reflexivity.
Qed.

(** X3.  [stop] aborts the handle kept in [abortRef], once: a second [stop]
    changes nothing more. *)
Theorem stop_idempotent st :
  stop (stop st) = stop st /\
  abortRef (stop st) = None /\ isLoading (stop st) = false /\
  trace (stop (stop st)) = trace st ++ aborts_of (abortRef st).
Proof.
  unfold stop. destruct (abortRef st) as [c|] eqn:E.
  - cbn [abortRef set_abortRef perform]. repeat split.
  - rewrite abortRef_setIsLoading, E. repeat split. cbn. now rewrite app_nil_r.
Qed.

Lemma state_ext (a b : state) :
  messages a = messages b -> isLoading a = isLoading b -> error a = error b ->
  sessions a = sessions b -> sessionsLoading a = sessionsLoading b ->
  currentSessionId a = currentSessionId b -> userToken a = userToken b ->
  sessionToken a = sessionToken b -> historyLoadedRef a = historyLoadedRef b ->
  abortRef a = abortRef b -> localStorage a = localStorage b ->
  uuids a = uuids b -> controllers a = controllers b -> trace a = trace b ->
  a = b.
Proof. destruct a, b; cbn; intros; subst; reflexivity. Qed.

Lemma stop_fields st :
  messages (stop st) = messages st /\ error (stop st) = error st /\
  sessions (stop st) = sessions st /\
  sessionsLoading (stop st) = sessionsLoading st /\
  currentSessionId (stop st) = currentSessionId st /\
  userToken (stop st) = userToken st /\ sessionToken (stop st) = sessionToken st /\
  historyLoadedRef (stop st) = historyLoadedRef st /\
  uuids (stop st) = uuids st /\ controllers (stop st) = controllers st.
Proof. unfold stop. destruct (abortRef st); repeat split. Qed.

Lemma clearStoredTokens_fields st :
  sessionsLoading (clearStoredTokens st) = sessionsLoading st /\
  isLoading (clearStoredTokens st) = isLoading st /\
  abortRef (clearStoredTokens st) = abortRef st /\
  uuids (clearStoredTokens st) = uuids st /\
  controllers (clearStoredTokens st) = controllers st.
Proof. unfold clearStoredTokens. destruct (localStorage st); repeat split. Qed.

Lemma clearStoredTokens_twice st :
  localStorage (clearStoredTokens (clearStoredTokens st))
  = localStorage (clearStoredTokens st).
Proof.
  unfold clearStoredTokens. destruct (localStorage st) as [m|] eqn:E.
  - rewrite localStorage_set_localStorage. rewrite localStorage_set_localStorage.
    now rewrite clear_clear.
  - now rewrite E.
Qed.

Lemma clearStoredTokens_storage a b :
  localStorage a = localStorage b ->
  localStorage (clearStoredTokens a) = localStorage (clearStoredTokens b).
Proof.
  intros E. unfold clearStoredTokens. rewrite E.
  destruct (localStorage b) eqn:Eb; autorewrite with fields;
    [reflexivity | congruence].
Qed.

(** What [logout] leaves in each field. *)
Lemma logout_fields st :
  messages (logout st) = [] /\ isLoading (logout st) = false /\
  error (logout st) = None /\ sessions (logout st) = [] /\
  sessionsLoading (logout st) = sessionsLoading st /\
  currentSessionId (logout st) = None /\ userToken (logout st) = None /\
  sessionToken (logout st) = None /\ historyLoadedRef (logout st) = false /\
  abortRef (logout st) = None /\
  localStorage (logout st) = localStorage (clearStoredTokens st) /\
  uuids (logout st) = uuids st /\ controllers (logout st) = controllers st /\
  trace (logout st) = trace st ++ aborts_of (abortRef st).
Proof.
  destruct (stop_fields st) as (_ & _ & _ & S1 & _ & _ & _ & _ & S2 & S3).
  destruct (clearStoredTokens_fields (stop st)) as (C1 & C2 & C3 & C4 & C5).
  destruct (stop_cleared st) as (A & L).
  rewrite logout_trace, stop_trace.
  unfold logout. autorewrite with frame fields.
  rewrite C1, C2, C3, C4, C5, S1, S2, S3, A, L.
  do 10 (split; [reflexivity|]).
  split; [|repeat split].
  unfold clearStoredTokens. rewrite stop_localStorage.
  destruct (localStorage st) eqn:E; autorewrite with fields;
    [reflexivity | now rewrite stop_localStorage].
Qed.

(** X4.  Logging out twice is the same as logging out once. *)
Theorem logout_idempotent st : logout (logout st) = logout st.
Proof.
  pose proof (logout_fields (logout st)) as H.
  pose proof (logout_fields st) as H0.
  destruct H as (H1 & H2 & H3 & H4 & H5 & H6 & H7 & H8 & H9 & H10 & H11 & H12 & H13 & H14).
  destruct H0 as (G1 & G2 & G3 & G4 & G5 & G6 & G7 & G8 & G9 & G10 & G11 & G12 & G13 & G14).
  apply state_ext; try congruence.
  - rewrite H11, G11.
    rewrite (clearStoredTokens_storage _ _ G11).
    apply clearStoredTokens_twice.
  - rewrite H14, G10. cbn. now rewrite app_nil_r.
Qed.

Lemma storeSessionToken_fields tok i st :
  messages (storeSessionToken tok i st) = messages st /\
  isLoading (storeSessionToken tok i st) = isLoading st /\
  error (storeSessionToken tok i st) = error st /\
  sessions (storeSessionToken tok i st) = sessions st /\
  sessionsLoading (storeSessionToken tok i st) = sessionsLoading st /\
  currentSessionId (storeSessionToken tok i st) = currentSessionId st /\
  userToken (storeSessionToken tok i st) = userToken st /\
  sessionToken (storeSessionToken tok i st) = sessionToken st /\
  historyLoadedRef (storeSessionToken tok i st) = historyLoadedRef st /\
  abortRef (storeSessionToken tok i st) = abortRef st /\
  uuids (storeSessionToken tok i st) = uuids st /\
  controllers (storeSessionToken tok i st) = controllers st /\
  trace (storeSessionToken tok i st) = trace st.
Proof.
  unfold storeSessionToken. destruct (localStorage st); [|repeat split].
  destruct i as [i|]; [destruct (Js.nonempty i)|]; repeat split.
Qed.

Lemma storeUserToken_fields tok st :
  messages (storeUserToken tok st) = messages st /\
  isLoading (storeUserToken tok st) = isLoading st /\
  error (storeUserToken tok st) = error st /\
  sessions (storeUserToken tok st) = sessions st /\
  sessionsLoading (storeUserToken tok st) = sessionsLoading st /\
  currentSessionId (storeUserToken tok st) = currentSessionId st /\
  userToken (storeUserToken tok st) = userToken st /\
  sessionToken (storeUserToken tok st) = sessionToken st /\
  historyLoadedRef (storeUserToken tok st) = historyLoadedRef st /\
  abortRef (storeUserToken tok st) = abortRef st /\
  uuids (storeUserToken tok st) = uuids st /\
  controllers (storeUserToken tok st) = controllers st /\
  trace (storeUserToken tok st) = trace st.
Proof. unfold storeUserToken. destruct (localStorage st); repeat split. Qed.

(** What [selectSession] leaves in each field but the store. *)
Lemma selectSession_fields session p st :
  let st' := selectSession session p st in
  messages st' = (if p then messages st else []) /\
  isLoading st' = false /\ error st' = error st /\
  sessions st' = sessions st /\ sessionsLoading st' = sessionsLoading st /\
  currentSessionId st' = Some (session_id session) /\
  userToken st' = userToken st /\
  sessionToken st' = Some (access_token (token session)) /\
  historyLoadedRef st' = false /\ abortRef st' = None /\
  uuids st' = uuids st /\ controllers st' = controllers st /\
  trace st' = trace st ++ aborts_of (abortRef st) /\
  localStorage st' =
  localStorage (storeSessionToken (access_token (token session))
                  (Some (session_id session)) st).
Proof.
  cbv zeta. unfold selectSession.
  set (tok := access_token (token session)). set (sid := session_id session).
  set (s1 := setSessionToken (Some tok) (setCurrentSessionId (Some sid) (stop st))).
  destruct (storeSessionToken_fields tok (Some sid) s1)
    as (F1 & F2 & F3 & F4 & F5 & F6 & F7 & F8 & F9 & F10 & F11 & F12 & F13).
  destruct (stop_fields st) as (P1 & P2 & P3 & P4 & P5 & P6 & P7 & P8 & P9 & P10).
  destruct (stop_cleared st) as (A & L).
  assert (LS : localStorage (storeSessionToken tok (Some sid) s1)
               = localStorage (storeSessionToken tok (Some sid) st)).
  { unfold storeSessionToken. subst s1. autorewrite with fields.
    rewrite stop_localStorage.
    destruct (localStorage st) eqn:E; [|autorewrite with fields; now rewrite stop_localStorage].
    cbn [Js.nonempty]. destruct (Js.nonempty sid); now autorewrite with fields. }
  destruct p; cbn [negb]; autorewrite with frame fields;
    rewrite ?F1, ?F2, ?F3, ?F4, ?F5, ?F6, ?F7, ?F8, ?F9, ?F10, ?F11, ?F12, ?F13, ?LS;
    subst s1; autorewrite with frame fields;
    rewrite ?P1, ?P2, ?P3, ?P4, ?P5, ?P6, ?P7, ?P9, ?P10, ?A, ?L, ?stop_trace;
    repeat split.
Qed.

(** X5.  The tokens survive a reload of the page: after a user token has
    been stored and a session selected, a provider mounted anew over the
    same store has both tokens again; the identifier of the active session
    is not put back. *)
Theorem reload_restores_tokens session p tok st :
  localStorage st <> None ->
  Js.nonempty tok = true ->
  Js.nonempty (access_token (token session)) = true ->
  let st' := mount (reloaded (selectSession session p (storeUserToken tok st))) in
  userToken st' = Some tok /\
  sessionToken st' = Some (access_token (token session)) /\
  currentSessionId st' = None.
Proof.
  intros Hstore Htok Hsession. cbv zeta.
  set (st1 := selectSession session p (storeUserToken tok st)).
  assert (G : getStoredSessionToken (reloaded st1) = Some (access_token (token session))
              /\ getStoredUserToken (reloaded st1) = Some tok).
  { unfold getStoredSessionToken, getStoredUserToken, getItem, reloaded.
    cbn [localStorage]. subst st1.
    destruct (selectSession_fields session p (storeUserToken tok st))
      as (_ & _ & _ & _ & _ & _ & _ & _ & _ & _ & _ & _ & _ & LS).
    rewrite LS.
    pose proof (stored_tokens tok None st) as R1.
    pose proof (stored_tokens (access_token (token session))
                  (Some (session_id session)) (storeUserToken tok st)) as R2.
    destruct (localStorage st) as [m|] eqn:E; [|congruence].
    destruct R1 as (_ & _ & _ & U & _).
    unfold getStoredUserToken, getItem in U.
    destruct (localStorage (storeUserToken tok st)) as [m1|] eqn:E1; [|discriminate U].
    destruct R2 as (S1 & S2 & _).
    unfold getStoredSessionToken, getStoredUserToken, getItem in S1, S2.
    rewrite E1 in S2.
    destruct (localStorage (storeSessionToken _ _ (storeUserToken tok st)));
      [|discriminate S1].
    split; [exact S1 | now rewrite S2]. }
  destruct G as (G1 & G2). unfold mount. rewrite G1, Hsession.
  change (getStoredUserToken (setSessionToken ?t (reloaded st1)))
    with (getStoredUserToken (reloaded st1)).
  rewrite G2, Htok. repeat split.
Qed.

(** X6.  After a logout nothing is left to restore: a provider mounted anew
    over the store has no user token and no session token. *)
Theorem logout_then_reload_is_logged_out st :
  userToken (mount (reloaded (logout st))) = None /\
  sessionToken (mount (reloaded (logout st))) = None.
Proof.
  assert (G : forall key,
             key = USER_TOKEN_KEY \/ key = SESSION_TOKEN_KEY \/ key = SESSION_ID_KEY ->
             getItem key (reloaded (logout st)) = None).
  { intros key Hkey. rewrite <- (logout_getItem st key Hkey). reflexivity. }
  unfold mount, getStoredSessionToken, getStoredUserToken.
  rewrite (G SESSION_TOKEN_KEY) by (right; left; reflexivity).
  rewrite (G USER_TOKEN_KEY) by (left; reflexivity).
  split; reflexivity.
Qed.

(** X7.  From the render that follows a logout no token is used any more:
    [sendMessage], [createSession], [loadHistory] and [refreshSessions]
    called from it send nothing, and [sendMessage] and [createSession]
    ask the user to log in. *)
Theorem nothing_is_sent_after_logout st text name p net res sres st' :
  let r := logout st in
  sendMessage r text net st'
  = setError (Some (Js.lit "Please log in to start chatting.")) st' /\
  createSession r name p net st'
  = (None, setError (Some (Js.lit "Please log in to create a session.")) st') /\
  loadHistory r res st' = st' /\
  refreshSessions r sres st' = (st', []).
Proof.
  cbv zeta.
  destruct (logout_fields st) as (_ & _ & _ & _ & _ & _ & U & S & _).
  unfold sendMessage, createSession, loadHistory, refreshSessions.
  rewrite U, S. repeat split.
Qed.

(** ** History *)

Lemma with_fresh_ids_loaded entries st :
  historyLoadedRef (snd (with_fresh_ids entries st)) = historyLoadedRef st.
Proof.
  revert st; induction entries as [|e es IH]; intros st; [reflexivity|].
  cbn [with_fresh_ids uuidv4].
  match goal with
  | |- context [with_fresh_ids es ?s] =>
      specialize (IH s); destruct (with_fresh_ids es s) as [ms st2]
  end.
  cbn [snd] in *. now rewrite IH.
Qed.

Lemma loadHistory_when_loaded r res st :
  historyLoadedRef st = true -> loadHistory r res st = st.
Proof.
  intros H. unfold loadHistory. destruct (sessionToken r); [|reflexivity].
  rewrite H, orb_true_r. reflexivity.
Qed.

(** X8.  The history is loaded once for each activation of a session:
    unless the first answer is 401 or 403 (which logs out), a second
    [loadHistory] of the same render changes nothing and sends nothing. *)
Theorem loadHistory_once r res1 res2 st :
  (forall resp, res1 = inr resp ->
                status resp <> 401%N /\ status resp <> 403%N) ->
  loadHistory r res2 (loadHistory r res1 st) = loadHistory r res1 st.
Proof.
  intros Hstatus.
  destruct (historyLoadedRef st) eqn:Hl.
  { now rewrite !(loadHistory_when_loaded _ _ _ Hl). }
  destruct (sessionToken r) as [bearer|] eqn:Hs.
  2:{ unfold loadHistory. now rewrite Hs. }
  destruct (Js.nonempty bearer) eqn:Hb.
  2:{ unfold loadHistory. now rewrite Hs, Hb. }
  apply loadHistory_when_loaded.
  unfold loadHistory. rewrite Hs, Hb, Hl. cbn [negb orb].
  destruct res1 as [err|resp]; [reflexivity|].
  destruct (Hstatus resp eq_refl) as (H1 & H2).
  apply N.eqb_neq in H1, H2. rewrite H1, H2. cbn [orb].
  destruct (negb (ok resp)); [reflexivity|].
  destruct (json resp) as [err|[[|m ms]|]]; try reflexivity.
  match goal with
  | |- context [with_fresh_ids (m :: ms) ?s] =>
      pose proof (with_fresh_ids_loaded (m :: ms) s) as W;
      destruct (with_fresh_ids (m :: ms) s) as [loaded st2]
  end.
  cbn [snd] in W. rewrite historyLoadedRef_setMessages, W. reflexivity.
Qed.

Lemma with_fresh_ids_trace entries st :
  trace (snd (with_fresh_ids entries st)) = trace st.
Proof.
  revert st; induction entries as [|e es IH]; intros st; [reflexivity|].
  cbn [with_fresh_ids uuidv4].
  match goal with
  | |- context [with_fresh_ids es ?s] =>
      specialize (IH s); destruct (with_fresh_ids es s) as [ms st2]
  end.
  cbn [snd] in *. now rewrite IH.
Qed.


(** ** Sessions *)

Lemma replaced_ids (updated : SessionItem) (l : list SessionItem) :
  map session_id
    (map (fun item => if decide (session_id item = session_id updated)
                      then updated else item) l)
  = map session_id l.
Proof.
  rewrite map_map. apply map_ext. intros item.
  destruct (decide _) as [E|_]; [now rewrite E | reflexivity].
Qed.

(** What [renameSession] leaves alone: every field but the error slot, the
    list of sessions and the trace. *)
Lemma renameSession_fields session new_name updateList net st :
  let st' := snd (renameSession session new_name updateList net st) in
  isLoading st' = isLoading st /\ sessionsLoading st' = sessionsLoading st /\
  currentSessionId st' = currentSessionId st /\ userToken st' = userToken st /\
  sessionToken st' = sessionToken st /\
  historyLoadedRef st' = historyLoadedRef st /\
  localStorage st' = localStorage st /\ uuids st' = uuids st.
Proof.
  unfold renameSession.
  destruct (negb (Js.nonempty (Js.trim new_name))); [repeat split|].
  destruct (patch_name net) as [err|res]; [repeat split|].
  destruct (negb (ok res)); [repeat split|].
  destruct (json res) as [err|updated]; [repeat split|].
  destruct updateList; repeat split.
Qed.

Lemma renameSession_unlisted session new_name net st :
  sessions (snd (renameSession session new_name false net st)) = sessions st.
Proof.
  unfold renameSession.
  destruct (negb (Js.nonempty (Js.trim new_name))); [reflexivity|].
  destruct (patch_name net) as [err|res]; [reflexivity|].
  destruct (negb (ok res)); [reflexivity|].
  destruct (json res) as [err|updated]; reflexivity.
Qed.


(** X11.  For a user who is logged in, [createSession] ends with the
    loading flag cleared.  When it returns a session, that session is put
    at the head of the list and is the active one, its token is the
    session token, a stream in flight has been stopped and the history is
    due again; the log is emptied unless it is to be kept.  When it returns
    nothing, an error is recorded and the list, the active session, its
    token, the log and the cancellation handle are as before. *)
Theorem createSession_outcomes r new_name p net st :
  truthy (userToken r) = true ->
  let res := createSession r new_name p net st in
  isLoading (snd res) = false /\
  match fst res with
  | Some final =>
      sessions (snd res) = final :: sessions st /\
      currentSessionId (snd res) = Some (session_id final) /\
      sessionToken (snd res) = Some (access_token (token final)) /\
      messages (snd res) = (if p then messages st else []) /\
      abortRef (snd res) = None /\ historyLoadedRef (snd res) = false
  | None =>
      sessions (snd res) = sessions st /\
      currentSessionId (snd res) = currentSessionId st /\
      sessionToken (snd res) = sessionToken st /\
      messages (snd res) = messages st /\ abortRef (snd res) = abortRef st /\
      error (snd res) <> None
  end.
Proof.
  intros Huser. cbv zeta. unfold createSession.
  destruct (userToken r) as [bearer|]; [|discriminate].
  cbn [truthy] in Huser. rewrite Huser. cbn [negb].
  set (st0 := fetch (PostSession bearer) (setError None (setIsLoading true st))).
  assert (F : forall e,
             let res := (@None SessionItem,
                         setIsLoading false (setError (Some e) st0)) in
             isLoading (snd res) = false /\
             (sessions (snd res) = sessions st /\
              currentSessionId (snd res) = currentSessionId st /\
              sessionToken (snd res) = sessionToken st /\
              messages (snd res) = messages st /\
              abortRef (snd res) = abortRef st /\ error (snd res) <> None)).
  { intros e. cbv zeta. cbn [fst snd]. repeat split. discriminate. }
  destruct (post_session net) as [err|res]; [apply F|].
  destruct (negb (ok res)); [apply F|].
  destruct (json res) as [err|session]; [apply F|].
  clear F.
  assert (R : exists renamed st1,
             (if truthy new_name
              then renameSession session (default [] new_name) false net st0
              else (None, st0)) = (renamed, st1) /\
             sessions st1 = sessions st /\ messages st1 = messages st).
  { destruct (truthy new_name).
    - pose proof (renameSession_unlisted session (default [] new_name) net st0)
        as Hs.
      pose proof (renameSession_frame session (default [] new_name) false net st0)
        as (Hm & _).
      destruct (renameSession session (default [] new_name) false net st0)
        as [renamed st1].
      exists renamed, st1. cbn [snd] in *. rewrite Hs, Hm.
      repeat split.
    - exists None, st0. repeat split. }
  destruct R as (renamed & st1 & -> & Hs & Hm).
  cbn [fst snd]. set (final := default session renamed).
  destruct (selectSession_fields final p (setSessions (fun prev => final :: prev) st1))
    as (M & L & _ & S & _ & C & _ & T & H & A & _).
  rewrite isLoading_setIsLoading.
  autorewrite with frame fields in *.
  rewrite M, S, C, T, H, A, Hs, Hm. repeat split.
Qed.

(** X12.  A rename that fails does not undo the creation of the session:
    [createSession] still returns the session as it was created, lists it
    first and makes it the active one, and the error slot reports the
    rename. *)
Theorem createSession_survives_failed_rename r new_name p net st resp session :
  truthy (userToken r) = true ->
  post_session net = inr resp -> ok resp = true -> json resp = inr session ->
  Js.trim new_name <> [] ->
  (forall answer, patch_name net = inr answer -> ok answer = false) ->
  let res := createSession r (Some new_name) p net st in
  fst res = Some session /\
  sessions (snd res) = session :: sessions st /\
  currentSessionId (snd res) = Some (session_id session) /\
  error (snd res) =
  Some match patch_name net with
       | inl err => message_or "Failed to rename session." err
       | inr answer => detail_or "Failed to rename session." (detail answer)
       end.
Proof.
  intros Huser Hpost Hok Hjson Hname Hpatch. cbv zeta. unfold createSession.
  destruct (userToken r) as [bearer|]; [|discriminate].
  cbn [truthy] in Huser. rewrite Huser, Hpost, Hok, Hjson. cbn [negb].
  assert (Hn : Js.nonempty new_name = true).
  { destruct new_name; [now contradiction Hname|reflexivity]. }
  cbn [truthy]. rewrite Hn.
  change (default [] (Some new_name)) with new_name.
  unfold renameSession.
  destruct (Js.trim new_name) as [|c n] eqn:E; [congruence|].
  cbn [Js.nonempty negb].
  assert (Hfail : forall answer,
             patch_name net = inr answer -> negb (ok answer) = true).
  { intros answer Ha. now rewrite (Hpatch answer Ha). }
  destruct (patch_name net) as [err|answer]; [|rewrite (Hfail answer eq_refl)];
    cbn [default fst snd];
    match goal with
    | |- context [selectSession session p ?s] =>
        destruct (selectSession_fields session p s)
          as (_ & _ & Er & S & _ & C & _)
    end;
    autorewrite with frame fields in S, C, Er |- *; rewrite S, C, Er;
    repeat split.
Qed.

Lemma filter_other_ids (sid : jsstring) (l : list SessionItem) :
  let kept := filter (fun item => negb (bool_decide (session_id item = sid))) l in
  (forall item, In item kept <-> In item l /\ session_id item <> sid) /\
  sublist kept l.
Proof.
  cbv zeta. split; [|apply sublist_filter].
  intros item. rewrite <- !list_elem_of_In, list_elem_of_filter.
  rewrite negb_True, bool_decide_spec. tauto.
Qed.

(** X13.  [deleteSession] sends one request, under the token of the
    session itself, and ends with the loading flag cleared.  When the
    answer is a success the list keeps exactly the sessions with another
    identifier, in their order; if it was the active session of the
    render, the active session, its token and the log are cleared and a
    stream in flight is stopped, else they are as before.  When the answer
    is a failure an error is recorded and the list and the active session
    are as before.  The user token and the store are never touched. *)
Theorem deleteSession_outcomes r session res st :
  let out := deleteSession r session res st in
  let st' := fst out in
  snd out = [DeleteSession (session_id session) (access_token (token session))] /\
  isLoading st' = false /\ userToken st' = userToken st /\
  localStorage st' = localStorage st /\
  match res with
  | inr resp =>
      if ok resp then
        (forall item, In item (sessions st') <->
                      In item (sessions st) /\
                      session_id item <> session_id session) /\
        sublist (sessions st') (sessions st) /\
        error st' = None /\
        (if bool_decide (currentSessionId r = Some (session_id session)) then
           currentSessionId st' = None /\ sessionToken st' = None /\
           messages st' = [] /\ abortRef st' = None /\
           historyLoadedRef st' = false /\
           trace st' = trace st ++ aborts_of (abortRef st)
         else
           currentSessionId st' = currentSessionId st /\
           sessionToken st' = sessionToken st /\ messages st' = messages st /\
           abortRef st' = abortRef st /\ trace st' = trace st)
      else
        sessions st' = sessions st /\ currentSessionId st' = currentSessionId st /\
        sessionToken st' = sessionToken st /\ messages st' = messages st /\
        error st' = Some (detail_or "Failed to delete session." (detail resp))
  | inl err =>
      sessions st' = sessions st /\ currentSessionId st' = currentSessionId st /\
      sessionToken st' = sessionToken st /\ messages st' = messages st /\
      error st' = Some (message_or "Failed to delete session." err)
  end.
Proof.
  cbv zeta. unfold deleteSession. cbn [fst snd].
  split; [reflexivity|]. split; [reflexivity|].
  destruct res as [err|resp].
  - repeat split.
  - destruct (ok resp); cbn [negb]; [|repeat split].
    set (st1 := setSessions _ _).
    destruct (bool_decide (currentSessionId r = Some (session_id session))).
    + destruct (stop_fields st1) as (P1 & P2 & P3 & P4 & P5 & P6 & P7 & P8 & P9 & P10).
      destruct (stop_cleared st1) as (A & L).
      autorewrite with frame fields.
      rewrite ?P1, ?P2, ?P3, ?P4, ?P5, ?P6, ?P7, ?P9, ?P10, ?A, ?stop_trace,
        ?stop_localStorage.
      subst st1. autorewrite with frame fields.
      do 2 (split; [reflexivity|]).
      split; [apply (proj1 (filter_other_ids _ _))|].
      split; [apply (proj2 (filter_other_ids _ _))|].
      repeat split.
    + subst st1. autorewrite with frame fields.
      do 2 (split; [reflexivity|]).
      split; [apply (proj1 (filter_other_ids _ _))|].
      split; [apply (proj2 (filter_other_ids _ _))|].
      repeat split.
Qed.

(** X14.  When the request for the list of sessions is answered with 401
    or 403, the user is logged out as for an expired history: tokens, list
    of sessions, active session and log are cleared, in the state and in
    the store, the error slot holds the fixed message, and the list is no
    longer marked as loading. *)
Theorem refreshSessions_expired_logs_out r resp st :
  truthy (userToken r) = true ->
  (status resp = 401 \/ status resp = 403)%N ->
  let st' := fst (refreshSessions r (inr resp) st) in
  userToken st' = None /\ sessionToken st' = None /\ sessions st' = [] /\
  currentSessionId st' = None /\ messages st' = [] /\
  error st' = Some SESSION_EXPIRED /\ sessionsLoading st' = false /\
  getStoredUserToken st' = None /\ getStoredSessionToken st' = None.
Proof.
  intros Htok Hstatus st'.
  assert (E : st' = setSessionsLoading false
                      (setError (Some SESSION_EXPIRED)
                         (logout (setSessionsLoading true st)))).
  { subst st'. unfold refreshSessions.
    destruct (userToken r) as [bearer|]; [|discriminate].
    cbn [truthy] in Htok. rewrite Htok. cbn [negb fst].
    destruct Hstatus as [-> | ->]; reflexivity. }
  rewrite E. do 7 (split; [reflexivity|]).
  unfold getStoredUserToken, getStoredSessionToken.
  assert (G : forall key s, getItem key (setSessionsLoading false
                                         (setError (Some SESSION_EXPIRED) s))
                            = getItem key s) by reflexivity.
  rewrite !G. split; apply logout_getItem.
  - left. reflexivity.
  - right. left. reflexivity.
Qed.


(** ** The list of sessions *)


(** ** The read loop, for any stream *)

(** X16.  The read loop does not see where the transport cuts the body:
    two sequences of chunks with the same bytes leave the same log, the
    same buffer and the same decoder state. *)
Theorem read_loop_any_chunking aid chunks1 chunks2 st :
  concat chunks1 = concat chunks2 ->
  read_loop aid chunks1 st = read_loop aid chunks2 st.
Proof. intros H. now rewrite !read_loop_whole, H. Qed.

Lemma append_content_nil aid l : append_content aid [] l = l.
Proof.
  unfold append_content. rewrite <- (map_id l) at 2. apply map_ext.
  intros [i ro c]. cbn [id role content].
  destruct (decide (i = aid)); [now rewrite app_nil_r | reflexivity].
Qed.

Lemma setMessages_nothing f st :
  f (messages st) = messages st -> setMessages f st = st.
Proof. destruct st. unfold setMessages. cbn. now intros ->. Qed.

Lemma handle_data_cases aid data s :
  handle_data aid data s = s \/
  handle_data aid data s = setIsLoading false s \/
  exists text, handle_data aid data s = setMessages (append_content aid text) s.
Proof.
  unfold handle_data.
  destruct (negb (to_boolean (Some data))); [now left|].
  destruct (to_boolean (Json.get data "done")); [right; now left|].
  destruct (Json.get data "content") as [c|]; [|now left].
  destruct (to_boolean (Some c)); [|now left].
  right; right. now exists (to_string c).
Qed.

Lemma handle_line_cases aid s line :
  handle_line aid s line = s \/
  handle_line aid s line = setIsLoading false s \/
  exists text, handle_line aid s line = setMessages (append_content aid text) s.
Proof.
  unfold handle_line.
  destruct (negb (Js.startsWith (Js.lit "data:") line)); [now left|].
  destruct (negb (Js.nonempty (Js.trim (Js.slice_from 5 line)))); [now left|].
  destruct (Json.parse (Js.trim (Js.slice_from 5 line))) as [data|]; [|now left].
  apply handle_data_cases.
Qed.

Lemma appended_step aid st s line :
  (exists text,
     s = setMessages (append_content aid text) st \/
     s = setIsLoading false (setMessages (append_content aid text) st)) ->
  exists text,
    handle_line aid s line = setMessages (append_content aid text) st \/
    handle_line aid s line
    = setIsLoading false (setMessages (append_content aid text) st).
Proof.
  intros (text & Hs).
  destruct (handle_line_cases aid s line) as [-> | [-> | (t & ->)]].
  - now exists text.
  - exists text. right. destruct Hs as [-> | ->]; reflexivity.
  - exists (text ++ t). destruct Hs as [-> | ->]; [left | right].
    + rewrite setMessages_twice. unfold setMessages. f_equal.
      apply append_content_twice.
    + change (setMessages ?f (setIsLoading false ?x))
        with (setIsLoading false (setMessages f x)).
      rewrite setMessages_twice. f_equal. unfold setMessages. f_equal.
      apply append_content_twice.
Qed.

Lemma appended_lines aid st lines : forall s,
  (exists text,
     s = setMessages (append_content aid text) st \/
     s = setIsLoading false (setMessages (append_content aid text) st)) ->
  exists text,
    fold_left (handle_line aid) lines s = setMessages (append_content aid text) st \/
    fold_left (handle_line aid) lines s
    = setIsLoading false (setMessages (append_content aid text) st).
Proof.
  induction lines as [|line lines IH]; intros s Hs; [exact Hs|].
  cbn [fold_left]. apply IH. now apply appended_step.
Qed.

Lemma appended_parts aid st parts : forall s,
  (exists text,
     s = setMessages (append_content aid text) st \/
     s = setIsLoading false (setMessages (append_content aid text) st)) ->
  exists text,
    fold_left (handle_part aid) parts s = setMessages (append_content aid text) st \/
    fold_left (handle_part aid) parts s
    = setIsLoading false (setMessages (append_content aid text) st).
Proof.
  induction parts as [|part parts IH]; intros s Hs; [exact Hs|].
  cbn [fold_left]. apply IH. unfold handle_part. now apply appended_lines.
Qed.

Lemma read_loop_appended aid chunks st :
  exists text,
    now (read_loop aid chunks st) = setMessages (append_content aid text) st \/
    now (read_loop aid chunks st)
    = setIsLoading false (setMessages (append_content aid text) st).
Proof.
  rewrite read_loop_events. apply appended_parts.
  exists []. left. symmetry. apply setMessages_nothing, append_content_nil.
Qed.


(** ** Session labels, for any text *)

Lemma trimEnd_length s : length (Js.trimEnd s) <= length s.
Proof.
  destruct (trimEnd_tail s) as (tail & E & _).
  rewrite E at 2. rewrite length_app. lia.
Qed.

Lemma trimStart_fixed s : starts_with_space s = false -> Js.trimStart s = s.
Proof.
  destruct s as [|c r]; [reflexivity|]. cbn [starts_with_space]. intros Hc.
  unfold Js.trimStart. cbn [Js.drop_while]. now rewrite Hc.
Qed.

Lemma trimEnd_fixed s : ends_clean s = true -> Js.trimEnd s = s.
Proof.
  induction s as [|c r IH]; [reflexivity|]. intros Hc.
  rewrite trimEnd_cons. destruct r as [|c' r'].
  - cbn in Hc. apply negb_true_iff in Hc. cbn. now rewrite Hc.
  - rewrite IH by exact Hc. reflexivity.
Qed.

Lemma trim_fixed s :
  starts_with_space s = false -> ends_clean s = true -> Js.trim s = s.
Proof.
  intros Hs He. unfold Js.trim. rewrite trimStart_fixed by exact Hs.
  now apply trimEnd_fixed.
Qed.

Lemma trim_nil_iff s : Js.trim s = [] <-> forallb Js.is_white_space s = true.
Proof.
  split.
  - intros H. destruct (trimStart_head s) as (head & E1 & W1).
    destruct (trimEnd_tail (Js.trimStart s)) as (tail & E2 & W2).
    fold (Js.trim s) in E2. rewrite H in E2. cbn [app] in E2.
    rewrite E1, E2, forallb_app, W1, W2. reflexivity.
  - intros H. unfold Js.trim.
    assert (E : Js.trimStart s = []).
    { unfold Js.trimStart. induction s as [|c r IH]; [reflexivity|].
      cbn in H |- *. apply andb_prop in H as [Hc H]. rewrite Hc. now apply IH. }
    now rewrite E.
Qed.

Lemma replace_ws_runs_not_nil b s :
  ends_clean s = true -> s <> [] -> Js.replace_ws_runs b s <> [].
Proof.
  revert b. induction s as [|c r IH]; intros b Hc NE; [congruence|].
  cbn [Js.replace_ws_runs]. destruct (Js.is_white_space c) eqn:Ec.
  - destruct r as [|c' r']; [cbn in Hc; now rewrite Ec in Hc|].
    destruct b; [|discriminate].
    apply IH; [exact Hc | discriminate].
  - discriminate.
Qed.

Lemma ends_clean_cons c r : r <> [] -> ends_clean (c :: r) = ends_clean r.
Proof. destruct r; [congruence | reflexivity]. Qed.

Lemma replace_ws_runs_ends_clean b s :
  ends_clean s = true -> ends_clean (Js.replace_ws_runs b s) = true.
Proof.
  revert b. induction s as [|c r IH]; intros b Hc; [reflexivity|].
  cbn [Js.replace_ws_runs]. destruct (Js.is_white_space c) eqn:Ec.
  - destruct r as [|c' r']; [cbn in Hc; now rewrite Ec in Hc|].
    assert (Hr : ends_clean (c' :: r') = true) by exact Hc.
    destruct b; [now apply IH|].
    rewrite ends_clean_cons
      by (apply replace_ws_runs_not_nil; [exact Hr | discriminate]).
    now apply IH.
  - destruct r as [|c' r']; [cbn; now rewrite Ec|].
    assert (Hr : ends_clean (c' :: r') = true) by exact Hc.
    rewrite ends_clean_cons
      by (apply replace_ws_runs_not_nil; [exact Hr | discriminate]).
    now apply IH.
Qed.

Lemma ends_clean_app a b :
  b <> [] -> ends_clean b = true -> ends_clean (a ++ b) = true.
Proof.
  intros NE Hb. induction a as [|c a IH]; [exact Hb|].
  cbn [app]. rewrite ends_clean_cons; [exact IH|].
  destruct a; [exact NE | discriminate].
Qed.

Lemma collapsed_trim_shape text :
  let t := Js.collapse_white_space (Js.trim text) in
  (t = [] <-> Js.trim text = []) /\
  starts_with_space t = false /\ ends_clean t = true.
Proof.
  cbv zeta. unfold Js.collapse_white_space.
  assert (Hs : starts_with_space (Js.trim text) = false).
  { unfold Js.trim. apply trimEnd_keeps_start, trimStart_clean. }
  assert (He : ends_clean (Js.trim text) = true).
  { unfold Js.trim. apply trimEnd_ends_clean. }
  split; [|split].
  - split; [|now intros ->].
    intros H. destruct (Js.trim text) as [|c r] eqn:E; [reflexivity|].
    exfalso. revert H. apply replace_ws_runs_not_nil; [exact He | discriminate].
  - destruct (Js.trim text) as [|c r]; [reflexivity|].
    cbn [starts_with_space] in Hs. cbn [Js.replace_ws_runs]. rewrite Hs.
    cbn [starts_with_space]. exact Hs.
  - now apply replace_ws_runs_ends_clean.
Qed.

Lemma label_shape text :
  length (deriveSessionName text) <= 43 /\
  (deriveSessionName text = [] <-> Js.trim text = []) /\
  Js.trim (deriveSessionName text) = deriveSessionName text.
Proof.
  destruct (collapsed_trim_shape text) as (Hnil & Hs & He).
  unfold deriveSessionName. cbv zeta.
  set (t := Js.collapse_white_space (Js.trim text)) in *.
  unfold SESSION_NAME_MAX_LENGTH, Js.slice_to.
  destruct t as [|c r] eqn:Et; cbn [Js.nonempty negb].
  { split; [cbn; lia|]. split; [|reflexivity]. split; [intros _|reflexivity].
    now apply Hnil. }
  rewrite <- Et in *. destruct (length t <=? 40) eqn:Hlen.
  - apply Nat.leb_le in Hlen. split; [lia|]. split; [|now apply trim_fixed].
    rewrite <- Hnil. reflexivity.
  - split; [|split].
    + rewrite length_app. pose proof (trimEnd_length (firstn 40 t)) as L.
      rewrite length_firstn in L. cbn [length ELLIPSIS_MARKER]. lia.
    + split.
      * intros H. apply app_eq_nil in H as [_ H]. discriminate H.
      * intros H. apply Hnil in H. rewrite H in Et. discriminate Et.
    + apply trim_fixed.
      * assert (Hf : starts_with_space (firstn 40 t) = false).
        { rewrite Et in Hs |- *. exact Hs. }
        apply trimEnd_keeps_start in Hf.
        destruct (Js.trimEnd (firstn 40 t)); [reflexivity | exact Hf].
      * apply ends_clean_app; [discriminate | reflexivity].
Qed.

(** X18.  The label derived from any text has at most 43 code units, is
    empty exactly when the text is blank, and neither starts nor ends with
    white space: trimming it changes nothing.  So the label that
    [sendMessage] derives from a text that passed its check for blank
    texts is never blank. *)
Theorem deriveSessionName_shape text :
  length (deriveSessionName text) <= 43 /\
  (deriveSessionName text = [] <-> Js.trim text = []) /\
  Js.trim (deriveSessionName text) = deriveSessionName text.
Proof. exact (label_shape text). Qed.

(** ** Sending a message: the checks, and how a send ends *)

(** X19.  [sendMessage] turns a message down without drawing an
    identifier, touching the log, the loading flag or the cancellation
    handle, and without any effect: for a user who is not logged in and
    for a text of more than 3000 code units after trimming it records an
    error; for a blank text of a user who is logged in it changes nothing
    at all. *)
Theorem sendMessage_checks r text net st :
  truthy (userToken r) = false \/ Js.trim text = [] \/
  3000 < length (Js.trim text) ->
  let st' := sendMessage r text net st in
  messages st' = messages st /\ isLoading st' = isLoading st /\
  abortRef st' = abortRef st /\ uuids st' = uuids st /\
  controllers st' = controllers st /\ trace st' = trace st /\
  (truthy (userToken r) = true -> Js.trim text = [] -> st' = st) /\
  (truthy (userToken r) = false \/ Js.trim text <> [] -> error st' <> None).
Proof.
  intros H. cbv zeta. unfold sendMessage.
  destruct (truthy (userToken r)); cbn [negb].
  2:{ do 6 (split; [reflexivity|]). split; [discriminate|]. discriminate. }
  destruct (Js.trim text) as [|c trimmed] eqn:E; cbn [Js.nonempty negb].
  { do 6 (split; [reflexivity|]). split; [reflexivity|].
    intros [? | ?]; congruence. }
  destruct H as [H | [H | H]]; [discriminate H | discriminate H |].
  apply Nat.ltb_lt in H. rewrite H.
  do 6 (split; [reflexivity|]). split; discriminate.
Qed.

Lemma stream_reply_settled bearer aid net st :
  isLoading (stream_reply bearer aid net st) = false /\
  abortRef (stream_reply bearer aid net st) = None.
Proof.
  assert (F : forall s, isLoading (finally_stream s) = false /\
                        abortRef (finally_stream s) = None).
  { intros s. split; reflexivity. }
  unfold stream_reply. destruct (new_AbortController st) as [ctl st1].
  destruct (post_stream net) as [err|res]; [apply F|].
  destruct ((stream_status res =? 401) || (stream_status res =? 403))%N; [apply F|].
  destruct (stream_body res) as [[chunks last_read]|]; [|apply F].
  destruct (stream_ok res); [|apply F].
  destruct last_read; apply F.
Qed.

(** X20.  Every send that passes the checks ends with the loading flag
    cleared, whatever the backend answers; when the render has a session
    token it also ends with no cancellation handle kept, also when a
    handle of an earlier send was kept before. *)
Theorem sendMessage_settles r text net st :
  truthy (userToken r) = true ->
  Js.trim text <> [] ->
  length (Js.trim text) <= 3000 ->
  let st' := sendMessage r text net st in
  isLoading st' = false /\
  (truthy (sessionToken r) = true -> abortRef st' = None).
Proof.
  intros Huser Htext Hlen. cbv zeta. unfold sendMessage.
  rewrite Huser. cbn [negb].
  destruct (Js.trim text) as [|c0 trimmed0] eqn:Etrim; [congruence|].
  cbn [Js.nonempty negb]. set (trimmed := c0 :: trimmed0) in *.
  replace (3000 <? length trimmed) with false
    by (symmetry; apply Nat.ltb_ge; exact Hlen).
  cbn [uuidv4]. set (st1 := setMessages _ _). clearbody st1.
  destruct (truthy (sessionToken r)); cbn [negb].
  - split; [|intros _]; apply stream_reply_settled.
  - split; [|discriminate].
    destruct (createSession r (Some (deriveSessionName trimmed)) true net st1)
      as [[s|] st2].
    + destruct (Js.nonempty (access_token (token s)));
        [apply stream_reply_settled | reflexivity].
    + reflexivity.
Qed.

Lemma stream_ok_status res :
  stream_ok res = true ->
  ((stream_status res =? 401) || (stream_status res =? 403))%N = false.
Proof.
  unfold stream_ok. intros H. apply andb_prop in H as [_ H].
  apply N.leb_le in H. apply orb_false_iff.
  split; apply N.eqb_neq; lia.
Qed.


(** X22.  A chat request that gives no stream, because the request is
    rejected, the answer is not a success, or the answer has no body,
    leaves the log as it was at the request, with the two new messages in
    it, and records an error, except for a rejection whose name is
    [AbortError]; an answer that is not a success is reported with the
    detail of its body, or with the fixed text. *)
Theorem failed_chat_request bearer aid net st :
  match post_stream net with
  | inl _ => True
  | inr res =>
      stream_status res <> 401%N /\ stream_status res <> 403%N /\
      (stream_ok res = false \/ stream_body res = None)
  end ->
  let st' := stream_reply bearer aid net st in
  messages st' = messages st /\
  error st' =
  match post_stream net with
  | inl err =>
      if decide (error_name err = Js.lit "AbortError") then error st
      else Some (message_or "Streaming failed." err)
  | inr res => Some (detail_or "Failed to start stream." (stream_detail res))
  end.
Proof.
  intros H. cbv zeta. unfold stream_reply.
  destruct (new_AbortController st) as [ctl st1] eqn:Enew.
  assert (E1 : messages st1 = messages st /\ error st1 = error st).
  { inversion Enew. split; reflexivity. }
  clear Enew. destruct E1 as (M1 & R1).
  set (st2 := fetch _ (set_abortRef (Some ctl) st1)).
  assert (E2 : messages st2 = messages st /\ error st2 = error st).
  { subst st2. unfold fetch. autorewrite with frame fields.
    rewrite M1, R1. split; reflexivity. }
  clearbody st2. destruct E2 as (M2 & R2).
  assert (F : forall m,
             messages (finally_stream (catch_stream (Error m) st2)) = messages st /\
             error (finally_stream (catch_stream (Error m) st2)) = Some m).
  { intros m. unfold finally_stream, catch_stream.
    rewrite decide_False by discriminate.
    autorewrite with frame fields. rewrite M2. split; reflexivity. }
  destruct (post_stream net) as [err|res].
  - unfold finally_stream, catch_stream.
    destruct (decide (error_name err = Js.lit "AbortError"));
      autorewrite with frame fields; rewrite M2, ?R2; split; reflexivity.
  - destruct H as (H1 & H3 & H).
    apply N.eqb_neq in H1, H3. rewrite H1, H3. cbn [orb].
    destruct (stream_body res) as [[chunks last_read]|]; [|apply F].
    destruct H as [H | H]; [|discriminate H]. rewrite H. apply F.
Qed.

(** X23.  When the chat request is answered with 401 or 403 the user is
    logged out: the tokens, the sessions and the whole log, with the two
    messages just added, are cleared, in the state and in the store, the
    error slot holds the fixed message, and the handle of the request
    itself is aborted. *)
Theorem chat_401_logs_out bearer aid net st res :
  post_stream net = inr res ->
  (stream_status res = 401 \/ stream_status res = 403)%N ->
  let st' := stream_reply bearer aid net st in
  userToken st' = None /\ sessionToken st' = None /\ sessions st' = [] /\
  currentSessionId st' = None /\ messages st' = [] /\
  error st' = Some SESSION_EXPIRED /\ isLoading st' = false /\
  abortRef st' = None /\
  getStoredUserToken st' = None /\ getStoredSessionToken st' = None /\
  trace st' =
  trace st ++ [Fetch (PostChatStream bearer (controllers st)) (messages st);
               Abort (controllers st)].
Proof.
  intros Hpost Hstatus. cbv zeta.
  destruct (stream_reply_trace bearer aid net st) as (tail & Ht & _).
  revert Ht. unfold stream_reply.
  destruct (new_AbortController st) as [ctl st1] eqn:Enew.
  assert (Hctl : ctl = controllers st) by (inversion Enew; reflexivity).
  assert (Htrace : trace st1 = trace st) by (inversion Enew; reflexivity).
  assert (Hlog : messages st1 = messages st) by (inversion Enew; reflexivity).
  clear Enew. subst ctl. rewrite Hpost.
  replace ((stream_status res =? 401) || (stream_status res =? 403))%N with true
    by (destruct Hstatus as [-> | ->]; reflexivity).
  set (st2 := fetch _ _).
  assert (A2 : abortRef st2 = Some (controllers st)) by reflexivity.
  assert (T2 : trace st2 = trace st ++
                 [Fetch (PostChatStream bearer (controllers st)) (messages st)]).
  { subst st2. rewrite fetch_trace. autorewrite with frame.
    now rewrite Htrace, Hlog. }
  clearbody st2. intros _.
  destruct (logout_fields st2)
    as (M & L & E & S & _ & C & U & T & _ & A & LS & _ & _ & Tr).
  unfold finally_stream. autorewrite with frame fields.
  rewrite M, S, C, U, T, Tr, A2, T2.
  do 8 (split; [reflexivity|]).
  unfold getStoredUserToken, getStoredSessionToken.
  assert (G : forall key s,
             getItem key (set_abortRef None
                            (setIsLoading false
                               (setError (Some SESSION_EXPIRED) s)))
             = getItem key s) by reflexivity.
  rewrite !G. split; [|split].
  - apply logout_getItem. left. reflexivity.
  - apply logout_getItem. right. left. reflexivity.
  - now rewrite <- app_assoc.
Qed.

(** ** The first message of a user without a session *)

Lemma createSession_renamed r bearer new_name p net st resp session answer updated :
  userToken r = Some bearer -> Js.nonempty bearer = true ->
  post_session net = inr resp -> ok resp = true -> json resp = inr session ->
  Js.trim new_name <> [] ->
  patch_name net = inr answer -> ok answer = true -> json answer = inr updated ->
  let res := createSession r (Some new_name) p net st in
  fst res = Some updated /\
  messages (snd res) = (if p then messages st else []) /\
  controllers (snd res) = controllers st /\
  trace (snd res) =
  trace st ++
  [Fetch (PostSession bearer) (messages st);
   Fetch (PatchSessionName (session_id session) (access_token (token session))
            (Js.trim new_name)) (messages st)] ++
  aborts_of (abortRef st).
Proof.
  intros Huser Hbearer Hpost Hok Hjson Hname Hpatch Hok' Hjson'. cbv zeta.
  unfold createSession. rewrite Huser, Hbearer, Hpost, Hok, Hjson. cbn [negb].
  assert (Hn : Js.nonempty new_name = true).
  { destruct new_name; [now contradiction Hname|reflexivity]. }
  cbn [truthy]. rewrite Hn.
  change (default [] (Some new_name)) with new_name.
  unfold renameSession.
  destruct (Js.trim new_name) as [|c n] eqn:E; [congruence|].
  cbn [Js.nonempty negb]. rewrite Hpatch, Hok', Hjson'. cbn [negb fst snd].
  change (default session (Some updated)) with updated.
  match goal with
  | |- context [selectSession updated p ?s] =>
      destruct (selectSession_fields updated p s)
        as (M & _ & _ & _ & _ & _ & _ & _ & _ & _ & _ & C & T & _)
  end.
  split; [reflexivity|].
  autorewrite with frame fields in M, C, T |- *. rewrite M, C, T.
  rewrite !fetch_trace. autorewrite with frame fields.
  unfold fetch. autorewrite with frame fields.
  rewrite <- !app_assoc. repeat split.
Qed.


(** ** Logging in and registering *)

Lemma getItem_fetch key req st : getItem key (fetch req st) = getItem key st.
Proof. reflexivity. Qed.

Lemma storeUserToken_store tok st m :
  localStorage st = Some m ->
  localStorage (storeUserToken tok st) = Some (<[USER_TOKEN_KEY := tok]> m).
Proof. intros E. unfold storeUserToken. now rewrite E. Qed.

Lemma storeUserToken_same_store tok s s' :
  localStorage s = localStorage s' ->
  localStorage (storeUserToken tok s) = localStorage (storeUserToken tok s').
Proof.
  intros E. unfold storeUserToken. rewrite E.
  destruct (localStorage s') eqn:E'; autorewrite with fields;
    [reflexivity | congruence].
Qed.

(** What [login] and [register] do once the user token is known, from a
    render without user token. *)
Lemma signed_in_logged_out r tok sessions_res st :
  truthy (userToken r) = false ->
  let out := signed_in r tok sessions_res st in
  snd out = [] /\
  messages (fst out) = messages st /\ isLoading (fst out) = isLoading st /\
  error (fst out) = error st /\ sessions (fst out) = [] /\
  currentSessionId (fst out) = None /\ userToken (fst out) = Some tok /\
  sessionToken (fst out) = None /\
  historyLoadedRef (fst out) = historyLoadedRef st /\
  abortRef (fst out) = abortRef st /\ trace (fst out) = trace st /\
  localStorage (fst out) = localStorage (storeUserToken tok st).
Proof.
  intros Hr. cbv zeta. unfold signed_in, refreshSessions.
  destruct (storeUserToken_fields tok st)
    as (F1 & F2 & F3 & F4 & F5 & F6 & F7 & F8 & F9 & F10 & F11 & F12 & F13).
  destruct (userToken r) as [bearer|]; cbn [truthy] in Hr;
    [rewrite Hr; cbn [negb]|]; cbn [fst snd];
    autorewrite with frame fields;
    rewrite F1, F2, F3, F9, F10, F13; repeat split.
Qed.

Lemma signed_in_request r tok sessions_res st :
  truthy (userToken r) = true ->
  snd (signed_in r tok sessions_res st) = [GetSessions (default [] (userToken r))].
Proof.
  intros Hr. unfold signed_in, refreshSessions.
  destruct (userToken r) as [bearer|]; [|discriminate Hr].
  cbn [truthy] in Hr. rewrite Hr. reflexivity.
Qed.

(** X25.  [login] always ends with the loading flag cleared.  When the
    login request fails, the error is recorded and thrown again, the log
    has been emptied all the same, and the tokens, the sessions and the
    store are as before.  When it succeeds from a render without user
    token, the user token of the answer is put in the state and in the
    store, the session token, the active session and the list are
    cleared, the session token in the store is left as it was, and the
    login request is the only one sent: the refresh of the list that
    follows still sees the render without user token.  From a render with
    a user token, the list is requested under that earlier token. *)
Theorem login_outcomes r email password login_res sessions_res st :
  let out := login r email password login_res sessions_res st in
  let thrown_again := fst (fst out) in
  let st' := snd (fst out) in
  match loginUser login_res with
  | inl err =>
      thrown_again = Some err /\ snd out = [PostLogin email password] /\
      isLoading st' = false /\ messages st' = [] /\
      error st' = Some (message_or "Login failed." err) /\
      userToken st' = userToken st /\ sessionToken st' = sessionToken st /\
      currentSessionId st' = currentSessionId st /\ sessions st' = sessions st /\
      localStorage st' = localStorage st
  | inr answer =>
      thrown_again = None /\
      (truthy (userToken r) = true ->
       snd out = [PostLogin email password;
                  GetSessions (default [] (userToken r))]) /\
      (truthy (userToken r) = false ->
       snd out = [PostLogin email password] /\
       isLoading st' = false /\ messages st' = [] /\ error st' = None /\
       userToken st' = Some (access_token answer) /\
       sessionToken st' = None /\ currentSessionId st' = None /\
       sessions st' = [] /\ abortRef st' = abortRef st /\
       trace st' = trace st /\
       getStoredSessionToken st' = getStoredSessionToken st /\
       (localStorage st <> None ->
        getStoredUserToken st' = Some (access_token answer)))
  end.
Proof.
  cbv zeta. unfold login.
  destruct (loginUser login_res) as [err|answer]; cbn [fst snd].
  { repeat split. }
  set (st0 := set_historyLoadedRef false _).
  split; [destruct (signed_in _ _ _ _); reflexivity|]. split.
  - intros Hr. pose proof (signed_in_request r (access_token answer) sessions_res
                             st0 Hr) as Hsent.
    destruct (signed_in r (access_token answer) sessions_res st0) as [st1 sent].
    cbn [fst snd] in *. now rewrite Hsent.
  - intros Hr.
    destruct (signed_in_logged_out r (access_token answer) sessions_res st0 Hr)
      as (Hsent & M & L & E & S & C & U & T & H & A & Tr & LS).
    destruct (signed_in r (access_token answer) sessions_res st0) as [st1 sent].
    cbn [fst snd] in *. subst sent.
    split; [reflexivity|]. autorewrite with frame fields.
    rewrite M, E, S, C, U, T, A, Tr. subst st0. autorewrite with frame fields.
    do 9 (split; [reflexivity|]).
    assert (G : forall key,
               getItem key (setIsLoading false st1)
               = getItem key (storeUserToken (access_token answer) st)).
    { intros key. unfold getItem. rewrite localStorage_setIsLoading, LS.
      now rewrite (storeUserToken_same_store _ _ st). }
    unfold getStoredSessionToken, getStoredUserToken. rewrite !G.
    pose proof (stored_tokens (access_token answer) None st) as R.
    destruct (localStorage st) as [m|] eqn:Est.
    + destruct R as (_ & _ & _ & R1 & R2). split; [exact R2|]. intros _. exact R1.
    + destruct R as (_ & R2 & _). rewrite R2. split; [reflexivity|]. congruence.
Qed.

(** X26.  [register] always ends with the loading flag cleared.  When the
    registration request fails, the error is recorded and thrown again, the log
    has been emptied all the same, and the tokens, the sessions and the
    store are as before.  When it succeeds from a render without user
    token, the user token of the registration is put in the state and in the
    store, the session token, the active session and the list are
    cleared, the session token in the store is left as it was, and the
    registration request is the only one sent: the refresh of the list that
    follows still sees the render without user token.  From a render with
    a user token, the list is requested under that earlier token. *)
Theorem register_outcomes r email password register_res sessions_res st :
  let out := register r email password register_res sessions_res st in
  let thrown_again := fst (fst out) in
  let st' := snd (fst out) in
  match registerUser register_res with
  | inl err =>
      thrown_again = Some err /\ snd out = [PostRegister email password] /\
      isLoading st' = false /\ messages st' = [] /\
      error st' = Some (message_or "Registration failed." err) /\
      userToken st' = userToken st /\ sessionToken st' = sessionToken st /\
      currentSessionId st' = currentSessionId st /\ sessions st' = sessions st /\
      localStorage st' = localStorage st
  | inr answer =>
      thrown_again = None /\
      (truthy (userToken r) = true ->
       snd out = [PostRegister email password;
                  GetSessions (default [] (userToken r))]) /\
      (truthy (userToken r) = false ->
       snd out = [PostRegister email password] /\
       isLoading st' = false /\ messages st' = [] /\ error st' = None /\
       userToken st' = Some (access_token (user_token answer)) /\
       sessionToken st' = None /\ currentSessionId st' = None /\
       sessions st' = [] /\ abortRef st' = abortRef st /\
       trace st' = trace st /\
       getStoredSessionToken st' = getStoredSessionToken st /\
       (localStorage st <> None ->
        getStoredUserToken st' = Some (access_token (user_token answer))))
  end.
Proof.
  cbv zeta. unfold register.
  destruct (registerUser register_res) as [err|answer]; cbn [fst snd].
  { repeat split. }
  set (st0 := set_historyLoadedRef false _).
  split; [destruct (signed_in _ _ _ _); reflexivity|]. split.
  - intros Hr. pose proof (signed_in_request r (access_token (user_token answer)) sessions_res
                             st0 Hr) as Hsent.
    destruct (signed_in r (access_token (user_token answer)) sessions_res st0) as [st1 sent].
    cbn [fst snd] in *. now rewrite Hsent.
  - intros Hr.
    destruct (signed_in_logged_out r (access_token (user_token answer)) sessions_res st0 Hr)
      as (Hsent & M & L & E & S & C & U & T & H & A & Tr & LS).
    destruct (signed_in r (access_token (user_token answer)) sessions_res st0) as [st1 sent].
    cbn [fst snd] in *. subst sent.
    split; [reflexivity|]. autorewrite with frame fields.
    rewrite M, E, S, C, U, T, A, Tr. subst st0. autorewrite with frame fields.
    do 9 (split; [reflexivity|]).
    assert (G : forall key,
               getItem key (setIsLoading false st1)
               = getItem key (storeUserToken (access_token (user_token answer)) st)).
    { intros key. unfold getItem. rewrite localStorage_setIsLoading, LS.
      now rewrite (storeUserToken_same_store _ _ st). }
    unfold getStoredSessionToken, getStoredUserToken. rewrite !G.
    pose proof (stored_tokens (access_token (user_token answer)) None st) as R.
    destruct (localStorage st) as [m|] eqn:Est.
    + destruct R as (_ & _ & _ & R1 & R2). split; [exact R2|]. intros _. exact R1.
    + destruct R as (_ & R2 & _). rewrite R2. split; [reflexivity|]. congruence.
Qed.

(** What [loginAndCreateSession] and [registerAndCreateSession] leave in
    the store and in the effects, from the user token [tok] on. *)
Lemma session_after_login tok session st :
  let st' := storeSessionToken (access_token (token session))
               (Some (session_id session))
               (fetch (PostSession tok) (storeUserToken tok st)) in
  trace st' = trace st ++ [Fetch (PostSession tok) (messages st)] /\
  (localStorage st <> None ->
   getStoredUserToken st' = Some tok /\
   getStoredSessionToken st' = Some (access_token (token session))).
Proof.
  cbv zeta. set (st1 := storeUserToken tok st).
  set (st2 := fetch (PostSession tok) st1).
  destruct (storeSessionToken_fields (access_token (token session))
              (Some (session_id session)) st2)
    as (_ & _ & _ & _ & _ & _ & _ & _ & _ & _ & _ & _ & T3).
  destruct (storeUserToken_fields tok st)
    as (M1 & _ & _ & _ & _ & _ & _ & _ & _ & _ & _ & _ & T1).
  split.
  - rewrite T3. subst st2 st1. rewrite fetch_trace. now rewrite T1, M1.
  - intros Hstore. destruct (localStorage st) as [m|] eqn:E; [|congruence].
    pose proof (stored_tokens tok None st) as R1. rewrite E in R1.
    destruct R1 as (_ & _ & _ & U1 & _). fold st1 in U1.
    assert (E2 : localStorage st2 = Some (<[USER_TOKEN_KEY := tok]> m)).
    { subst st2 st1. unfold fetch. rewrite localStorage_perform.
      now apply storeUserToken_store. }
    pose proof (stored_tokens (access_token (token session))
                  (Some (session_id session)) st2) as R2.
    rewrite E2 in R2. destruct R2 as (S2 & U2 & _).
    split; [|exact S2]. rewrite U2. subst st2.
    unfold getStoredUserToken. rewrite getItem_fetch. exact U1.
Qed.

Lemma cleared_store st :
  getStoredUserToken (clearStoredTokens st) = None /\
  getStoredSessionToken (clearStoredTokens st) = None /\
  getItem SESSION_ID_KEY (clearStoredTokens st) = None.
Proof.
  unfold getStoredUserToken, getStoredSessionToken.
  repeat split; apply clearStoredTokens_getItem.
  - left. reflexivity.
  - right. left. reflexivity.
  - right. right. reflexivity.
Qed.



(** ** Buffering *)

Lemma strip_prefix_eq p s r : Js.strip_prefix p s = Some r -> s = p ++ r.
Proof.
  revert s; induction p as [|a p IH]; intros s H; simpl in *.
  - now inversion H.
  - destruct s as [|b s]; [discriminate|].
    destruct (a =? b)%N eqn:E; [|discriminate].
    apply N.eqb_eq in E. subst b. simpl. f_equal. now apply IH.
Qed.

Lemma cut_at_eq sep s b a : Js.cut_at sep s = Some (b, a) -> s = b ++ sep ++ a.
Proof.
  revert b a; induction s as [|c s IH]; intros b a H.
  - simpl in H. destruct (Js.strip_prefix sep []) eqn:E; [|discriminate].
    inversion H; subst. now apply strip_prefix_eq in E.
  - simpl in H. destruct (Js.strip_prefix sep (c :: s)) eqn:E.
    + inversion H; subst. now apply strip_prefix_eq in E.
    + destruct (Js.cut_at sep s) as [[b' a']|]; [|discriminate].
      inversion H; subst. simpl. f_equal. now apply IH.
Qed.

Lemma join_split sep s : sep <> [] -> Js.join sep (Js.split sep s) = s.
Proof.
  intros Hsep. remember (length s) as n eqn:Hn.
  revert s Hn. induction n as [n IH] using lt_wf_ind. intros s Hn.
  rewrite (split_unfold sep s) by assumption.
  destruct (Js.cut_at sep s) as [[b a]|] eqn:E; [|reflexivity].
  pose proof (cut_at_length _ _ _ _ E) as L.
  assert (Hsep' : 0 < length sep) by (destruct sep; [congruence | simpl; lia]).
  pose proof (split_not_nil sep a Hsep) as NE.
  pose proof (IH (length a) ltac:(lia) a eq_refl) as IHa.
  destruct (Js.split sep a) as [|x r]; [congruence|].
  cbn [Js.join]. cbn [Js.join] in IHa. rewrite IHa.
  symmetry. now apply cut_at_eq.
Qed.

(** X29.  The read loop neither loses nor repeats a code unit of the
    stream: the events it has handled, followed by what it keeps in the
    buffer, joined by blank lines, are the decoded text of all the chunks;
    and what it keeps in the buffer holds no blank line, so no complete
    event is left waiting there. *)
Theorem buffering_loses_nothing aid chunks st :
  exists events,
    now (read_loop aid chunks st) = fold_left (handle_part aid) events st /\
    Js.join [Js.LF; Js.LF] (events ++ [buffer (read_loop aid chunks st)])
    = text_of (concat chunks) /\
    Js.split [Js.LF; Js.LF] (buffer (read_loop aid chunks st))
    = [buffer (read_loop aid chunks st)].
Proof.
  rewrite read_loop_whole. unfold text_of.
  destruct (Utf8.decode Utf8.fresh (concat chunks)) as [dec text].
  cbn [snd]. cbv zeta. cbn [now buffer].
  exists (removelast (Js.split [Js.LF; Js.LF] text)).
  split; [reflexivity|]. split.
  - rewrite <- app_removelast_last by (apply split_not_nil; discriminate).
    apply join_split. discriminate.
  - apply split_last_whole. discriminate.
Qed.

End StreamConsumer.

(** * The statements at work

    Each statement above that has a hypothesis is applied here to a
    concrete input; the statements of the description that the code does
    not meet are shown to fail on one. *)


Lemma done_then_content_is_applied :
  now (read_loop lexeme_is_zero lexeme_text 1
         [sse_event (content_payload "ab"); sse_event done_payload;
          sse_event (content_payload "cd")] streaming_state)
  = fold_left (handle_part lexeme_is_zero lexeme_text 1)
      [text_of (Utf8.bytes "data: " ++ content_payload "cd")]
      (setIsLoading false
         (fold_left (handle_part lexeme_is_zero lexeme_text 1)
            [text_of (Utf8.bytes "data: " ++ content_payload "ab")]
            streaming_state)).
Proof.
  apply (done_payload_keeps_reading lexeme_is_zero lexeme_text 1 streaming_state
           [sse_event (content_payload "ab"); sse_event done_payload;
            sse_event (content_payload "cd")]
           [text_of (Utf8.bytes "data: " ++ content_payload "ab")]
           (text_of (Utf8.bytes "data: " ++ done_payload))
           [text_of (Utf8.bytes "data: " ++ content_payload "cd")]
           []
           [] (text_of (Utf8.bytes "data: " ++ done_payload)) []
           (Json.Object [(Js.lit "done", Json.Bool true)]));
    vm_compute; reflexivity.
Defined.

Lemma content_is_appended_to_the_assistant_message :
  let data := Json.Object [(Js.lit "content", Json.String (Js.lit "x"))] in
  handle_data lexeme_is_zero lexeme_text 1 data streaming_state
  = setMessages (append_content 1 (Js.lit "x")) streaming_state /\
  messages (handle_data lexeme_is_zero lexeme_text 1 data streaming_state)
  = [ {| id := 0; role := user; content := Js.lit "hi" |};
      {| id := 1; role := assistant; content := Js.lit "x" |} ].
Proof.
  destruct (content_payload_frame lexeme_is_zero lexeme_text 1
              (Json.Object [(Js.lit "content", Json.String (Js.lit "x"))])
              (Js.lit "x") streaming_state) as (E & _ & _).
  - reflexivity.
  - discriminate.
  - reflexivity.
  - split; [exact E | rewrite E; reflexivity].
Defined.

Lemma not_json_line_is_skipped :
  now (read_loop lexeme_is_zero lexeme_text 1 [noisy_body] streaming_state)
  = fold_left (handle_line lexeme_is_zero lexeme_text 1)
      [text_of (Utf8.bytes "data: " ++ content_payload "ab")] streaming_state.
Proof.
  apply (unparseable_line_is_skipped lexeme_is_zero lexeme_text 1 streaming_state
           [noisy_body] [] (text_of (removelast (removelast noisy_body))) [] []
           [] (Js.lit "data: not-json")
           [text_of (Utf8.bytes "data: " ++ content_payload "ab")]);
    vm_compute; reflexivity.
Defined.

Lemma unfinished_event_is_dropped :
  stream_reply lexeme_is_zero lexeme_text (Js.lit "session-token") 1
    (friendly [unfinished_body]) streaming_state
  = finally_stream
      (fold_left (handle_part lexeme_is_zero lexeme_text 1)
         [text_of (Utf8.bytes "data: " ++ content_payload "ab")]
         (fetch (PostChatStream (Js.lit "session-token") 1)
            (set_abortRef (Some 1) (snd (new_AbortController streaming_state))))).
Proof.
  apply (trailing_fragment_is_dropped lexeme_is_zero lexeme_text
           (Js.lit "session-token") 1 (friendly [unfinished_body])
           {| stream_status := 200; stream_detail := None;
              stream_body := Some ([unfinished_body], end_of_data) |}
           [unfinished_body]
           [text_of (Utf8.bytes "data: " ++ content_payload "ab")]
           (text_of (Utf8.bytes "data: " ++ content_payload "cd"))
           streaming_state);
    vm_compute; reflexivity.
Defined.


Lemma history_of_two_replaces_the_log :
  let st := set_historyLoadedRef false streaming_state in
  let entries := [ {| h_role := user; h_content := Js.lit "one" |};
                   {| h_role := assistant; h_content := Js.lit "two" |} ] in
  let st' := loadHistory st (history_answer 200 entries) st in
  messages st' =
  [ {| id := 2; role := user; content := Js.lit "one" |};
    {| id := 3; role := assistant; content := Js.lit "two" |} ] /\
  uuids st' = 4.
Proof.
  apply (loaded_history_replaces_log
           (set_historyLoadedRef false streaming_state)
           {| status := 200; detail := None;
              json := inr (Some [ {| h_role := user; h_content := Js.lit "one" |};
                                  {| h_role := assistant; h_content := Js.lit "two" |} ]) |}
           (Some [ {| h_role := user; h_content := Js.lit "one" |};
                   {| h_role := assistant; h_content := Js.lit "two" |} ])
           (set_historyLoadedRef false streaming_state));
    reflexivity.
Defined.





(** C3 fails as it is worded: a successful answer with an empty list
    leaves the former log in place. *)
Lemma empty_history_keeps_the_log :
  let st := set_historyLoadedRef false streaming_state in
  ok {| status := 200; detail := None;
        json := inr (Some (@nil history_entry)) |} = true /\
  messages (loadHistory st (history_answer 200 []) st) = greeting_log /\
  greeting_log <> [].
Proof.
  split; [reflexivity|]. split; [vm_compute; reflexivity | discriminate].
Qed.


(** C6 fails as it is worded: a payload with a non-empty content and
    [done] set to [true] only clears the loading flag; its content is not
    appended. *)
Lemma content_beside_done_is_not_appended :
  let data := Json.Object [ (Js.lit "content", Json.String (Js.lit "x"));
                            (Js.lit "done", Json.Bool true) ] in
  Json.parse (text_of done_with_content_payload) = Some data /\
  Json.get data "content" = Some (Json.String (Js.lit "x")) /\
  messages (handle_data lexeme_is_zero lexeme_text 1 data streaming_state)
  = greeting_log /\
  messages (now (read_loop lexeme_is_zero lexeme_text 1
                   [sse_event done_with_content_payload] streaming_state))
  = greeting_log /\
  greeting_log <> append_content 1 (Js.lit "x") greeting_log.
Proof.
  repeat split; try (vm_compute; reflexivity).
  vm_compute. discriminate.
Qed.

(** ** Further statements at work *)

Lemma tokens_of_the_greeting_survive_a_reload :
  let st' :=
    mount (reloaded (selectSession greeting_session false
                       (storeUserToken (Js.lit "user-token") streaming_state))) in
  userToken st' = Some (Js.lit "user-token") /\
  sessionToken st' = Some (access_token (token greeting_session)) /\
  currentSessionId st' = None.
Proof.
  apply (reload_restores_tokens greeting_session false (Js.lit "user-token")
           streaming_state).
  - discriminate.
  - reflexivity.
  - reflexivity.
Defined.

Lemma history_of_the_greeting_is_loaded_once :
  loadHistory streaming_state (history_answer 200 [])
    (loadHistory streaming_state
       (history_answer 200 [{| h_role := user; h_content := Js.lit "hi" |}])
       sessionless_state)
  = loadHistory streaming_state
      (history_answer 200 [{| h_role := user; h_content := Js.lit "hi" |}])
      sessionless_state.
Proof.
  apply (loadHistory_once streaming_state
           (history_answer 200 [{| h_role := user; h_content := Js.lit "hi" |}])
           (history_answer 200 []) sessionless_state).
  intros resp [= <-]. split; discriminate.
Defined.


Lemma friendly_backend_creates_the_session :
  let res := createSession sessionless_state (Some (Js.lit "again")) true
               (friendly []) sessionless_state in
  isLoading (snd res) = false /\
  match fst res with
  | Some final =>
      sessions (snd res) = final :: sessions sessionless_state /\
      currentSessionId (snd res) = Some (session_id final) /\
      sessionToken (snd res) = Some (access_token (token final)) /\
      messages (snd res) = messages sessionless_state /\
      abortRef (snd res) = None /\ historyLoadedRef (snd res) = false
  | None =>
      sessions (snd res) = sessions sessionless_state /\
      currentSessionId (snd res) = currentSessionId sessionless_state /\
      sessionToken (snd res) = sessionToken sessionless_state /\
      messages (snd res) = messages sessionless_state /\
      abortRef (snd res) = abortRef sessionless_state /\
      error (snd res) <> None
  end.
Proof.
  apply (createSession_outcomes sessionless_state (Some (Js.lit "again")) true
           (friendly []) sessionless_state).
  reflexivity.
Defined.

Lemma session_is_kept_when_its_rename_fails :
  let res := createSession sessionless_state (Some (Js.lit "again")) true
               rename_fails sessionless_state in
  fst res = Some created_session /\
  sessions (snd res) = created_session :: sessions sessionless_state /\
  currentSessionId (snd res) = Some (session_id created_session) /\
  error (snd res) =
  Some match patch_name rename_fails with
       | inl err => message_or "Failed to rename session." err
       | inr answer => detail_or "Failed to rename session." (detail answer)
       end.
Proof.
  apply (createSession_survives_failed_rename sessionless_state (Js.lit "again")
           true rename_fails sessionless_state
           {| status := 200; detail := None; json := inr created_session |}
           created_session).
  - reflexivity.
  - reflexivity.
  - reflexivity.
  - reflexivity.
  - discriminate.
  - intros answer H. discriminate H.
Defined.

Lemma expired_list_of_sessions_logs_out :
  let st' := fst (refreshSessions streaming_state
                    (inr {| status := 401; detail := None; json := inr [] |})
                    streaming_state) in
  userToken st' = None /\ sessionToken st' = None /\ sessions st' = [] /\
  currentSessionId st' = None /\ messages st' = [] /\
  error st' = Some SESSION_EXPIRED /\ sessionsLoading st' = false /\
  getStoredUserToken st' = None /\ getStoredSessionToken st' = None.
Proof.
  apply (refreshSessions_expired_logs_out streaming_state
           {| status := 401; detail := None; json := inr [] |} streaming_state).
  - reflexivity.
  - left. reflexivity.
Defined.


Lemma one_chunk_or_two :
  read_loop lexeme_is_zero lexeme_text 1 [two_events] streaming_state
  = read_loop lexeme_is_zero lexeme_text 1
      [firstn 10 two_events; skipn 10 two_events] streaming_state.
Proof.
  apply (read_loop_any_chunking lexeme_is_zero lexeme_text 1 [two_events]
           [firstn 10 two_events; skipn 10 two_events] streaming_state).
  reflexivity.
Defined.

Lemma over_long_text_is_turned_down :
  let st' := sendMessage lexeme_is_zero lexeme_text streaming_state
               (repeat 97%N 3001) (friendly []) streaming_state in
  messages st' = messages streaming_state /\
  isLoading st' = isLoading streaming_state /\
  abortRef st' = abortRef streaming_state /\
  uuids st' = uuids streaming_state /\
  controllers st' = controllers streaming_state /\
  trace st' = trace streaming_state /\
  (truthy (userToken streaming_state) = true ->
   Js.trim (repeat 97%N 3001) = [] -> st' = streaming_state) /\
  (truthy (userToken streaming_state) = false \/
   Js.trim (repeat 97%N 3001) <> [] -> error st' <> None).
Proof.
  apply (sendMessage_checks lexeme_is_zero lexeme_text streaming_state
           (repeat 97%N 3001) (friendly []) streaming_state).
  right. right. vm_compute. lia.
Defined.

Lemma second_message_settles :
  let st' := sendMessage lexeme_is_zero lexeme_text streaming_state
               (Js.lit "again") (friendly []) streaming_state in
  isLoading st' = false /\
  (truthy (sessionToken streaming_state) = true -> abortRef st' = None).
Proof.
  apply (sendMessage_settles lexeme_is_zero lexeme_text streaming_state
           (Js.lit "again") (friendly []) streaming_state).
  - reflexivity.
  - discriminate.
  - vm_compute. lia.
Defined.


Lemma unreachable_chat_is_reported :
  let st' := stream_reply lexeme_is_zero lexeme_text (Js.lit "session-token") 1
               chat_unreachable streaming_state in
  messages st' = messages streaming_state /\
  error st' = Some (Js.lit "offline").
Proof.
  apply (failed_chat_request lexeme_is_zero lexeme_text (Js.lit "session-token") 1
           chat_unreachable streaming_state).
  exact I.
Defined.

Lemma expired_chat_logs_out :
  let st' := stream_reply lexeme_is_zero lexeme_text (Js.lit "session-token") 1
               chat_expired streaming_state in
  userToken st' = None /\ sessionToken st' = None /\ sessions st' = [] /\
  currentSessionId st' = None /\ messages st' = [] /\
  error st' = Some SESSION_EXPIRED /\ isLoading st' = false /\
  abortRef st' = None /\
  getStoredUserToken st' = None /\ getStoredSessionToken st' = None /\
  trace st' =
  trace streaming_state ++
  [Fetch (PostChatStream (Js.lit "session-token") (controllers streaming_state))
     (messages streaming_state);
   Abort (controllers streaming_state)].
Proof.
  apply (chat_401_logs_out lexeme_is_zero lexeme_text (Js.lit "session-token") 1
           chat_expired streaming_state
           {| stream_status := 401; stream_detail := None; stream_body := None |}).
  - reflexivity.
  - left. reflexivity.
Defined.

